(** * Compliance scoring and questionnaire resolution (assessment.py,
      questionnaire_loader.py): a shallow embedding and its properties.

    Conventions of the embedding.
    - Python floats are idealised as exact rationals ([Q]). The concrete
      inputs used below are dyadic rationals, on which the sums and
      comparisons of binary64 arithmetic are exact; a quotient such as
      2/3 stands for the nearest float. The last part of the file
      ([Float]) models the weight repair and the weighted average with
      every rounding of the code, for the statements that depend on
      it.
    - [str] is [string]; [lower], [upper] and [strip] act on ASCII.
    - A [dict] whose iteration order is observed (the answer-points table,
      the section-score table) is an insertion-ordered association list
      ([Dict]); the response map, which is only ever looked up, is a
      [gmap string (option string)] where a stored [None] is Python's
      [None] value and a missing key is an absent response.
    - Exceptions are explicit ([pyresult]); the warnings about responses
      and sections and the correction notices of [verify_section_score]
      are returned as a list of [LogRecord]s, other log output is
      dropped.
    - The [lru_cache] around [get_questionnaire] and the one-second result
      cache of [calculate_compliance_score] are not modelled: every call
      below is a cache miss. *)

From Stdlib Require Import String Ascii List Bool Arith ZArith QArith Qabs Lia Lqa.
From Stdlib Require Import DecimalString.
From stdpp Require Import base option gmap strings.
Import ListNotations.

Local Open Scope string_scope.
Local Open Scope list_scope.

(** ** Strings *)

Module PyStr.

Definition is_upper (c : ascii) : bool :=
  (65 <=? nat_of_ascii c)%nat && (nat_of_ascii c <=? 90)%nat.

Definition is_lower (c : ascii) : bool :=
  (97 <=? nat_of_ascii c)%nat && (nat_of_ascii c <=? 122)%nat.

Definition lower_char (c : ascii) : ascii :=
  if is_upper c then ascii_of_nat (nat_of_ascii c + 32) else c.

Definition upper_char (c : ascii) : ascii :=
  if is_lower c then ascii_of_nat (nat_of_ascii c - 32) else c.

Fixpoint map_chars (f : ascii -> ascii) (s : string) : string :=
  match s with
  | EmptyString => EmptyString
  | String c s' => String (f c) (map_chars f s')
  end.

(** [s.lower()] and [s.upper()] *)
Definition lower : string -> string := map_chars lower_char.
Definition upper : string -> string := map_chars upper_char.

(** The ASCII characters [str.isspace] accepts. *)
Definition is_space (c : ascii) : bool :=
  let n := nat_of_ascii c in
  ((9 <=? n)%nat && (n <=? 13)%nat) || ((28 <=? n)%nat && (n <=? 32)%nat).

Fixpoint lstrip (s : string) : string :=
  match s with
  | String c s' => if is_space c then lstrip s' else s
  | EmptyString => EmptyString
  end.

Fixpoint rstrip (s : string) : string :=
  match s with
  | EmptyString => EmptyString
  | String c s' =>
      match rstrip s' with
      | EmptyString => if is_space c then EmptyString else String c EmptyString
      | r => String c r
      end
  end.

(** [s.strip()] *)
Definition strip (s : string) : string := rstrip (lstrip s).

(** [p in s] for strings: [p] occurs in [s] at some offset. *)
Fixpoint contains (p s : string) : bool :=
  String.prefix p s ||
  match s with
  | EmptyString => false
  | String _ s' => contains p s'
  end.

(** [s.endswith(p)] *)
Fixpoint endswith (s p : string) : bool :=
  String.eqb s p ||
  match s with
  | EmptyString => false
  | String _ s' => endswith s' p
  end.

(** [s.replace(c, "")] for a one-character [c]. *)
Fixpoint remove_char (c : ascii) (s : string) : string :=
  match s with
  | EmptyString => EmptyString
  | String d s' =>
      if Ascii.eqb c d then remove_char c s' else String d (remove_char c s')
  end.

(** [str(n)] for a non-negative integer. *)
Definition of_nat (n : nat) : string :=
  NilEmpty.string_of_uint (Nat.to_uint n).

(** Truthiness of a string: [bool(s)]. *)
Definition truthy (s : string) : bool :=
  match s with EmptyString => false | _ => true end.

End PyStr.

(** ** Insertion-ordered dictionaries with string keys *)

Module Dict.

Definition t (V : Type) : Type := list (string * V).

Fixpoint get {V} (d : t V) (k : string) : option V :=
  match d with
  | [] => None
  | (k', v) :: d' => if String.eqb k' k then Some v else get d' k
  end.

(** [k in d] *)
Definition mem {V} (d : t V) (k : string) : bool :=
  match get d k with Some _ => true | None => false end.

(** [d[k] = v]: an existing key keeps its position, a new one is
    appended. *)
Fixpoint set {V} (d : t V) (k : string) (v : V) : t V :=
  match d with
  | [] => [(k, v)]
  | (k', v') :: d' =>
      if String.eqb k' k then (k', v) :: d' else (k', v') :: set d' k v
  end.

Definition keys {V} (d : t V) : list string := map fst d.

End Dict.

(** ** Exceptions *)

Inductive PyExn : Type :=
| TypeError
| AttributeError
| KeyError
| OSError.

Inductive pyresult (A : Type) : Type :=
| Ok (a : A)
| Raise (e : PyExn).

Arguments Ok {A} a.
Arguments Raise {A} e.

(** The exception monad, with stdpp's [x ← m; k] notation. *)
#[global] Instance pyresult_ret : MRet pyresult := fun A a => Ok a.
#[global] Instance pyresult_bind : MBind pyresult := fun A B k m =>
  match m with
  | Ok a => k a
  | Raise e => Raise e
  end.

(** ** Log records *)

Inductive LogRecord : Type :=
| UnableToDeterminePoints (response section_name : string)
| NoPointsAssigned (response : string)
| ResponseNotInAnswerPoints (response : string)
| CorrectedAllOnes (section_name : string)
| CorrectedPattern (section_name : string)
| CorrectedPrecision (section_name : string)
| EmptyResponses (section_name : string)
| NoQuestionsFound (section_name : string).

(** ** Numbers *)

(** [x < y] on floats. *)
Definition Qlt_bool (x y : Q) : bool := negb (Qle_bool y x).

(** [float(n)] for a length or a counter. *)
Definition Qnat (n : nat) : Q := inject_Z (Z.of_nat n).

Fixpoint Qsum (l : list Q) : Q :=
  match l with
  | [] => 0%Q
  | x :: l' => (x + Qsum l')%Q
  end.

(** ** Data model (the JSON rule-set documents) *)

(** The ["weight"] entry of a section: missing, present but not an [int]
    or [float], or a number. *)
Inductive WeightField : Type :=
| WAbsent
| WOther
| WNum (w : Q).

(** A question is a plain string (legacy) or a record; only the record
    can carry a ["recommendations"] table. *)
Inductive Question : Type :=
| QPlain (text : string)
| QRecord (id : option string) (text : string) (options : list string)
          (recommendations : option (Dict.t string)).

Record Section : Type := mkSection {
  sec_name : string;
  sec_weight : WeightField;
  sec_index : option nat;
  sec_questions : list Question
}.

(** [None] in the answer-points table is JSON [null]: excluded from
    scoring. *)
Definition AnswerPoints : Type := Dict.t (option Q).

Record Questionnaire : Type := mkQuestionnaire {
  q_sections : list Section;
  q_answer_points : option AnswerPoints
}.

(** [f"s{section_idx}_q{q_idx}"] *)
Definition response_key (section_idx q_idx : nat) : string :=
  "s" +:+ PyStr.of_nat section_idx +:+ "_q" +:+ PyStr.of_nat q_idx.

(** ** assessment.py: calculate_section_score *)

(** The [for answer, points in answer_points.items()] loop with its
    [break]: the value of the first key equal to the response up to
    case. *)
Fixpoint case_insensitive_match (answer_points : AnswerPoints)
    (response_lower : string) : option (option Q) :=
  match answer_points with
  | [] => None
  | (answer, points) :: rest =>
      if String.eqb (PyStr.lower answer) response_lower then Some points
      else case_insensitive_match rest response_lower
  end.

(** The [if]/[elif] chain of substring tests (lines 291-304). *)
Definition heuristic_point (section_name response response_lower : string)
    : option Q * list LogRecord :=
  if PyStr.contains "yes" response_lower
     || PyStr.contains "successfully completed" response_lower
  then (Some 1%Q, [])
  else if PyStr.contains "no" response_lower
          || PyStr.contains "not yet completed" response_lower
  then (Some 0%Q, [])
  else if PyStr.contains "partial" response_lower
          || PyStr.contains "needs improvement" response_lower
  then (Some (1 # 2)%Q, [])
  else if PyStr.contains "not applicable" response_lower
  then (None, [])
  else (None, [UnableToDeterminePoints response section_name]).

(** The value of [point] after lines 273-304, for a truthy response. *)
Definition resolve_point (section_name : string) (answer_points : AnswerPoints)
    (response : string) : option Q * list LogRecord :=
  let response_lower := PyStr.lower response in
  match Dict.get answer_points response with
  | Some point => (point, [])
  | None =>
      let point :=
        match case_insensitive_match answer_points response_lower with
        | Some points => points
        | None => None
        end in
      match point with
      | Some p => (Some p, [])
      | None => heuristic_point section_name response response_lower
      end
  end.

(** Loop state of [calculate_section_score]. *)
Record SectionAcc : Type := mkSectionAcc {
  total_score : Q;
  applicable_questions : nat;
  acc_log : list LogRecord
}.

Fixpoint section_score_loop (section_name : string) (section_idx : nat)
    (responses : gmap string (option string)) (answer_points : AnswerPoints)
    (q_idx : nat) (questions : list Question) (acc : SectionAcc) : SectionAcc :=
  match questions with
  | [] => acc
  | _ :: rest =>
      let acc' :=
        match responses !! response_key section_idx q_idx with
        | Some (Some response) =>
            if PyStr.truthy response then
              let '(point, lg) := resolve_point section_name answer_points response in
              match point with
              | Some p =>
                  mkSectionAcc (total_score acc + p)%Q
                               (S (applicable_questions acc))
                               (acc_log acc ++ lg)
              | None =>
                  mkSectionAcc (total_score acc) (applicable_questions acc)
                               (acc_log acc ++ lg)
              end
            else acc
        | _ => acc
        end in
      section_score_loop section_name section_idx responses answer_points
                         (S q_idx) rest acc'
  end.

Definition calculate_section_score_log (section : Section)
    (responses : gmap string (option string)) (answer_points : AnswerPoints)
    : option Q * list LogRecord :=
  match sec_questions section with
  | [] => (None, [NoQuestionsFound (sec_name section)])
  | questions =>
      let section_idx := match sec_index section with Some i => i | None => 0%nat end in
      let acc := section_score_loop (sec_name section) section_idx responses
                   answer_points 0 questions (mkSectionAcc 0%Q 0 []) in
      match applicable_questions acc with
      | O => (None, acc_log acc)
      | S _ =>
          (Some (total_score acc / Qnat (applicable_questions acc))%Q, acc_log acc)
      end
  end.

Definition calculate_section_score (section : Section)
    (responses : gmap string (option string)) (answer_points : AnswerPoints)
    : option Q :=
  fst (calculate_section_score_log section responses answer_points).

(** ** assessment.py: get_compliance_level *)

Definition COMPLIANCE_LEVELS : list (Q * string) :=
  [ ((85 # 100)%Q, "Highly Compliant");
    ((70 # 100)%Q, "Substantially Compliant");
    ((50 # 100)%Q, "Partially Compliant");
    (0%Q, "Non-Compliant") ].

Fixpoint insert_desc (x : Q * string) (l : list (Q * string)) : list (Q * string) :=
  match l with
  | [] => [x]
  | y :: l' => if Qle_bool (fst y) (fst x) then x :: l else y :: insert_desc x l'
  end.

(** [sorted(items, reverse=True)] on the thresholds. *)
Definition sorted_desc (l : list (Q * string)) : list (Q * string) :=
  fold_right insert_desc [] l.

Fixpoint first_level (score : Q) (l : list (Q * string)) : string :=
  match l with
  | [] => "Non-Compliant"
  | (threshold, level) :: l' =>
      if Qle_bool threshold score then level else first_level score l'
  end.

Definition get_compliance_level (score : Q) : string :=
  first_level score (sorted_desc COMPLIANCE_LEVELS).

(** ** assessment.py: fix_known_scoring_issues *)

Definition notices_key : string :=
  "Notices are provided in English and all 22 official Indian languages listed in the Eighth Schedule of the Constitution.".

Definition fix_known_scoring_issues (answer_points : AnswerPoints) : AnswerPoints :=
  match Dict.get answer_points notices_key with
  | Some (Some v) =>
      if Qeq_bool v 0 then Dict.set answer_points notices_key (Some 1%Q)
      else answer_points
  | _ => answer_points
  end.

(** ** assessment.py: should_have_perfect_score *)

Definition full_compliance_patterns : list string :=
  [ "yes, with";
    "notices are provided in english and all";
    "comprehensive";
    "robust";
    "full";
    "strict adherence";
    "established procedures";
    "clear verification";
    "dedicated" ].

(** The responses are strings here, so the [any(r is None ...)] test of
    the source never fires. *)
Definition should_have_perfect_score (section_name : string)
    (section_responses : list string) : bool :=
  match section_responses with
  | [] => false
  | _ =>
      let full_compliance_count :=
        length (List.filter (fun response =>
                  existsb (fun pattern => PyStr.contains pattern (PyStr.lower response))
                          full_compliance_patterns)
                section_responses) in
      Nat.eqb full_compliance_count (length section_responses)
  end.

(** ** assessment.py: verify_section_score *)

(** [raw_score < x] where [raw_score] may be [None]. *)
Definition py_lt (raw_score : option Q) (x : Q) : pyresult bool :=
  match raw_score with
  | Some r => Ok (Qlt_bool r x)
  | None => Raise TypeError
  end.

(** [answer_points.get(response, 0.0) == 1.0] *)
Definition point_is_one (answer_points : AnswerPoints) (response : string) : bool :=
  match Dict.get answer_points response with
  | Some (Some p) => Qeq_bool p 1
  | Some None => false
  | None => Qeq_bool 0 1
  end.

Definition all_responses_one (answer_points : AnswerPoints)
    (section_responses : list string) : bool :=
  let truthy_responses := List.filter PyStr.truthy section_responses in
  forallb (point_is_one answer_points) truthy_responses
  && match truthy_responses with [] => false | _ => true end.

Definition verify_section_score (section_name : string) (raw_score : option Q)
    (section_responses : list string) (answer_points : AnswerPoints)
    : pyresult (Q * list LogRecord) :=
  match section_responses with
  | [] =>
      Ok (match raw_score with Some r => r | None => 0%Q end,
          [EmptyResponses section_name])
  | _ =>
      below ← (if String.eqb section_name "Data Collection and Processing"
               then py_lt raw_score 1 else Ok false);
      if below && all_responses_one answer_points section_responses
      then Ok (1%Q, [CorrectedAllOnes section_name])
      else
        below' ← py_lt raw_score 1;
        if below' && should_have_perfect_score section_name section_responses
        then Ok (1%Q, [CorrectedPattern section_name])
        else
          match raw_score with
          | Some r =>
              if Qle_bool (95 # 100) r && Qlt_bool r 1
              then Ok (1%Q, [CorrectedPrecision section_name])
              else Ok (r, [])
          | None => Ok (0%Q, [])
          end
  end.

(** ** assessment.py: get_recommendation_priority *)

Definition get_recommendation_priority (score : Q) : string :=
  if Qlt_bool score (6 # 10) then "high"
  else if Qlt_bool score (75 # 100) then "medium"
  else "low".

(** ** assessment.py: create_fallback_questionnaire and get_questionnaire *)

(** The rule-set store below [config.QUESTIONNAIRE_DIR]: a path is a
    regulation directory and a file name inside it. *)
Record FileSystem : Type := mkFileSystem {
  dir_exists : string -> bool;                       (* os.path.exists(reg_dir) *)
  file_exists : string -> string -> bool;            (* os.path.exists(join(reg_dir, f)) *)
  listdir : string -> pyresult (list string);        (* os.listdir(reg_dir) *)
  read_json : string -> string -> pyresult Questionnaire  (* open + json.load *)
}.

(** The part of [st.session_state] the engine reads. [ss_responses] is
    [None] when the key ['responses'] is missing; [ss_loader_selection]
    stands for the pair [utils.get_regulation_and_industry_for_loader]
    derives from the session. *)
Record SessionState : Type := mkSessionState {
  ss_responses : option (gmap string (option string));
  ss_locked_questionnaire_type : option string;
  ss_loader_selection : string * string
}.

Definition fallback_options : list string :=
  [ "Yes, fully compliant"; "Partially compliant"; "No, not compliant";
    "Not applicable" ].

Definition fallback_section_names (regulation_code industry_code : string)
    : list string :=
  if String.eqb regulation_code "DPDP" then
    if String.eqb (PyStr.lower industry_code) "e-commerce" then
      [ "DPDP Data Collection and Processing";
        "DPDP Data Principal Rights";
        "DPDP Data Breach and Security";
        "DPDP Governance and Documentation" ]
    else [ "Data Collection and Processing"; "Data Principal Rights" ]
  else [ "Data Collection"; "Data Processing" ].

Definition minimal_questionnaire (section_names : list string) : Questionnaire :=
  mkQuestionnaire
    (map (fun name =>
            mkSection name (WNum (1 / Qnat (length section_names))%Q) None
              [ QRecord None ("Sample question for " +:+ name) fallback_options None ])
         section_names)
    None.

Definition create_fallback_questionnaire (fs : FileSystem) (st : SessionState)
    (regulation_code industry_code : string) : Questionnaire :=
  let locked :=
    match ss_locked_questionnaire_type st with
    | Some ty =>
        String.eqb ty "e-commerce"
        && negb (String.eqb (PyStr.lower industry_code) "e-commerce")
    | None => false
    end in
  let industry_code' := if locked then "e-commerce" else industry_code in
  let synthesized :=
    minimal_questionnaire (fallback_section_names regulation_code industry_code') in
  if locked && file_exists fs regulation_code "E-commerce.json" then
    match read_json fs regulation_code "E-commerce.json" with
    | Ok questionnaire => questionnaire
    | Raise _ => synthesized          (* bare [except: pass] *)
    end
  else synthesized.

(** What the per-regulation branch of [get_questionnaire] settles on. *)
Inductive Resolution : Type :=
| UseFile (found_file : string)
| UseFallback.

Definition resolve_file (fs : FileSystem) (regulation industry : string)
    : pyresult Resolution :=
  if String.eqb regulation "PDPPL" then
    if file_exists fs regulation (industry +:+ ".json")
    then Ok (UseFile (industry +:+ ".json"))
    else
      names ← listdir fs regulation;
      let files := List.filter (fun f => PyStr.endswith (PyStr.lower f) ".json") names in
      let target := PyStr.lower (industry +:+ ".json") in
      match List.filter (fun f => String.eqb (PyStr.lower f) target) files with
      | found_file :: _ => Ok (UseFile found_file)
      | [] => Ok (UseFile "Oil_and_Gas.json")
      end
  else if String.eqb regulation "NPC" then
    if file_exists fs regulation "npc.json"
    then Ok (UseFile "npc.json") else Ok UseFallback
  else if String.eqb regulation "OAIC" then
    if file_exists fs regulation (industry +:+ ".json")
    then Ok (UseFile (industry +:+ ".json")) else Ok (UseFile "General.json")
  else
    if file_exists fs regulation (industry +:+ ".json")
    then Ok (UseFile (industry +:+ ".json"))
    else Ok (UseFile "Banking and finance.json").

(** The body of the [try] block. *)
Definition get_questionnaire_body (fs : FileSystem) (st : SessionState)
    (regulation industry : string) : pyresult Questionnaire :=
  let regulation := PyStr.upper (PyStr.strip regulation) in
  let industry := PyStr.lower (PyStr.strip industry) in
  if negb (dir_exists fs regulation)
  then Ok (create_fallback_questionnaire fs st regulation industry)
  else
    resolution ← resolve_file fs regulation industry;
    match resolution with
    | UseFallback => Ok (create_fallback_questionnaire fs st regulation industry)
    | UseFile found_file => read_json fs regulation found_file
    end.

(** [{"sections": []}], the value of the [except Exception] handler. *)
Definition empty_questionnaire : Questionnaire := mkQuestionnaire [] None.

Definition get_questionnaire (fs : FileSystem) (st : SessionState)
    (regulation industry : string) : Questionnaire :=
  match get_questionnaire_body fs st regulation industry with
  | Ok questionnaire => questionnaire
  | Raise _ => empty_questionnaire
  end.

(** ** questionnaire_loader.py: fix_questionnaire_weights *)

Definition weight_is_valid (w : WeightField) : bool :=
  match w with
  | WNum x => Qlt_bool 0 x
  | _ => false
  end.

Definition set_weight (section : Section) (w : Q) : Section :=
  mkSection (sec_name section) (WNum w) (sec_index section) (sec_questions section).

(** [section["weight"]] once it is known to be a number. *)
Definition weight_value (section : Section) : Q :=
  match sec_weight section with WNum x => x | _ => 0%Q end.

(** The first loop: an invalid weight becomes [1.0 / section_count]. *)
Definition default_invalid_weight (section_count : nat) (section : Section)
    : Section :=
  if weight_is_valid (sec_weight section) then section
  else set_weight section (1 / Qnat section_count)%Q.

(** [sum(xs)]: a left fold from [0]. *)
Definition py_sum (xs : list Q) : Q := fold_left Qplus xs 0%Q.

Definition fix_questionnaire_weights (questionnaire : Questionnaire)
    : option Questionnaire :=
  match q_sections questionnaire with
  | [] => None
  | sections =>
      let section_count := length sections in
      let sections := map (default_invalid_weight section_count) sections in
      let total_weight := py_sum (map weight_value sections) in
      if Qle_bool (99 # 100) total_weight && Qle_bool total_weight (101 # 100)
      then Some (mkQuestionnaire sections (q_answer_points questionnaire))
      else
        Some (mkQuestionnaire
                (map (fun section =>
                        set_weight section (weight_value section / total_weight)%Q)
                     sections)
                (q_answer_points questionnaire))
  end.

(** The numeric weights of a questionnaire. *)
Definition weights_of (questionnaire : Questionnaire) : list Q :=
  map weight_value (q_sections questionnaire).

(** ** assessment.py: calculate_compliance_score *)

(** The built-in table used when the questionnaire defines no
    [answer_points]. *)
Definition default_answer_points : AnswerPoints :=
  [ ("Yes - Successfully completed", Some 1%Q);
    ("Yes, with comprehensive documentation", Some 1%Q);
    ("Yes, with full documentation", Some 1%Q);
    ("Yes", Some 1%Q);
    ("Partially completed", Some (1 # 2)%Q);
    ("In progress", Some (1 # 2)%Q);
    ("Partially, but training needs improvement", Some (1 # 2)%Q);
    ("Partially, but the process needs improvement", Some (1 # 2)%Q);
    ("No - Not yet completed", Some 0%Q);
    ("No - Not Applicable", None);
    ("No", Some 0%Q);
    ("Not applicable", None) ].

(** The partial-match loop of lines 559-563 with its [break]. *)
Fixpoint partial_match (answer_points : AnswerPoints)
    (response response_lower : string) : option (option Q) :=
  match answer_points with
  | [] => None
  | (key, value) :: rest =>
      if PyStr.truthy key && PyStr.truthy response
         && PyStr.contains (PyStr.lower key) response_lower
      then Some value
      else partial_match rest response response_lower
  end.

(** Loop state of the per-section block (lines 529-573). *)
Record InlineAcc : Type := mkInlineAcc {
  total_points : Q;
  section_responses : list string;
  inline_log : list LogRecord
}.

(** One iteration for a question whose key is in the response map;
    [response] is the stored value, possibly [None]. *)
Definition score_response (answer_points : AnswerPoints)
    (response : option string) (acc : InlineAcc) : InlineAcc :=
  match response with
  | None => acc
  | Some r =>
      let responses' := section_responses acc ++ [r] in
      match Dict.get answer_points r with
      | Some (Some points) =>
          mkInlineAcc (total_points acc + points)%Q responses' (inline_log acc)
      | Some None =>
          mkInlineAcc (total_points acc) responses' (inline_log acc)
      | None =>
          let points :=
            match partial_match answer_points r (PyStr.lower r) with
            | Some value => value
            | None => Some 0%Q
            end in
          let warn :=
            match points with
            | Some p => Qeq_bool p 0 && PyStr.truthy r
            | None => false
            end in
          mkInlineAcc (total_points acc) responses'
            (inline_log acc ++ (if warn then [NoPointsAssigned r] else []))
      end
  end.

Fixpoint inline_loop (answer_points : AnswerPoints)
    (responses : gmap string (option string)) (s_idx q_idx : nat)
    (section_questions : list Question) (acc : InlineAcc) : InlineAcc :=
  match section_questions with
  | [] => acc
  | _ :: rest =>
      let acc' :=
        match responses !! response_key s_idx q_idx with
        | Some response => score_response answer_points response acc
        | None => acc
        end in
      inline_loop answer_points responses s_idx (S q_idx) rest acc'
  end.

Definition nonempty {A} (l : list A) : bool :=
  match l with [] => false | _ => true end.

(** [raw_score] of lines 576-578. *)
Definition inline_raw_score (acc : InlineAcc) (max_points : nat) : option Q :=
  if (0 <? max_points)%nat && nonempty (section_responses acc)
  then Some (total_points acc / Qnat max_points)%Q
  else None.

(** The value stored in [section_scores[section_name]] by one iteration
    of the section loop (lines 523-608). [verify_section_score] never
    returns [None], so the four-way test of lines 584-593 keeps its
    result; an exception lands in the [except] clause. *)
Definition score_section (answer_points : AnswerPoints)
    (responses : gmap string (option string)) (s_idx : nat) (section : Section)
    : option Q * list LogRecord :=
  let section_questions := sec_questions section in
  let max_points := length section_questions in
  let acc := inline_loop answer_points responses s_idx 0 section_questions
               (mkInlineAcc 0%Q [] []) in
  let raw_score := inline_raw_score acc max_points in
  match verify_section_score (sec_name section) raw_score
          (section_responses acc) answer_points with
  | Ok (verified_score, lg) =>
      (if nonempty (section_responses acc) then Some verified_score else None,
       inline_log acc ++ lg)
  | Raise _ => (None, inline_log acc)
  end.

Fixpoint section_scores_loop (answer_points : AnswerPoints)
    (responses : gmap string (option string)) (s_idx : nat)
    (sections : list Section) (section_scores : Dict.t (option Q))
    (lg : list LogRecord) : Dict.t (option Q) * list LogRecord :=
  match sections with
  | [] => (section_scores, lg)
  | section :: rest =>
      let '(score, lg') := score_section answer_points responses s_idx section in
      section_scores_loop answer_points responses (S s_idx) rest
        (Dict.set section_scores (sec_name section) score) (lg ++ lg')
  end.

(** [section_scores.get(section_name)]: a stored [None] and a missing key
    both read as [None]. *)
Definition get_score (section_scores : Dict.t (option Q)) (name : string)
    : option Q :=
  match Dict.get section_scores name with
  | Some score => score
  | None => None
  end.

(** The weighted loop (lines 635-646): the pair
    [(total_weighted_score, total_weight)]. A weight that is not a number
    makes [section_score * section_weight] raise. *)
Fixpoint weighted_loop (section_count : nat) (section_scores : Dict.t (option Q))
    (sections : list Section) (acc : Q * Q) : pyresult (Q * Q) :=
  match sections with
  | [] => Ok acc
  | section :: rest =>
      match get_score section_scores (sec_name section) with
      | Some section_score =>
          section_weight ←
            match sec_weight section with
            | WNum w => Ok w
            | WAbsent => Ok (1 / Qnat section_count)%Q
            | WOther => Raise TypeError
            end;
          weighted_loop section_count section_scores rest
            (fst acc + section_score * section_weight, snd acc + section_weight)%Q
      | None => weighted_loop section_count section_scores rest acc
      end
  end.

Definition overall_of (totals : Q * Q) : Q :=
  if Qlt_bool 0 (snd totals) then (fst totals / snd totals * 100)%Q else 0%Q.

(** Names of the scored sections below [limit], in table order. *)
Definition sections_below (limit : Q) (section_scores : Dict.t (option Q))
    : list string :=
  map fst
    (List.filter (fun entry =>
               match snd entry with
               | Some score => Qlt_bool score limit
               | None => false
               end)
            section_scores).

(** [response.lower().strip().replace(".", "").replace(",", "")] *)
Definition clean (s : string) : string :=
  PyStr.remove_char "," (PyStr.remove_char "." (PyStr.strip (PyStr.lower s))).

Definition append_new (l : list string) (x : string) : list string :=
  if existsb (String.eqb x) l then l else l ++ [x].

(** The [else] branch of the recommendation lookup (lines 695-704): every
    key that contains, or is contained in, the cleaned response adds its
    text once. *)
Fixpoint partial_recommendations (recs : Dict.t string) (response : string)
    (section_recommendations : list string) : list string :=
  match recs with
  | [] => section_recommendations
  | (rec_key, rec_value) :: rest =>
      let clean_response := clean response in
      let clean_key := clean rec_key in
      partial_recommendations rest response
        (if PyStr.contains clean_key clean_response
            || PyStr.contains clean_response clean_key
         then append_new section_recommendations rec_value
         else section_recommendations)
  end.

Fixpoint question_recommendations (responses : gmap string (option string))
    (s_idx q_idx : nat) (questions : list Question)
    (section_recommendations : list string) : pyresult (list string) :=
  match questions with
  | [] => Ok section_recommendations
  | question :: rest =>
      section_recommendations' ←
        match responses !! response_key s_idx q_idx, question with
        | Some response, QRecord _ _ _ (Some recs) =>
            match response with
            | Some r =>
                match Dict.get recs r with
                | Some rec => Ok (append_new section_recommendations rec)
                | None => Ok (partial_recommendations recs r section_recommendations)
                end
            | None =>
                (* [None.lower()] on the first key of a non-empty table *)
                match recs with
                | [] => Ok section_recommendations
                | _ => Raise AttributeError
                end
            end
        | _, _ => Ok section_recommendations
        end;
      question_recommendations responses s_idx (S q_idx) rest section_recommendations'
  end.

Definition generic_recommendations (section_name : string) (score : Q)
    : list string :=
  if Qlt_bool score (6 # 10) then
    [ "Improve " +:+ PyStr.lower section_name +:+ " practices with comprehensive controls";
      "Develop formal policies for " +:+ PyStr.lower section_name ]
  else if Qlt_bool score (75 # 100) then
    [ "Review and strengthen " +:+ PyStr.lower section_name +:+ " controls";
      "Enhance existing " +:+ PyStr.lower section_name +:+ " practices" ]
  else [].

Fixpoint recommendations_loop (responses : gmap string (option string))
    (section_scores : Dict.t (option Q)) (s_idx : nat) (sections : list Section)
    (recommendations : Dict.t (list string)) : pyresult (Dict.t (list string)) :=
  match sections with
  | [] => Ok recommendations
  | section :: rest =>
      match get_score section_scores (sec_name section) with
      | None => recommendations_loop responses section_scores (S s_idx) rest recommendations
      | Some score =>
          specific ← question_recommendations responses s_idx 0
                       (sec_questions section) [];
          let section_recommendations :=
            match specific with
            | [] => generic_recommendations (sec_name section) score
            | _ => specific
            end in
          recommendations_loop responses section_scores (S s_idx) rest
            (match section_recommendations with
             | [] => recommendations
             | _ => Dict.set recommendations (sec_name section) section_recommendations
             end)
      end
  end.

(** [list.sort(key=...)]: a stable insertion sort, ascending by score. *)
Fixpoint insert_by_score (section_scores : Dict.t (option Q)) (x : string)
    (l : list string) : list string :=
  match l with
  | [] => [x]
  | y :: l' =>
      match get_score section_scores x, get_score section_scores y with
      | Some sx, Some sy =>
          if Qle_bool sx sy then x :: l else y :: insert_by_score section_scores x l'
      | _, _ => y :: insert_by_score section_scores x l'
      end
  end.

Definition sort_by_score (section_scores : Dict.t (option Q)) (l : list string)
    : list string :=
  fold_right (insert_by_score section_scores) [] l.

Record ScoreResult : Type := mkScoreResult {
  overall_score : Q;
  compliance_level : string;
  section_scores : Dict.t (option Q);
  high_risk_areas : list string;
  recommendations : Dict.t (list string);
  improvement_priorities : list string;
  regulation_code : option string;
  industry_code : option string
}.

(** The result for a session without responses (line 431); it carries
    only the first three entries. *)
Definition zero_result : ScoreResult :=
  mkScoreResult 0%Q "Non-Compliant" [] [] [] [] None None.

(** The answer-points table the scorer works with (lines 465-490). *)
Definition effective_answer_points (questionnaire : Questionnaire) : AnswerPoints :=
  let answer_points :=
    match q_answer_points questionnaire with
    | Some (entry :: table) => entry :: table
    | _ => default_answer_points
    end in
  fix_known_scoring_issues answer_points.

(** The warnings of lines 493-495, one per stored response that is not a
    key of the table (in the map's own order). *)
Definition unknown_response_warnings (answer_points : AnswerPoints)
    (responses : gmap string (option string)) : list LogRecord :=
  omap (fun entry =>
          match snd entry with
          | Some value =>
              if Dict.mem answer_points value then None
              else Some (ResponseNotInAnswerPoints value)
          | None => None
          end)
       (map_to_list responses).

(** Lines 443-742: scoring a resolved questionnaire. *)
Definition score_questionnaire (questionnaire : Questionnaire)
    (responses : gmap string (option string))
    (regulation_code industry_code : string)
    : pyresult (ScoreResult * list LogRecord) :=
  let sections := q_sections questionnaire in
  let answer_points := effective_answer_points questionnaire in
  let '(section_scores, lg) :=
    section_scores_loop answer_points responses 0 sections []
      (unknown_response_warnings answer_points responses) in
  totals ← weighted_loop (length sections) section_scores sections (0%Q, 0%Q);
  let overall_score := overall_of totals in
  let compliance_level := get_compliance_level (overall_score / 100)%Q in
  let high_risk_areas := sections_below (6 # 10) section_scores in
  recommendations ← recommendations_loop responses section_scores 0 sections [];
  let improvement_priorities :=
    sort_by_score section_scores (sections_below (75 # 100) section_scores) in
  Ok (mkScoreResult overall_score compliance_level section_scores high_risk_areas
        recommendations improvement_priorities
        (Some regulation_code) (Some industry_code), lg).

Definition calculate_compliance_score (fs : FileSystem) (st : SessionState)
    (regulation_code industry_code : option string)
    : pyresult (ScoreResult * list LogRecord) :=
  match ss_responses st with
  | None => Ok (zero_result, [])
  | Some responses =>
      let '(regulation_code, industry_code) :=
        match regulation_code, industry_code with
        | Some r, Some i => (r, i)
        | _, _ => ss_loader_selection st
        end in
      let questionnaire := get_questionnaire fs st regulation_code industry_code in
      score_questionnaire questionnaire responses regulation_code industry_code
  end.

(** * Properties *)

(** ** Dictionaries *)

Module DictFacts.

Lemma get_set_eq {V} (d : Dict.t V) k v : Dict.get (Dict.set d k v) k = Some v.
Proof.
  induction d as [|[k' v'] d IH]; simpl.
  - now rewrite String.eqb_refl.
  - destruct (String.eqb k' k) eqn:E; simpl; rewrite E; auto.
Qed.

Lemma get_set_ne {V} (d : Dict.t V) k k' v :
  k <> k' -> Dict.get (Dict.set d k v) k' = Dict.get d k'.
Proof.
  intros Hne. induction d as [|[k0 v0] d IH]; simpl.
  - destruct (String.eqb k k') eqn:E; auto.
    apply String.eqb_eq in E. contradiction.
  - destruct (String.eqb k0 k) eqn:E; simpl.
    + apply String.eqb_eq in E. subst k0.
      destruct (String.eqb k k') eqn:E'; auto.
      apply String.eqb_eq in E'. contradiction.
    + destruct (String.eqb k0 k'); auto.
Qed.

Lemma keys_set_present {V} (d : Dict.t V) k v v0 :
  Dict.get d k = Some v0 -> Dict.keys (Dict.set d k v) = Dict.keys d.
Proof.
  unfold Dict.keys.
  induction d as [|[k' v'] d IH]; simpl; [discriminate|].
  destruct (String.eqb k' k) eqn:E; simpl; intros H; auto.
  f_equal. auto.
Qed.

End DictFacts.

(** ** Comparisons *)

Lemma Qlt_bool_iff (x y : Q) : Qlt_bool x y = true <-> (x < y)%Q.
Proof.
  unfold Qlt_bool. rewrite negb_true_iff. split.
  - intros H. apply Qnot_le_lt. intros Hle.
    apply Qle_bool_iff in Hle. congruence.
  - intros H. destruct (Qle_bool y x) eqn:E; auto.
    apply Qle_bool_iff in E. exfalso. eapply Qlt_not_le; eauto.
Qed.

Lemma Qlt_bool_false_iff (x y : Q) : Qlt_bool x y = false <-> (y <= x)%Q.
Proof.
  unfold Qlt_bool. rewrite negb_false_iff. apply Qle_bool_iff.
Qed.

(** ** fix_known_scoring_issues *)

(** C10. The known-scoring-issue fix rewrites at most the entry of the
    multi-language notices key, and only from 0.0 to 1.0: the sequence of
    keys is the same before and after (nothing added, removed or moved),
    every other key reads the same value, and the notices key reads 1.0
    exactly when it was present with value 0.0 and its old value
    otherwise. *)
Theorem fix_known_scoring_issues_frame (answer_points : AnswerPoints) :
  Dict.keys (fix_known_scoring_issues answer_points) = Dict.keys answer_points
  /\ (forall k, k <> notices_key ->
        Dict.get (fix_known_scoring_issues answer_points) k
        = Dict.get answer_points k)
  /\ Dict.get (fix_known_scoring_issues answer_points) notices_key
     = match Dict.get answer_points notices_key with
       | Some (Some v) => if Qeq_bool v 0 then Some (Some 1%Q) else Some (Some v)
       | other => other
       end.
Proof.
  unfold fix_known_scoring_issues.
  destruct (Dict.get answer_points notices_key) as [[v|]|] eqn:Hget.
  - destruct (Qeq_bool v 0) eqn:Hz.
    + split; [|split].
      * eapply DictFacts.keys_set_present; eauto.
      * intros k Hk. apply DictFacts.get_set_ne. congruence.
      * apply DictFacts.get_set_eq.
    + rewrite Hget. auto.
  - rewrite Hget. auto.
  - rewrite Hget. auto.
Qed.

(** ** verify_section_score *)

(** C9. On a numeric raw score the correction pass returns normally and
    its result is never below the raw score. *)
Theorem verify_section_score_never_lowers (section_name : string) (raw : Q)
    (responses : list string) (answer_points : AnswerPoints) :
  exists corrected lg,
    verify_section_score section_name (Some raw) responses answer_points
    = Ok (corrected, lg)
    /\ (raw <= corrected)%Q.
Proof.
  unfold verify_section_score.
  destruct responses as [|r rs].
  - do 2 eexists. split; [reflexivity|apply Qle_refl].
  - set (resps := r :: rs).
    assert (Hone : Qlt_bool raw 1 = true -> (raw <= 1)%Q).
    { intros H. apply Qlt_le_weak. now apply Qlt_bool_iff. }
    destruct (String.eqb section_name "Data Collection and Processing");
      cbn [py_lt mbind pyresult_bind];
      destruct (Qlt_bool raw 1) eqn:Hlt; rewrite ?andb_false_r; cbn [andb];
      repeat match goal with
             | |- context [if ?b then _ else _] => destruct b
             end;
      do 2 eexists; (split; [reflexivity|]); auto using Qle_refl;
      cbn [andb] in *; try discriminate.
Qed.

Definition data_collection_name : string := "Data Collection and Processing".

Lemma all_responses_one_nonempty (answer_points : AnswerPoints)
    (responses : list string) :
  all_responses_one answer_points responses = true -> responses <> [].
Proof.
  unfold all_responses_one. intros H Hnil. subst responses.
  simpl in H. discriminate.
Qed.

(** Rule (a) is tied to one section name: a section called "Security"
    with one of two questions answered "Yes" (raw score 0.5, every
    answered response worth 1.0) keeps its raw score. *)
Lemma verify_section_score_other_name_not_forced :
  (1 # 2 < 1)%Q
  /\ all_responses_one [("Yes", Some 1%Q)] ["Yes"] = true
  /\ ~ (exists lg,
          verify_section_score "Security" (Some (1 # 2)%Q) ["Yes"]
            [("Yes", Some 1%Q)] = Ok (1%Q, lg)).
Proof.
  split; [reflexivity|]. split; [reflexivity|].
  intros [lg H]. vm_compute in H. discriminate.
Qed.

(** C4 (amended). For a section whose raw score is below 1.0 and whose
    answered responses all map to exactly 1.0: when the section is named
    "Data Collection and Processing" the correction pass forces the score
    to 1.0 by the all-ones rule and nothing else is applied; under any
    other name the all-ones rule is not consulted and the result is that
    of the pattern rule, else of the rounding rule, else the raw score.
    In every case at most one correction is recorded. *)
Theorem verify_section_score_all_ones_rule (section_name : string) (raw : Q)
    (responses : list string) (answer_points : AnswerPoints) :
  (raw < 1)%Q ->
  all_responses_one answer_points responses = true ->
  (section_name = data_collection_name ->
     verify_section_score section_name (Some raw) responses answer_points
     = Ok (1%Q, [CorrectedAllOnes section_name]))
  /\ (section_name <> data_collection_name ->
        verify_section_score section_name (Some raw) responses answer_points
        = if should_have_perfect_score section_name responses
          then Ok (1%Q, [CorrectedPattern section_name])
          else if Qle_bool (95 # 100) raw
               then Ok (1%Q, [CorrectedPrecision section_name])
               else Ok (raw, []))
  /\ (exists corrected lg,
        verify_section_score section_name (Some raw) responses answer_points
        = Ok (corrected, lg)
        /\ (length lg <= 1)%nat).
Proof.
  intros Hraw Hall.
  pose proof (all_responses_one_nonempty _ _ Hall) as Hne.
  apply Qlt_bool_iff in Hraw.
  unfold verify_section_score, data_collection_name.
  destruct responses as [|r rs]; [congruence|].
  destruct (String.eqb section_name "Data Collection and Processing") eqn:E;
    cbn [py_lt mbind pyresult_bind]; rewrite Hraw, ?Hall; cbn [andb].
  - apply String.eqb_eq in E. split; [auto|]. split; [congruence|].
    do 2 eexists. split; [reflexivity|]. simpl. lia.
  - apply String.eqb_neq in E. split; [congruence|].
    rewrite andb_true_r. split; [auto|].
    destruct (should_have_perfect_score section_name (r :: rs));
      [|destruct (Qle_bool (95 # 100) raw)];
      do 2 eexists; (split; [reflexivity|]); simpl; lia.
Qed.

Lemma verify_section_score_all_ones_rule_witness :
  verify_section_score data_collection_name (Some (1 # 2)%Q) ["Yes"]
    [("Yes", Some 1%Q)]
  = Ok (1%Q, [CorrectedAllOnes data_collection_name]).
Proof.
  apply (verify_section_score_all_ones_rule data_collection_name (1 # 2)
           ["Yes"] [("Yes", Some 1%Q)]); reflexivity.
Defined.

(** ** The two section scorers on the spec's scenarios *)

Definition plain_questions (n : nat) : list Question :=
  map (fun i => QPlain ("Question " +:+ PyStr.of_nat i)) (seq 1 n).

(** Scenario 3: three questions, two answered "Yes" and one
    "Not applicable", scored with the built-in table. *)
Definition scenario3_section : Section :=
  mkSection "Consent Management" (WNum 1) None (plain_questions 3).

Definition scenario3_responses : gmap string (option string) :=
  <["s0_q0" := Some "Yes"]>
    (<["s0_q1" := Some "Yes"]> (<["s0_q2" := Some "Not applicable"]> ∅)).

(** C1 (the code departs from the claim). The section loop of
    [calculate_compliance_score] divides by the number of questions: on
    scenario 3 its raw score and the stored section score are 2/3, where
    [calculate_section_score] divides by the two applicable answers and
    returns 1. *)
Theorem inline_score_divides_by_question_count :
  let answer_points :=
    effective_answer_points (mkQuestionnaire [scenario3_section] None) in
  let acc := inline_loop answer_points scenario3_responses 0 0
               (sec_questions scenario3_section) (mkInlineAcc 0%Q [] []) in
  total_points acc = 2%Q
  /\ inline_raw_score acc 3 = Some (2 # 3)%Q
  /\ score_section answer_points scenario3_responses 0 scenario3_section
     = (Some (2 # 3)%Q, [])
  /\ calculate_section_score scenario3_section scenario3_responses answer_points
     = Some (2 # 2)%Q.
Proof. vm_compute. repeat split. Qed.

Lemma prefix_cons_inv (a : ascii) (p s : string) :
  String.prefix (String a p) s = true ->
  exists s', s = String a s' /\ String.prefix p s' = true.
Proof.
  destruct s as [|b s]; simpl; [discriminate|].
  destruct (Ascii.ascii_dec a b) as [->|]; [eauto|discriminate].
Qed.

Lemma prefix_cons_same (a : ascii) (p s : string) :
  String.prefix p s = true -> String.prefix (String a p) (String a s) = true.
Proof.
  intros H. simpl. destruct (Ascii.ascii_dec a a); congruence.
Qed.

(** The substring tests of the heuristic chain shadow each other: a text
    that contains "not applicable" contains "no". *)
Lemma contains_not_applicable_no (s : string) :
  PyStr.contains "not applicable" s = true -> PyStr.contains "no" s = true.
Proof.
  induction s as [|c s IH]; cbn [PyStr.contains].
  - rewrite orb_false_r. intros H. apply prefix_cons_inv in H.
    destruct H as (? & ? & _). discriminate.
  - intros H. apply orb_true_iff in H. apply orb_true_iff.
    destruct H as [H|H]; [left|right; auto].
    apply prefix_cons_inv in H. destruct H as (s1 & E1 & H).
    apply prefix_cons_inv in H. destruct H as (s2 & E2 & _).
    rewrite E1, E2. apply prefix_cons_same, prefix_cons_same.
    destruct s2; reflexivity.
Qed.

(** Hence the "not applicable" branch of [heuristic_point] is never
    taken: such a response scores 1.0 or 0.0. *)
Lemma heuristic_not_applicable_scored (section_name response response_lower : string) :
  PyStr.contains "not applicable" response_lower = true ->
  heuristic_point section_name response response_lower = (Some 1%Q, [])
  \/ heuristic_point section_name response response_lower = (Some 0%Q, []).
Proof.
  intros H. apply contains_not_applicable_no in H.
  unfold heuristic_point. rewrite H. cbn [orb].
  destruct (_ || _); auto.
Qed.

Definition one_question_section : Section :=
  mkSection "Data Retention" (WNum 1) None (plain_questions 1).

Definition yes_no_table : AnswerPoints := [("Yes", Some 1%Q); ("No", Some 0%Q)].

(** C5 (the code departs from the claim). The response
    "Not applicable to our organisation" matches no key of the table, yet
    [calculate_section_score] gives it 0.0 points and counts it: the
    section scores 0/1 instead of being unscored. *)
Theorem not_applicable_text_counted_as_zero :
  let responses : gmap string (option string) :=
    <["s0_q0" := Some "Not applicable to our organisation"]> ∅ in
  Dict.get yes_no_table "Not applicable to our organisation" = None
  /\ case_insensitive_match yes_no_table
       (PyStr.lower "Not applicable to our organisation") = None
  /\ PyStr.contains "not applicable"
       (PyStr.lower "Not applicable to our organisation") = true
  /\ resolve_point "Data Retention" yes_no_table
       "Not applicable to our organisation" = (Some 0%Q, [])
  /\ applicable_questions
       (section_score_loop "Data Retention" 0 responses yes_no_table 0
          (sec_questions one_question_section) (mkSectionAcc 0%Q 0 [])) = 1%nat
  /\ calculate_section_score one_question_section responses yes_no_table
     = Some 0%Q.
Proof. vm_compute. repeat split. Qed.

Definition two_question_section : Section :=
  mkSection "Data Retention" (WNum 1) None (plain_questions 2).

Definition somewhat_done_responses : gmap string (option string) :=
  <["s0_q0" := Some "Somewhat done"]> (<["s0_q1" := Some "Yes"]> ∅).

(** C6 (the code departs from the claim). In [calculate_section_score]
    the unresolved response "Somewhat done" is logged and then skipped: it
    is left out of the denominator, so one "Yes" beside it scores 1/1
    rather than 1/2. *)
Theorem unresolved_response_skipped_by_section_score :
  resolve_point "Data Retention" yes_no_table "Somewhat done"
  = (None, [UnableToDeterminePoints "Somewhat done" "Data Retention"])
  /\ section_score_loop "Data Retention" 0 somewhat_done_responses yes_no_table 0
       (sec_questions two_question_section) (mkSectionAcc 0%Q 0 [])
     = mkSectionAcc 1%Q 1
         [UnableToDeterminePoints "Somewhat done" "Data Retention"]
  /\ calculate_section_score two_question_section somewhat_done_responses
       yes_no_table = Some 1%Q.
Proof. vm_compute. repeat split. Qed.

(** The section loop of [calculate_compliance_score] does what C6 says on
    the same input: nothing is added for "Somewhat done", a warning is
    recorded, and the question stays in the denominator. *)
Lemma unresolved_response_counted_inline :
  score_section yes_no_table somewhat_done_responses 0 two_question_section
  = (Some (1 # 2)%Q, [NoPointsAssigned "Somewhat done"]).
Proof. vm_compute. reflexivity. Qed.

(** ** fix_questionnaire_weights *)

Section WeightRepair.

Local Open Scope Q_scope.

Lemma fold_left_Qplus (l : list Q) (a : Q) :
  fold_left Qplus l a == a + Qsum l.
Proof.
  revert a. induction l as [|x l IH]; intros a; simpl.
  - ring.
  - rewrite IH. ring.
Qed.

Lemma py_sum_Qsum (l : list Q) : py_sum l == Qsum l.
Proof. unfold py_sum. rewrite fold_left_Qplus. ring. Qed.

Lemma Qsum_scaled (l : list Q) (W : Q) :
  ~ W == 0 -> Qsum (map (fun w => w / W) l) == Qsum l / W.
Proof.
  intros HW. induction l as [|x l IH]; simpl.
  - field. exact HW.
  - rewrite IH. field. exact HW.
Qed.

Lemma Qsum_positive (l : list Q) :
  l <> [] -> Forall (fun w => 0 < w) l -> 0 < Qsum l.
Proof.
  intros Hne Hall. induction Hall as [|x l Hx Hall IH]; [congruence|].
  simpl. destruct l as [|y l].
  - simpl. lra.
  - assert (0 < Qsum (y :: l)) by (apply IH; discriminate). lra.
Qed.

Lemma Qnat_positive (n : nat) : (0 < n)%nat -> 0 < Qnat n.
Proof.
  intros H. unfold Qnat, Qlt. simpl. lia.
Qed.

Lemma repaired_weight_positive (n : nat) (s : Section) :
  (0 < n)%nat -> 0 < weight_value (default_invalid_weight n s).
Proof.
  intros Hn. unfold default_invalid_weight, weight_is_valid.
  assert (Hd : 0 < 1 / Qnat n).
  { apply Qlt_shift_div_l; [now apply Qnat_positive|]. lra. }
  destruct (sec_weight s) as [| |w] eqn:E; simpl; auto.
  destruct (Qlt_bool 0 w) eqn:Hw; simpl; auto.
  unfold weight_value. rewrite E. now apply Qlt_bool_iff.
Qed.

Lemma repaired_weight_valid (n : nat) (s : Section) :
  weight_is_valid (sec_weight s) = true ->
  weight_value (default_invalid_weight n s) = weight_value s.
Proof.
  intros H. unfold default_invalid_weight. now rewrite H.
Qed.

(** Two sections of weight 0.5 and 0.5078125: the total 1.0078125 is
    not 1.0 but lies inside the tolerance band. *)
Definition near_one_questionnaire : Questionnaire :=
  mkQuestionnaire
    [ mkSection "Notice" (WNum (1 # 2)) None (plain_questions 1);
      mkSection "Consent" (WNum (65 # 128)) None (plain_questions 1) ]
    None.

Definition skewed_questionnaire : Questionnaire :=
  mkQuestionnaire
    [ mkSection "Notice" (WNum 1) None (plain_questions 1);
      mkSection "Consent" (WNum 3) None (plain_questions 1) ]
    None.

End WeightRepair.

(** ** get_questionnaire *)

Section Resolution.

Variable fs : FileSystem.
Variable st : SessionState.

Lemma fallback_section_count (regulation_code industry_code : string) :
  length (fallback_section_names regulation_code industry_code) = 2%nat
  \/ length (fallback_section_names regulation_code industry_code) = 4%nat.
Proof.
  unfold fallback_section_names.
  destruct (String.eqb regulation_code "DPDP"); auto.
  destruct (String.eqb (PyStr.lower industry_code) "e-commerce"); auto.
Qed.

Lemma minimal_questionnaire_shape (section_names : list string) :
  length (q_sections (minimal_questionnaire section_names))
  = length section_names
  /\ Forall (fun s =>
               length (sec_questions s) = 1%nat
               /\ sec_weight s = WNum (1 / Qnat (length section_names))%Q)
            (q_sections (minimal_questionnaire section_names)).
Proof.
  unfold minimal_questionnaire. cbn [q_sections]. split.
  - apply length_map.
  - apply List.Forall_map, List.Forall_forall. intros name _. simpl. auto.
Qed.

Lemma create_fallback_unlocked (regulation_code industry_code : string) :
  ss_locked_questionnaire_type st = None ->
  create_fallback_questionnaire fs st regulation_code industry_code
  = minimal_questionnaire (fallback_section_names regulation_code industry_code).
Proof.
  intros H. unfold create_fallback_questionnaire. rewrite H. reflexivity.
Qed.

(** C2 (amended). Questionnaire resolution never raises: whatever the
    body of its [try] block raises is turned into the empty
    questionnaire [{"sections": []}], and a document that loads is
    returned as it is. When the regulation has no rule-set directory
    the result is that of [create_fallback_questionnaire], which (no
    questionnaire type being locked in the session) is the synthesized
    minimal questionnaire: two or four sections, one sample question
    each, equal weights. *)
Theorem get_questionnaire_never_raises (regulation industry : string) :
  let reg := PyStr.upper (PyStr.strip regulation) in
  let ind := PyStr.lower (PyStr.strip industry) in
  (forall e, get_questionnaire_body fs st regulation industry = Raise e ->
             get_questionnaire fs st regulation industry = empty_questionnaire)
  /\ (forall q, get_questionnaire_body fs st regulation industry = Ok q ->
                get_questionnaire fs st regulation industry = q)
  /\ (dir_exists fs reg = false ->
        get_questionnaire fs st regulation industry
        = create_fallback_questionnaire fs st reg ind)
  /\ (dir_exists fs reg = false ->
      ss_locked_questionnaire_type st = None ->
        let q := get_questionnaire fs st regulation industry in
        q = minimal_questionnaire (fallback_section_names reg ind)
        /\ (length (q_sections q) = 2%nat \/ length (q_sections q) = 4%nat)
        /\ Forall (fun s =>
                     length (sec_questions s) = 1%nat
                     /\ sec_weight s
                        = WNum (1 / Qnat (length (q_sections q)))%Q)
                  (q_sections q)).
Proof.
  intros reg ind.
  assert (Hdir : dir_exists fs reg = false ->
                 get_questionnaire fs st regulation industry
                 = create_fallback_questionnaire fs st reg ind).
  { intros H. unfold get_questionnaire, get_questionnaire_body.
    fold reg. fold ind. rewrite H. reflexivity. }
  repeat split.
  - intros e H. unfold get_questionnaire. now rewrite H.
  - intros q H. unfold get_questionnaire. now rewrite H.
  - exact Hdir.
  - rewrite (Hdir H). now apply create_fallback_unlocked.
  - rewrite (Hdir H), create_fallback_unlocked by assumption.
    destruct (minimal_questionnaire_shape (fallback_section_names reg ind))
      as [-> _].
    apply fallback_section_count.
  - rewrite (Hdir H), create_fallback_unlocked by assumption.
    destruct (minimal_questionnaire_shape (fallback_section_names reg ind))
      as [Hlen Hall].
    rewrite Hlen. exact Hall.
Qed.

(** C8. For regulation "NPC" (up to surrounding blanks and case), when
    the NPC collection holds npc.json, resolution returns the content
    of npc.json (or the empty questionnaire if reading it raises)
    whatever the industry code is. *)
Theorem get_questionnaire_npc_ignores_industry (regulation industry : string) :
  PyStr.upper (PyStr.strip regulation) = "NPC" ->
  dir_exists fs "NPC" = true ->
  file_exists fs "NPC" "npc.json" = true ->
  get_questionnaire fs st regulation industry
  = match read_json fs "NPC" "npc.json" with
    | Ok questionnaire => questionnaire
    | Raise _ => empty_questionnaire
    end
  /\ forall industry',
       get_questionnaire fs st regulation industry'
       = get_questionnaire fs st regulation industry.
Proof.
  intros Hreg Hdir Hfile.
  assert (H : forall i,
             get_questionnaire fs st regulation i
             = match read_json fs "NPC" "npc.json" with
               | Ok questionnaire => questionnaire
               | Raise _ => empty_questionnaire
               end).
  { intros i. unfold get_questionnaire, get_questionnaire_body.
    rewrite Hreg, Hdir. cbn [negb].
    unfold resolve_file. cbn [String.eqb Ascii.eqb Bool.eqb].
    rewrite Hfile. reflexivity. }
  split; [apply H|]. intros i. now rewrite !H.
Qed.

End Resolution.

(** A store in which the DPDP directory exists but holds no document. *)
Definition empty_dpdp_store : FileSystem :=
  mkFileSystem (fun d => String.eqb d "DPDP")
               (fun _ _ => false)
               (fun _ => Ok [])
               (fun _ _ => Raise OSError).

Definition fresh_session : SessionState :=
  mkSessionState (Some ∅) None ("DPDP", "retail").

(** With the regulation directory present and neither the requested nor
    the default document in it, opening the file raises and resolution
    returns the empty questionnaire: no section at all. *)
Lemma get_questionnaire_empty_on_load_failure :
  get_questionnaire empty_dpdp_store fresh_session "DPDP" "Retail"
  = empty_questionnaire
  /\ ~ (1 <= length (q_sections
                       (get_questionnaire empty_dpdp_store fresh_session
                          "DPDP" "Retail")))%nat.
Proof.
  split; [reflexivity|]. vm_compute. lia.
Qed.

(** A store without any rule-set directory. *)
Definition no_store : FileSystem :=
  mkFileSystem (fun _ => false) (fun _ _ => false)
               (fun _ => Raise OSError) (fun _ _ => Raise OSError).

Lemma get_questionnaire_never_raises_witness :
  length (q_sections (get_questionnaire no_store fresh_session "dpdp" "Retail"))
  = 2%nat
  \/ length (q_sections (get_questionnaire no_store fresh_session "dpdp" "Retail"))
     = 4%nat.
Proof.
  destruct (get_questionnaire_never_raises no_store fresh_session "dpdp" "Retail")
    as (_ & _ & _ & H).
  destruct H as (_ & Hlen & _); [reflexivity|reflexivity|exact Hlen].
Defined.

(** A store whose NPC collection holds npc.json. *)
Definition npc_document : Questionnaire :=
  mkQuestionnaire
    [ mkSection "Data Management Strategy" (WNum 1) None (plain_questions 2) ]
    None.

Definition npc_store : FileSystem :=
  mkFileSystem (fun d => String.eqb d "NPC")
               (fun d f => String.eqb d "NPC" && String.eqb f "npc.json")
               (fun _ => Ok ["npc.json"])
               (fun d f =>
                  if String.eqb d "NPC" && String.eqb f "npc.json"
                  then Ok npc_document else Raise OSError).

Lemma get_questionnaire_npc_ignores_industry_witness :
  get_questionnaire npc_store fresh_session " npc " "Banking and finance"
  = npc_document.
Proof.
  apply (get_questionnaire_npc_ignores_industry npc_store fresh_session
           " npc " "Banking and finance"); reflexivity.
Defined.

(** ** The aggregate scorer and unanswered sections *)

Section Aggregate.

Local Open Scope Q_scope.

Variable answer_points : AnswerPoints.
Variable responses : gmap string (option string).

(** No question of the section has a non-null response. *)
Definition unanswered (s_idx : nat) (section : Section) : Prop :=
  forall q_idx, (q_idx < length (sec_questions section))%nat ->
    responses !! response_key s_idx q_idx = None
    \/ responses !! response_key s_idx q_idx = Some None.

(** Every question of the section has a response that is a key of the
    table worth 1.0. *)
Definition answered_all_ones (s_idx : nat) (section : Section) : Prop :=
  sec_questions section <> []
  /\ forall q_idx, (q_idx < length (sec_questions section))%nat ->
       exists r p,
         responses !! response_key s_idx q_idx = Some (Some r)
         /\ Dict.get answer_points r = Some (Some p)
         /\ p == 1.

Lemma inline_loop_unanswered (s_idx : nat) (questions : list Question) :
  forall q_idx acc,
    (forall j, (j < length questions)%nat ->
       responses !! response_key s_idx (q_idx + j) = None
       \/ responses !! response_key s_idx (q_idx + j) = Some None) ->
    inline_loop answer_points responses s_idx q_idx questions acc = acc.
Proof.
  induction questions as [|q qs IH]; intros q_idx acc H; simpl; [reflexivity|].
  assert (Hrest : forall j, (j < length qs)%nat ->
            responses !! response_key s_idx (S q_idx + j) = None
            \/ responses !! response_key s_idx (S q_idx + j) = Some None).
  { intros j Hj. replace (S q_idx + j)%nat with (q_idx + S j)%nat by lia.
    apply H. simpl. lia. }
  destruct (H 0%nat) as [H0|H0]; [simpl; lia| |];
    rewrite Nat.add_0_r in H0; rewrite H0; cbn [score_response];
    apply IH; exact Hrest.
Qed.

Lemma score_section_unanswered (s_idx : nat) (section : Section) :
  unanswered s_idx section ->
  fst (score_section answer_points responses s_idx section) = None.
Proof.
  intros H. unfold score_section.
  rewrite inline_loop_unanswered by (intros j Hj; apply H; exact Hj).
  reflexivity.
Qed.

Lemma Qnat_succ (n : nat) : Qnat (S n) == Qnat n + 1.
Proof.
  unfold Qnat. rewrite Nat2Z.inj_succ, <- Z.add_1_r, inject_Z_plus.
  reflexivity.
Qed.

Lemma inline_loop_all_ones (s_idx : nat) (questions : list Question) :
  forall q_idx acc,
    (forall j, (j < length questions)%nat ->
       exists r p,
         responses !! response_key s_idx (q_idx + j) = Some (Some r)
         /\ Dict.get answer_points r = Some (Some p)
         /\ p == 1) ->
    exists rs,
      length rs = length questions
      /\ section_responses
           (inline_loop answer_points responses s_idx q_idx questions acc)
         = section_responses acc ++ rs
      /\ total_points
           (inline_loop answer_points responses s_idx q_idx questions acc)
         == total_points acc + Qnat (length questions).
Proof.
  induction questions as [|q qs IH]; intros q_idx acc H.
  - exists []. simpl. rewrite app_nil_r. repeat split. unfold Qnat. simpl. ring.
  - destruct (H 0%nat) as (r & p & Hr & Hp & Hone); [simpl; lia|].
    rewrite Nat.add_0_r in Hr.
    cbn [inline_loop]. rewrite Hr. unfold score_response. rewrite Hp.
    edestruct IH as (rs & Hlen & Hresp & Htot).
    { intros j Hj. replace (S q_idx + j)%nat with (q_idx + S j)%nat by lia.
      apply H. simpl. lia. }
    exists (r :: rs). split; [simpl; lia|]. split.
    + rewrite Hresp. cbn [section_responses]. rewrite <- app_assoc. reflexivity.
    + rewrite Htot. cbn [total_points length]. rewrite Qnat_succ, Hone. ring.
Qed.

Lemma verify_section_score_at_one (section_name : string) (raw : Q)
    (rs : list string) :
  rs <> [] -> raw == 1 ->
  verify_section_score section_name (Some raw) rs answer_points = Ok (raw, []).
Proof.
  intros Hne Hraw.
  assert (Hlt : Qlt_bool raw 1 = false).
  { apply Qlt_bool_false_iff. rewrite Hraw. apply Qle_refl. }
  unfold verify_section_score. destruct rs as [|r rs]; [congruence|].
  destruct (String.eqb section_name "Data Collection and Processing");
    cbn [py_lt mbind pyresult_bind]; rewrite Hlt, ?andb_false_r;
    reflexivity.
Qed.

Lemma score_section_all_ones (s_idx : nat) (section : Section) :
  answered_all_ones s_idx section ->
  exists v, fst (score_section answer_points responses s_idx section) = Some v
            /\ v == 1.
Proof.
  intros [Hne H]. unfold score_section.
  destruct (inline_loop_all_ones s_idx (sec_questions section) 0
              (mkInlineAcc 0 [] [])) as (rs & Hlen & Hresp & Htot).
  { intros j Hj. apply H. exact Hj. }
  set (acc := inline_loop _ _ _ _ _ _) in *.
  cbn [section_responses total_points app] in Hresp, Htot.
  assert (Hpos : (0 < length (sec_questions section))%nat).
  { destruct (sec_questions section); [congruence|simpl; lia]. }
  assert (Hrs : rs <> []).
  { intros ->. simpl in Hlen. lia. }
  assert (Hraw : total_points acc / Qnat (length (sec_questions section)) == 1).
  { rewrite Htot. field. apply Qnat_positive in Hpos. lra. }
  unfold inline_raw_score. rewrite Hresp.
  apply Nat.ltb_lt in Hpos. rewrite Hpos.
  destruct rs as [|r0 rs0]; [congruence|]. cbn [nonempty andb].
  rewrite verify_section_score_at_one by (auto; discriminate).
  eexists. split; [reflexivity|exact Hraw].
Qed.

(** *** The score table *)

Lemma section_scores_loop_other (sections : list Section) :
  forall s_idx scores lg name,
    ~ In name (map sec_name sections) ->
    Dict.get (fst (section_scores_loop answer_points responses s_idx
                     sections scores lg)) name
    = Dict.get scores name.
Proof.
  induction sections as [|s ss IH]; intros s_idx scores lg name Hnot;
    cbn [section_scores_loop]; [reflexivity|].
  destruct (score_section answer_points responses s_idx s) as [score lg'].
  rewrite IH.
  - apply DictFacts.get_set_ne. intros E. apply Hnot. left. exact E.
  - intros Hin. apply Hnot. right. exact Hin.
Qed.

Lemma section_scores_loop_get (sections : list Section) :
  forall s_idx scores lg i s,
    List.NoDup (map sec_name sections) ->
    sections !! i = Some s ->
    Dict.get (fst (section_scores_loop answer_points responses s_idx
                     sections scores lg)) (sec_name s)
    = Some (fst (score_section answer_points responses (s_idx + i) s)).
Proof.
  induction sections as [|s0 ss IH]; intros s_idx scores lg i s Hnd Hi;
    [discriminate|].
  cbn [section_scores_loop]. cbn [map] in Hnd.
  apply List.NoDup_cons_iff in Hnd. destruct Hnd as [Hnot Hnd].
  destruct i as [|i]; cbn in Hi.
  - injection Hi as ->. rewrite Nat.add_0_r.
    destruct (score_section answer_points responses s_idx s) as [score lg'].
    rewrite section_scores_loop_other by exact Hnot.
    apply DictFacts.get_set_eq.
  - destruct (score_section answer_points responses s_idx s0) as [score lg'].
    replace (s_idx + S i)%nat with (S s_idx + i)%nat by lia.
    apply IH; assumption.
Qed.

(** The table [calculate_compliance_score] builds for a list of
    sections. *)
Definition compute_section_scores (sections : list Section)
    : Dict.t (option Q) :=
  fst (section_scores_loop answer_points responses 0 sections []
         (unknown_response_warnings answer_points responses)).

Lemma compute_section_scores_get (sections : list Section) i s :
  List.NoDup (map sec_name sections) ->
  sections !! i = Some s ->
  get_score (compute_section_scores sections) (sec_name s)
  = fst (score_section answer_points responses i s).
Proof.
  intros Hnd Hi. unfold get_score, compute_section_scores.
  erewrite section_scores_loop_get by eassumption. reflexivity.
Qed.

(** *** The weighted loop *)


Definition usable_weight (section : Section) : Prop :=
  match sec_weight section with
  | WNum w => 0 < w
  | WAbsent => True
  | WOther => False
  end.

Lemma weighted_loop_all_ones (n : nat) (scores : Dict.t (option Q))
    (sections : list Section) :
  (0 < n)%nat ->
  (forall s, In s sections ->
     usable_weight s
     /\ forall v, get_score scores (sec_name s) = Some v -> v == 1) ->
  forall acc,
    fst acc == snd acc -> 0 <= snd acc ->
    exists acc',
      weighted_loop n scores sections acc = Ok acc'
      /\ fst acc' == snd acc'
      /\ snd acc <= snd acc'
      /\ ((exists s, In s sections /\ get_score scores (sec_name s) <> None) ->
          snd acc < snd acc').
Proof.
  intros Hn. induction sections as [|s ss IH]; intros Hall acc Heq Hnn.
  - exists acc. cbn. repeat split; auto using Qle_refl.
    intros (s & [] & _).
  - assert (Hss : forall s', In s' ss ->
              usable_weight s'
              /\ forall v, get_score scores (sec_name s') = Some v -> v == 1).
    { intros s' Hin. apply Hall. right. exact Hin. }
    destruct (Hall s (or_introl eq_refl)) as [Hw Hv].
    cbn [weighted_loop].
    destruct (get_score scores (sec_name s)) as [v|] eqn:Hget.
    + assert (Hdef : 0 < 1 / Qnat n).
      { apply Qlt_shift_div_l; [now apply Qnat_positive|]. lra. }
      specialize (Hv v eq_refl).
      assert (Hstep : exists w, 0 < w
                /\ (section_weight ←
                      match sec_weight s with
                      | WNum w => Ok w
                      | WAbsent => Ok (1 / Qnat n)
                      | WOther => Raise TypeError
                      end;
                    weighted_loop n scores ss
                      (fst acc + v * section_weight, snd acc + section_weight))
                   = weighted_loop n scores ss
                       (fst acc + v * w, snd acc + w)).
      { unfold usable_weight in Hw.
        destruct (sec_weight s) as [| |w]; [eexists; split; [exact Hdef|reflexivity]
                                           |contradiction
                                           |eexists; split; [exact Hw|reflexivity]]. }
      destruct Hstep as (w & Hwpos & ->).
      destruct (IH Hss (fst acc + v * w, snd acc + w)) as (acc' & Hrun & Heq' & Hle & _).
      { cbn [fst snd]. rewrite Hv, Heq. ring. }
      { cbn [fst snd]. lra. }
      exists acc'. cbn [fst snd] in Hle.
      split; [exact Hrun|]. split; [exact Heq'|]. split; [lra|].
      intros _. lra.
    + destruct (IH Hss acc Heq Hnn) as (acc' & Hrun & Heq' & Hle & Hstrict).
      exists acc'.
      split; [exact Hrun|]. split; [exact Heq'|]. split; [exact Hle|].
      intros (s' & [<-|Hin] & Hs'); [congruence|].
      apply Hstrict. eauto.
Qed.

(** *** The recommendation pass *)

Lemma question_recommendations_ok (s_idx : nat) (questions : list Question) :
  forall q_idx recs,
    (forall j, (j < length questions)%nat ->
       exists r, responses !! response_key s_idx (q_idx + j) = Some (Some r)) ->
    exists out,
      question_recommendations responses s_idx q_idx questions recs = Ok out.
Proof.
  induction questions as [|q qs IH]; intros q_idx recs H;
    cbn [question_recommendations]; [eauto|].
  destruct (H 0%nat) as (r & Hr); [simpl; lia|]. rewrite Nat.add_0_r in Hr.
  rewrite Hr.
  assert (Hrest : forall j, (j < length qs)%nat ->
            exists r', responses !! response_key s_idx (S q_idx + j)
                       = Some (Some r')).
  { intros j Hj. replace (S q_idx + j)%nat with (q_idx + S j)%nat by lia.
    apply H. simpl. lia. }
  destruct q as [text|id text options [table|]]; cbn [mbind pyresult_bind];
    try (apply IH; exact Hrest).
  destruct (Dict.get table r); cbn [mbind pyresult_bind]; apply IH; exact Hrest.
Qed.

Lemma recommendations_loop_ok (scores : Dict.t (option Q))
    (sections : list Section) :
  forall s_idx recs,
    (forall i s, sections !! i = Some s ->
       get_score scores (sec_name s) <> None ->
       forall j, (j < length (sec_questions s))%nat ->
         exists r, responses !! response_key (s_idx + i) j = Some (Some r)) ->
    exists out,
      recommendations_loop responses scores s_idx sections recs = Ok out.
Proof.
  induction sections as [|s ss IH]; intros s_idx recs H;
    cbn [recommendations_loop]; [eauto|].
  assert (Hrest : forall i s', ss !! i = Some s' ->
            get_score scores (sec_name s') <> None ->
            forall j, (j < length (sec_questions s'))%nat ->
              exists r, responses !! response_key (S s_idx + i) j
                        = Some (Some r)).
  { intros i s' Hi Hs' j Hj.
    replace (S s_idx + i)%nat with (s_idx + S i)%nat by lia.
    apply (H (S i) s'); auto. }
  destruct (get_score scores (sec_name s)) as [score|] eqn:Hget;
    [|apply IH; exact Hrest].
  destruct (question_recommendations_ok s_idx (sec_questions s) 0 [])
    as (out & ->).
  { intros j Hj. cbn [Nat.add].
    specialize (H 0%nat s eq_refl). rewrite Nat.add_0_r in H.
    apply H; [congruence|exact Hj]. }
  cbn [mbind pyresult_bind]. apply IH. exact Hrest.
Qed.

End Aggregate.

Lemma overall_of_equal_totals (totals : Q * Q) :
  (fst totals == snd totals)%Q -> (0 < snd totals)%Q ->
  (overall_of totals == 100)%Q.
Proof.
  intros Heq Hpos. unfold overall_of.
  apply Qlt_bool_iff in Hpos as Hb. rewrite Hb, Heq.
  field. lra.
Qed.


(** Scenario 2: the first section is not answered at all, the second is
    answered "Yes" throughout. *)
Definition scenario2_questionnaire : Questionnaire :=
  mkQuestionnaire
    [ mkSection "Notice" (WNum (1 # 2)) None (plain_questions 2);
      mkSection "Consent" (WNum (1 # 2)) None (plain_questions 2) ]
    None.

Definition scenario2_responses : gmap string (option string) :=
  <["s1_q0" := Some "Yes"]> (<["s1_q1" := Some "Yes"]> ∅).


(** * Further properties of the scoring engine *)

(** ** get_compliance_level *)

Lemma sorted_desc_COMPLIANCE_LEVELS :
  sorted_desc COMPLIANCE_LEVELS = COMPLIANCE_LEVELS.
Proof. reflexivity. Qed.

(** The four labels partition the scores at 0.85, 0.70 and 0.50, each
    threshold belonging to the higher band; a negative score falls
    through the table to "Non-Compliant". *)
Theorem get_compliance_level_bands (score : Q) :
  (get_compliance_level score = "Highly Compliant" <-> (85 # 100 <= score)%Q)
  /\ (get_compliance_level score = "Substantially Compliant"
      <-> (70 # 100 <= score /\ score < 85 # 100)%Q)
  /\ (get_compliance_level score = "Partially Compliant"
      <-> (50 # 100 <= score /\ score < 70 # 100)%Q)
  /\ (get_compliance_level score = "Non-Compliant" <-> (score < 50 # 100)%Q).
Proof.
  unfold get_compliance_level. rewrite sorted_desc_COMPLIANCE_LEVELS.
  unfold COMPLIANCE_LEVELS. cbn [first_level].
  destruct (Qle_bool (85 # 100) score) eqn:H85;
    [apply Qle_bool_iff in H85
    |assert (H85' : (score < 85 # 100)%Q)
       by (apply Qlt_bool_iff; unfold Qlt_bool; now rewrite H85)].
  { repeat split; intros; try discriminate; auto; lra. }
  destruct (Qle_bool (70 # 100) score) eqn:H70;
    [apply Qle_bool_iff in H70
    |assert (H70' : (score < 70 # 100)%Q)
       by (apply Qlt_bool_iff; unfold Qlt_bool; now rewrite H70)].
  { repeat split; intros; try discriminate; auto; lra. }
  destruct (Qle_bool (50 # 100) score) eqn:H50;
    [apply Qle_bool_iff in H50
    |assert (H50' : (score < 50 # 100)%Q)
       by (apply Qlt_bool_iff; unfold Qlt_bool; now rewrite H50)].
  { repeat split; intros; try discriminate; auto; lra. }
  assert (Hlast : (if Qle_bool 0 score then "Non-Compliant" else "Non-Compliant")
                  = "Non-Compliant") by (destruct (Qle_bool 0 score); reflexivity).
  rewrite Hlast.
  repeat split; intros; try discriminate; auto; lra.
Qed.

(** ** fix_known_scoring_issues, again *)

(** Applying the fix a second time changes nothing. *)
Theorem fix_known_scoring_issues_idempotent (answer_points : AnswerPoints) :
  fix_known_scoring_issues (fix_known_scoring_issues answer_points)
  = fix_known_scoring_issues answer_points.
Proof.
  destruct (Dict.get answer_points notices_key) as [[v|]|] eqn:Hget.
  - destruct (Qeq_bool v 0) eqn:Hz.
    + assert (E : fix_known_scoring_issues answer_points
                  = Dict.set answer_points notices_key (Some 1%Q))
        by (unfold fix_known_scoring_issues; now rewrite Hget, Hz).
      rewrite E. unfold fix_known_scoring_issues.
      rewrite DictFacts.get_set_eq. reflexivity.
    + assert (E : fix_known_scoring_issues answer_points = answer_points)
        by (unfold fix_known_scoring_issues; now rewrite Hget, Hz).
      rewrite E. exact E.
  - assert (E : fix_known_scoring_issues answer_points = answer_points)
      by (unfold fix_known_scoring_issues; now rewrite Hget).
    rewrite E. exact E.
  - assert (E : fix_known_scoring_issues answer_points = answer_points)
      by (unfold fix_known_scoring_issues; now rewrite Hget).
    rewrite E. exact E.
Qed.

(** ** should_have_perfect_score *)

Lemma filter_length_le {A} (f : A -> bool) (l : list A) :
  (length (List.filter f l) <= length l)%nat.
Proof.
  induction l as [|a l IH]; simpl; [lia|].
  destruct (f a); simpl; lia.
Qed.

Lemma filter_length_all {A} (f : A -> bool) (l : list A) :
  length (List.filter f l) = length l <-> forallb f l = true.
Proof.
  induction l as [|a l IH]; simpl; [tauto|].
  pose proof (filter_length_le f l).
  destruct (f a); simpl.
  - rewrite <- IH. lia.
  - split; [lia|discriminate].
Qed.

Definition matches_full_compliance (response : string) : bool :=
  existsb (fun pattern => PyStr.contains pattern (PyStr.lower response))
          full_compliance_patterns.

(** The counting loop answers [True] exactly when there is at least one
    response and every response contains one of the patterns, case
    ignored; the section name plays no part. *)
Theorem should_have_perfect_score_all (section_name : string)
    (responses : list string) :
  should_have_perfect_score section_name responses = true
  <-> responses <> []
      /\ Forall (fun r => matches_full_compliance r = true) responses.
Proof.
  unfold should_have_perfect_score.
  destruct responses as [|r rs].
  - split; [discriminate|intros [H _]; congruence].
  - rewrite Nat.eqb_eq.
    fold (matches_full_compliance).
    change (fun response : string =>
              existsb (fun pattern => PyStr.contains pattern (PyStr.lower response))
                      full_compliance_patterns)
      with matches_full_compliance.
    rewrite filter_length_all, forallb_forall, List.Forall_forall.
    split; [intros H; split; [discriminate|exact H]|intros [_ H]; exact H].
Qed.

(** ** verify_section_score, again *)

(** A raw score in [0, 1] stays in [0, 1], the pass returns either 1.0
    or the raw score, and running the pass on its own result returns
    that result unchanged. *)
Theorem verify_section_score_range_idempotent (section_name : string)
    (raw : Q) (responses : list string) (answer_points : AnswerPoints) :
  (0 <= raw)%Q -> (raw <= 1)%Q ->
  exists corrected lg lg',
    verify_section_score section_name (Some raw) responses answer_points
    = Ok (corrected, lg)
    /\ (0 <= corrected)%Q /\ (corrected <= 1)%Q
    /\ (corrected = 1%Q \/ corrected = raw)
    /\ verify_section_score section_name (Some corrected) responses answer_points
       = Ok (corrected, lg').
Proof.
  intros H0 H1.
  assert (Hone : Qlt_bool 1 1 = false) by reflexivity.
  unfold verify_section_score.
  destruct responses as [|r rs].
  - do 3 eexists. split; [reflexivity|]. repeat split; auto.
  - destruct (String.eqb section_name "Data Collection and Processing");
      cbn [py_lt mbind pyresult_bind];
      destruct (Qlt_bool raw 1) eqn:Hlt; rewrite ?andb_false_r; cbn [andb];
      destruct (all_responses_one answer_points (r :: rs)) eqn:Hall;
      destruct (should_have_perfect_score section_name (r :: rs)) eqn:Hpat;
      destruct (Qle_bool (95 # 100) raw) eqn:H95; cbn [andb];
      do 3 eexists;
      (split; [reflexivity|]);
      (split; [first [exact H0|discriminate]|]);
      (split; [first [exact H1|discriminate]|]);
      (split; [first [left; reflexivity|right; reflexivity]|]);
      rewrite ?Hone, ?Hlt, ?H95, ?andb_false_r; cbn [andb]; reflexivity.
Qed.

Lemma verify_section_score_range_idempotent_witness :
  exists corrected lg lg',
    verify_section_score "Security" (Some (97 # 100)%Q) ["Mostly"] yes_no_table
    = Ok (corrected, lg)
    /\ (0 <= corrected)%Q /\ (corrected <= 1)%Q
    /\ (corrected = 1%Q \/ corrected = (97 # 100)%Q)
    /\ verify_section_score "Security" (Some corrected) ["Mostly"] yes_no_table
       = Ok (corrected, lg').
Proof.
  apply (verify_section_score_range_idempotent "Security" (97 # 100)
           ["Mostly"] yes_no_table); discriminate.
Defined.

(** With at least one response, a raw score in [0.95, 1.0) is rounded up
    to 1.0 under every section name; with no response the guard returns
    the raw score untouched. *)
Theorem verify_section_score_rounds_up (section_name : string) (raw : Q)
    (responses : list string) (answer_points : AnswerPoints) :
  (95 # 100 <= raw)%Q -> (raw < 1)%Q ->
  (responses <> [] ->
     exists lg,
       verify_section_score section_name (Some raw) responses answer_points
       = Ok (1%Q, lg))
  /\ verify_section_score section_name (Some raw) [] answer_points
     = Ok (raw, [EmptyResponses section_name]).
Proof.
  intros H95 Hlt. apply Qle_bool_iff in H95. apply Qlt_bool_iff in Hlt.
  split; [|reflexivity].
  intros Hne. unfold verify_section_score.
  destruct responses as [|r rs]; [congruence|].
  destruct (String.eqb section_name "Data Collection and Processing");
    cbn [py_lt mbind pyresult_bind]; rewrite Hlt, ?H95; cbn [andb];
    repeat match goal with
           | |- context [if ?b then _ else _] => destruct b
           end; eexists; reflexivity.
Qed.

Lemma verify_section_score_rounds_up_witness :
  exists lg,
    verify_section_score "Security" (Some (31 # 32)%Q) ["Mostly"] yes_no_table
    = Ok (1%Q, lg).
Proof.
  apply (verify_section_score_rounds_up "Security" (31 # 32) ["Mostly"]
           yes_no_table); [discriminate|reflexivity|discriminate].
Defined.

Lemma verify_section_score_numeric_ok (section_name : string) (raw : Q)
    (responses : list string) (answer_points : AnswerPoints) :
  exists verified lg,
    verify_section_score section_name (Some raw) responses answer_points
    = Ok (verified, lg).
Proof.
  unfold verify_section_score.
  destruct responses as [|r rs]; [eauto|].
  destruct (String.eqb section_name "Data Collection and Processing");
    cbn [py_lt mbind pyresult_bind];
    repeat match goal with
           | |- context [if ?b then _ else _] => destruct b
           end; eauto.
Qed.

(** A missing raw score is only accepted together with an empty response
    list (the result is then 0.0); with responses the first comparison
    raises [TypeError]. The section loop of [calculate_compliance_score]
    never meets that case: the raw score it passes is [None] only when
    the response list is empty, so its call always returns and the
    [except] clause is not reached. *)
Theorem verify_section_score_missing_raw (section_name : string)
    (responses : list string) (answer_points : AnswerPoints)
    (stored : gmap string (option string)) (s_idx : nat) (section : Section) :
  verify_section_score section_name None [] answer_points
  = Ok (0%Q, [EmptyResponses section_name])
  /\ (responses <> [] ->
      verify_section_score section_name None responses answer_points
      = Raise TypeError)
  /\ (let acc := inline_loop answer_points stored s_idx 0
                   (sec_questions section) (mkInlineAcc 0%Q [] []) in
      exists verified lg,
        verify_section_score (sec_name section)
          (inline_raw_score acc (length (sec_questions section)))
          (section_responses acc) answer_points = Ok (verified, lg)).
Proof.
  split; [reflexivity|]. split.
  - intros Hne. unfold verify_section_score.
    destruct responses as [|r rs]; [congruence|].
    destruct (String.eqb section_name "Data Collection and Processing");
      reflexivity.
  - intros acc. unfold inline_raw_score.
    destruct (section_responses acc) as [|r rs] eqn:Hresp.
    + rewrite andb_false_r. do 2 eexists. reflexivity.
    + destruct (sec_questions section) as [|q qs] eqn:Hq.
      * subst acc. cbn in Hresp. discriminate.
      * cbn [length Nat.ltb Nat.leb nonempty andb].
        apply verify_section_score_numeric_ok.
Qed.

Lemma verify_section_score_missing_raw_witness :
  verify_section_score "Security" None ["Yes"] yes_no_table = Raise TypeError.
Proof.
  apply (verify_section_score_missing_raw "Security" ["Yes"] yes_no_table
           ∅ 0 one_question_section). discriminate.
Defined.

(** ** Priorities and generic recommendations *)

(** The priority of a score is "high" below 0.6, "medium" from 0.6 up to
    0.75 and "low" from 0.75 on; generic recommendations are synthesized
    (two of them) exactly for the scores whose priority is not "low". *)
Theorem priority_matches_generic_recommendations (section_name : string)
    (score : Q) :
  (get_recommendation_priority score = "high" <-> (score < 6 # 10)%Q)
  /\ (get_recommendation_priority score = "low" <-> (75 # 100 <= score)%Q)
  /\ (generic_recommendations section_name score = []
      <-> get_recommendation_priority score = "low")
  /\ (get_recommendation_priority score <> "low" ->
      length (generic_recommendations section_name score) = 2%nat).
Proof.
  unfold get_recommendation_priority, generic_recommendations.
  destruct (Qlt_bool score (6 # 10)) eqn:H6.
  - apply Qlt_bool_iff in H6.
    repeat split; intros; try discriminate; auto; lra.
  - apply Qlt_bool_false_iff in H6.
    destruct (Qlt_bool score (75 # 100)) eqn:H75.
    + apply Qlt_bool_iff in H75.
      repeat split; intros; try discriminate; auto; lra.
    + apply Qlt_bool_false_iff in H75.
      repeat split; intros; try discriminate; auto; try lra; congruence.
Qed.

(** ** Bounds of the section scores *)

Section ScoreBounds.

Local Open Scope Q_scope.

(** Every numeric point value of the table lies in [0, 1]. *)
Definition points_in_unit (answer_points : AnswerPoints) : Prop :=
  Forall (fun entry =>
            match snd entry with
            | Some p => 0 <= p /\ p <= 1
            | None => True
            end) answer_points.

Lemma points_in_unit_get (answer_points : AnswerPoints) (r : string) (p : Q) :
  points_in_unit answer_points ->
  Dict.get answer_points r = Some (Some p) -> 0 <= p /\ p <= 1.
Proof.
  unfold points_in_unit. intros Hall.
  induction Hall as [|[k v] rest Hkv Hall IH]; simpl; [discriminate|].
  destruct (String.eqb k r); [|exact IH].
  intros H. injection H as ->. exact Hkv.
Qed.

Lemma points_in_unit_set (answer_points : AnswerPoints) (k : string) (p : Q) :
  points_in_unit answer_points -> 0 <= p /\ p <= 1 ->
  points_in_unit (Dict.set answer_points k (Some p)).
Proof.
  unfold points_in_unit. intros Hall Hp.
  induction Hall as [|[k' v] rest Hkv Hall IH]; simpl.
  - constructor; [exact Hp|constructor].
  - destruct (String.eqb k' k); constructor; auto.
Qed.

Lemma points_in_unit_default : points_in_unit default_answer_points.
Proof.
  unfold points_in_unit, default_answer_points.
  repeat constructor; simpl; try discriminate.
Qed.

Lemma points_in_unit_fix (answer_points : AnswerPoints) :
  points_in_unit answer_points ->
  points_in_unit (fix_known_scoring_issues answer_points).
Proof.
  intros H. unfold fix_known_scoring_issues.
  destruct (Dict.get answer_points notices_key) as [[v|]|]; auto.
  destruct (Qeq_bool v 0); auto.
  apply points_in_unit_set; [exact H|]. split; discriminate.
Qed.

Lemma points_in_unit_effective (questionnaire : Questionnaire) :
  (forall table, q_answer_points questionnaire = Some table ->
                 points_in_unit table) ->
  points_in_unit (effective_answer_points questionnaire).
Proof.
  intros H. unfold effective_answer_points. apply points_in_unit_fix.
  destruct (q_answer_points questionnaire) as [[|entry table]|];
    try apply points_in_unit_default.
  now apply H.
Qed.

Lemma Qnat_nonneg (n : nat) : 0 <= Qnat n.
Proof. unfold Qnat, Qle. simpl. lia. Qed.

Lemma Qnat_le (n m : nat) : (n <= m)%nat -> Qnat n <= Qnat m.
Proof. intros H. unfold Qnat, Qle. simpl. lia. Qed.

Lemma case_insensitive_match_in_unit (answer_points : AnswerPoints)
    (response_lower : string) (p : Q) :
  points_in_unit answer_points ->
  case_insensitive_match answer_points response_lower = Some (Some p) ->
  0 <= p /\ p <= 1.
Proof.
  unfold points_in_unit. intros Hall.
  induction Hall as [|[k v] rest Hkv Hall IH]; simpl; [discriminate|].
  destruct (String.eqb (PyStr.lower k) response_lower); [|exact IH].
  intros H. injection H as ->. exact Hkv.
Qed.

Lemma verify_section_score_in_unit (section_name : string) (raw : Q)
    (responses : list string) (answer_points : AnswerPoints) :
  0 <= raw -> raw <= 1 ->
  exists verified lg,
    verify_section_score section_name (Some raw) responses answer_points
    = Ok (verified, lg)
    /\ 0 <= verified /\ verified <= 1.
Proof.
  intros H0 H1. unfold verify_section_score.
  destruct responses as [|r rs]; [eauto 6|].
  destruct (String.eqb section_name "Data Collection and Processing");
    cbn [py_lt mbind pyresult_bind];
    repeat match goal with
           | |- context [if ?b then _ else _] => destruct b
           end;
    do 2 eexists; (split; [reflexivity|]); split;
      first [assumption|discriminate].
Qed.

Variable answer_points : AnswerPoints.
Variable responses : gmap string (option string).
Hypothesis Hunit : points_in_unit answer_points.

(** *** The section loop of calculate_compliance_score *)

Lemma score_response_bounds (response : option string) (acc : InlineAcc) :
  0 <= total_points acc ->
  total_points acc <= Qnat (length (section_responses acc)) ->
  let acc' := score_response answer_points response acc in
  0 <= total_points acc'
  /\ total_points acc' <= Qnat (length (section_responses acc'))
  /\ (length (section_responses acc') <= S (length (section_responses acc)))%nat.
Proof.
  intros H0 H1. unfold score_response.
  destruct response as [r|]; [|cbn; repeat split; auto].
  assert (Hlen : Qnat (length (section_responses acc ++ [r]))
                 == Qnat (length (section_responses acc)) + 1).
  { rewrite length_app. cbn [length]. rewrite Nat.add_1_r. apply Qnat_succ. }
  assert (Hlen' : (length (section_responses acc ++ [r])
                   <= S (length (section_responses acc)))%nat).
  { rewrite length_app. cbn [length]. lia. }
  destruct (Dict.get answer_points r) as [[p|]|] eqn:Hget;
    cbn [total_points section_responses]; rewrite Hlen.
  - destruct (points_in_unit_get _ _ _ Hunit Hget). repeat split; auto; lra.
  - repeat split; auto; lra.
  - repeat split; auto; lra.
Qed.

Lemma inline_loop_bounds (s_idx : nat) (questions : list Question) :
  forall q_idx acc,
    0 <= total_points acc ->
    total_points acc <= Qnat (length (section_responses acc)) ->
    let acc' := inline_loop answer_points responses s_idx q_idx questions acc in
    0 <= total_points acc'
    /\ total_points acc' <= Qnat (length (section_responses acc'))
    /\ (length (section_responses acc')
        <= length (section_responses acc) + length questions)%nat.
Proof.
  induction questions as [|q qs IH]; intros q_idx acc H0 H1.
  - cbn. repeat split; auto. lia.
  - cbn [inline_loop length].
    destruct (responses !! response_key s_idx q_idx) as [response|].
    + destruct (score_response_bounds response acc H0 H1) as (A & B & C).
      destruct (IH (S q_idx) _ A B) as (A' & B' & C').
      repeat split; auto. lia.
    + destruct (IH (S q_idx) acc H0 H1) as (A' & B' & C').
      repeat split; auto. lia.
Qed.

(** The score stored for a section lies in [0, 1] when the point values
    of the table do: the points collected never exceed the number of
    responses, which never exceeds the number of questions. *)
Lemma score_section_in_unit (s_idx : nat) (section : Section) (score : Q) :
  fst (score_section answer_points responses s_idx section) = Some score ->
  0 <= score /\ score <= 1.
Proof.
  unfold score_section.
  destruct (inline_loop_bounds s_idx (sec_questions section) 0
              (mkInlineAcc 0 [] [])) as (A & B & C);
    [cbn; apply Qle_refl|cbn; apply Qle_refl|].
  set (acc := inline_loop _ _ _ _ _ _) in *.
  cbn [section_responses length Nat.add] in C.
  unfold inline_raw_score.
  destruct (section_responses acc) as [|r rs] eqn:Hresp.
  - rewrite andb_false_r. cbn. discriminate.
  - assert (Hpos : (0 < length (sec_questions section))%nat)
      by (cbn [length] in C; lia).
    apply Nat.ltb_lt in Hpos as Hb. rewrite Hb. cbn [nonempty andb].
    set (raw := total_points acc / Qnat (length (sec_questions section))).
    assert (Hraw : 0 <= raw /\ raw <= 1).
    { pose proof (Qnat_positive _ Hpos) as Hn.
      pose proof (Qnat_le _ _ C) as Hle.
      subst raw. split.
      - apply Qle_shift_div_l; [exact Hn|]. lra.
      - apply Qle_shift_div_r; [exact Hn|]. lra. }
    destruct Hraw as [R0 R1].
    destruct (verify_section_score_in_unit (sec_name section) raw
                (r :: rs) answer_points R0 R1)
      as (v & lg & -> & V0 & V1).
    cbn. intros H. injection H as <-. split; assumption.
Qed.

(** *** calculate_section_score *)

Lemma resolve_point_in_unit (section_name response : string) (p : Q) :
  fst (resolve_point section_name answer_points response) = Some p ->
  0 <= p /\ p <= 1.
Proof.
  unfold resolve_point.
  destruct (Dict.get answer_points response) as [point|] eqn:Hget.
  - cbn. intros ->. eapply points_in_unit_get; eauto.
  - destruct (case_insensitive_match answer_points (PyStr.lower response))
      as [[q|]|] eqn:Hci.
    + cbn. intros H. injection H as <-.
      eapply case_insensitive_match_in_unit; eauto.
    + unfold heuristic_point.
      repeat match goal with
             | |- context [if ?b then _ else _] => destruct b
             end; cbn; intros H; try discriminate;
        injection H as <-; split; discriminate.
    + unfold heuristic_point.
      repeat match goal with
             | |- context [if ?b then _ else _] => destruct b
             end; cbn; intros H; try discriminate;
        injection H as <-; split; discriminate.
Qed.

Lemma section_score_loop_bounds (section_name : string) (section_idx : nat)
    (questions : list Question) :
  forall q_idx acc,
    0 <= total_score acc ->
    total_score acc <= Qnat (applicable_questions acc) ->
    let acc' := section_score_loop section_name section_idx responses
                  answer_points q_idx questions acc in
    0 <= total_score acc' /\ total_score acc' <= Qnat (applicable_questions acc').
Proof.
  induction questions as [|q qs IH]; intros q_idx acc H0 H1; [cbn; auto|].
  cbn [section_score_loop]. apply IH.
  - destruct (responses !! response_key section_idx q_idx) as [[r|]|]; auto.
    destruct (PyStr.truthy r); auto.
    destruct (resolve_point section_name answer_points r) as [[p|] lg] eqn:Hr;
      cbn [total_score]; auto.
    destruct (resolve_point_in_unit section_name r p) as [P0 P1];
      [now rewrite Hr|]. lra.
  - destruct (responses !! response_key section_idx q_idx) as [[r|]|]; auto.
    destruct (PyStr.truthy r); auto.
    destruct (resolve_point section_name answer_points r) as [[p|] lg] eqn:Hr;
      cbn [total_score applicable_questions]; auto.
    destruct (resolve_point_in_unit section_name r p) as [P0 P1];
      [now rewrite Hr|]. rewrite Qnat_succ. lra.
Qed.

(** [calculate_section_score] returns a score in [0, 1] as well, the
    heuristic values 1.0, 0.0 and 0.5 included. *)
Theorem calculate_section_score_in_unit (section : Section) (score : Q) :
  calculate_section_score section responses answer_points = Some score ->
  0 <= score /\ score <= 1.
Proof.
  unfold calculate_section_score, calculate_section_score_log.
  destruct (sec_questions section) as [|q qs]; [discriminate|].
  set (idx := match sec_index section with Some i => i | None => 0%nat end).
  destruct (section_score_loop_bounds (sec_name section) idx (q :: qs) 0
              (mkSectionAcc 0 0 [])) as [A B];
    [cbn; apply Qle_refl|cbn; apply Qle_refl|].
  set (acc := section_score_loop _ _ _ _ _ _ _) in *.
  destruct (applicable_questions acc) as [|n] eqn:Happ; [discriminate|].
  cbn [fst]. intros H. injection H as <-.
  assert (Hn : 0 < Qnat (S n)) by (apply Qnat_positive; lia).
  split.
  - apply Qle_shift_div_l; [exact Hn|]. lra.
  - apply Qle_shift_div_r; [exact Hn|]. lra.
Qed.

End ScoreBounds.

Lemma calculate_section_score_in_unit_witness :
  (0 <= 1 /\ 1 <= 1)%Q.
Proof.
  apply (calculate_section_score_in_unit yes_no_table somewhat_done_responses
           ltac:(repeat constructor; simpl; discriminate)
           two_question_section 1).
  reflexivity.
Defined.

(** ** The live scorer only credits exact keys *)

Lemma inline_loop_no_exact_key (answer_points : AnswerPoints)
    (responses : gmap string (option string)) (s_idx : nat)
    (questions : list Question) :
  forall q_idx acc,
    (forall j r, (j < length questions)%nat ->
       responses !! response_key s_idx (q_idx + j) = Some (Some r) ->
       Dict.get answer_points r = None) ->
    total_points (inline_loop answer_points responses s_idx q_idx questions acc)
    = total_points acc.
Proof.
  induction questions as [|q qs IH]; intros q_idx acc H; [reflexivity|].
  cbn [inline_loop]. rewrite IH.
  - destruct (responses !! response_key s_idx q_idx) as [[r|]|] eqn:Hr;
      try reflexivity.
    unfold score_response. rewrite (H 0%nat r); [reflexivity|simpl; lia|].
    now rewrite Nat.add_0_r.
  - intros j r Hj Hr. apply (H (S j) r); [simpl; lia|].
    now replace (q_idx + S j)%nat with (S q_idx + j)%nat by lia.
Qed.

(** In the section loop of [calculate_compliance_score] a response earns
    points only as an exact key of the table: when no response of a
    section is such a key, whatever a case-insensitive or partial match
    would find, the collected points are 0 and so is any raw score. *)
Theorem inline_score_needs_exact_keys (answer_points : AnswerPoints)
    (responses : gmap string (option string)) (s_idx : nat)
    (section : Section) :
  (forall j r, (j < length (sec_questions section))%nat ->
     responses !! response_key s_idx j = Some (Some r) ->
     Dict.get answer_points r = None) ->
  let acc := inline_loop answer_points responses s_idx 0
               (sec_questions section) (mkInlineAcc 0%Q [] []) in
  total_points acc = 0%Q
  /\ forall raw, inline_raw_score acc (length (sec_questions section)) = Some raw ->
                 (raw == 0)%Q.
Proof.
  intros H acc.
  assert (Htot : total_points acc = 0%Q).
  { subst acc. rewrite inline_loop_no_exact_key; [reflexivity|exact H]. }
  split; [exact Htot|].
  intros raw. unfold inline_raw_score. rewrite Htot.
  destruct (_ && _); [|discriminate].
  intros Hraw. injection Hraw as <-. unfold Qdiv. ring.
Qed.

Definition lowercase_yes_responses : gmap string (option string) :=
  <["s0_q0" := Some "yes"]> ∅.

Lemma inline_score_needs_exact_keys_witness :
  total_points
    (inline_loop yes_no_table lowercase_yes_responses 0 0
       (sec_questions one_question_section) (mkInlineAcc 0%Q [] []))
  = 0%Q.
Proof.
  apply (inline_score_needs_exact_keys yes_no_table lowercase_yes_responses 0
           one_question_section).
  intros j r Hj. destruct j as [|j]; [|simpl in Hj; lia].
  intros Hr. vm_compute in Hr. injection Hr as <-. reflexivity.
Defined.

(** ** The overall score *)

Section Overall.

Local Open Scope Q_scope.

Lemma scores_in_unit_set (scores : Dict.t (option Q)) (k : string)
    (v : option Q) :
  points_in_unit scores ->
  (forall p, v = Some p -> 0 <= p /\ p <= 1) ->
  points_in_unit (Dict.set scores k v).
Proof.
  unfold points_in_unit. intros Hall Hv.
  assert (Hentry : match v with Some p => 0 <= p /\ p <= 1 | None => True end)
    by (destruct v; auto).
  induction Hall as [|[k' v'] rest Hkv Hall IH]; simpl.
  - constructor; [exact Hentry|constructor].
  - destruct (String.eqb k' k); constructor; auto.
Qed.

Lemma section_scores_loop_in_unit (answer_points : AnswerPoints)
    (responses : gmap string (option string)) (sections : list Section) :
  points_in_unit answer_points ->
  forall s_idx scores lg,
    points_in_unit scores ->
    points_in_unit
      (fst (section_scores_loop answer_points responses s_idx sections scores lg)).
Proof.
  intros Hap. induction sections as [|s ss IH]; intros s_idx scores lg Hs;
    cbn [section_scores_loop]; [exact Hs|].
  destruct (score_section answer_points responses s_idx s) as [score lg'] eqn:E.
  apply IH. apply scores_in_unit_set; [exact Hs|].
  intros p ->. apply (score_section_in_unit answer_points responses Hap s_idx s).
  now rewrite E.
Qed.

(** A weight the weighted loop can use without skewing the average: a
    non-negative number, or none (the default 1/n applies). *)
Definition nonnegative_weight (section : Section) : Prop :=
  match sec_weight section with
  | WNum w => 0 <= w
  | WAbsent => True
  | WOther => False
  end.

Lemma default_weight_nonneg (n : nat) : 0 <= 1 / Qnat n.
Proof.
  destruct n as [|n]; [discriminate|].
  apply Qlt_le_weak, Qlt_shift_div_l; [apply Qnat_positive; lia|lra].
Qed.

Lemma weighted_loop_bounds (n : nat) (scores : Dict.t (option Q))
    (sections : list Section) :
  points_in_unit scores ->
  Forall nonnegative_weight sections ->
  forall acc,
    0 <= fst acc -> fst acc <= snd acc ->
    exists acc',
      weighted_loop n scores sections acc = Ok acc'
      /\ 0 <= fst acc' /\ fst acc' <= snd acc'.
Proof.
  intros Hscores Hall.
  induction Hall as [|s ss Hw Hall IH]; intros acc H0 H1; [cbn; eauto|].
  cbn [weighted_loop].
  destruct (get_score scores (sec_name s)) as [v|] eqn:Hget; [|apply IH; auto].
  assert (Hv : 0 <= v /\ v <= 1).
  { unfold get_score in Hget.
    destruct (Dict.get scores (sec_name s)) as [o|] eqn:Hd; [|discriminate].
    subst o. eapply points_in_unit_get; eauto. }
  destruct Hv as [V0 V1].
  pose proof (default_weight_nonneg n) as Hdef.
  unfold nonnegative_weight in Hw.
  destruct (sec_weight s) as [| |w]; [|contradiction|];
    cbn [mbind pyresult_bind]; apply IH; cbn [fst snd]; nra.
Qed.

Lemma overall_of_range (totals : Q * Q) :
  0 <= fst totals -> fst totals <= snd totals ->
  0 <= overall_of totals /\ overall_of totals <= 100.
Proof.
  intros H0 H1. unfold overall_of.
  destruct (Qlt_bool 0 (snd totals)) eqn:Hpos; [|split; discriminate].
  apply Qlt_bool_iff in Hpos.
  assert (Hq : 0 <= fst totals / snd totals /\ fst totals / snd totals <= 1).
  { split.
    - apply Qle_shift_div_l; [exact Hpos|]. lra.
    - apply Qle_shift_div_r; [exact Hpos|]. lra. }
  lra.
Qed.

(** What a returned result holds, in terms of the loops. *)
Lemma score_questionnaire_fields (questionnaire : Questionnaire)
    (responses : gmap string (option string))
    (regulation_code industry_code : string) (result : ScoreResult)
    (lg : list LogRecord) :
  score_questionnaire questionnaire responses regulation_code industry_code
  = Ok (result, lg) ->
  let sections := q_sections questionnaire in
  let scores :=
    compute_section_scores (effective_answer_points questionnaire) responses
      sections in
  section_scores result = scores
  /\ high_risk_areas result = sections_below (6 # 10) scores
  /\ improvement_priorities result
     = sort_by_score scores (sections_below (75 # 100) scores)
  /\ compliance_level result = get_compliance_level (overall_score result / 100)
  /\ exists totals,
       weighted_loop (length sections) scores sections (0, 0) = Ok totals
       /\ overall_score result = overall_of totals.
Proof.
  unfold score_questionnaire, compute_section_scores.
  destruct (section_scores_loop _ _ _ _ _ _) as [sc lg0]. cbn [fst].
  destruct (weighted_loop _ _ _ _) as [totals|]; cbn [mbind pyresult_bind];
    [|discriminate].
  destruct (recommendations_loop _ _ _ _ _); cbn [mbind pyresult_bind];
    [|discriminate].
  intros H. injection H as <- _. cbn. repeat split. eauto.
Qed.

(** With point values in [0, 1] and no negative or non-numeric weight,
    every stored section score lies in [0, 1], the weighted loop
    returns, and the overall score lies in [0, 100]. *)
Theorem overall_score_in_range (questionnaire : Questionnaire)
    (responses : gmap string (option string))
    (regulation_code industry_code : string) :
  (forall table, q_answer_points questionnaire = Some table ->
                 points_in_unit table) ->
  Forall nonnegative_weight (q_sections questionnaire) ->
  let sections := q_sections questionnaire in
  let scores :=
    compute_section_scores (effective_answer_points questionnaire) responses
      sections in
  points_in_unit scores
  /\ (exists totals,
        weighted_loop (length sections) scores sections (0, 0) = Ok totals
        /\ 0 <= overall_of totals /\ overall_of totals <= 100)
  /\ (forall result lg,
        score_questionnaire questionnaire responses regulation_code
          industry_code = Ok (result, lg) ->
        0 <= overall_score result /\ overall_score result <= 100).
Proof.
  intros Htable Hweights sections scores.
  assert (Hap : points_in_unit (effective_answer_points questionnaire))
    by now apply points_in_unit_effective.
  assert (Hscores : points_in_unit scores).
  { subst scores. unfold compute_section_scores.
    apply section_scores_loop_in_unit; [exact Hap|constructor]. }
  destruct (weighted_loop_bounds (length sections) scores sections Hscores
              Hweights (0, 0)) as (totals & Hrun & T0 & T1);
    [apply Qle_refl|apply Qle_refl|].
  split; [exact Hscores|]. split.
  - exists totals. split; [exact Hrun|]. now apply overall_of_range.
  - intros result lg H.
    destruct (score_questionnaire_fields _ _ _ _ _ _ H)
      as (_ & _ & _ & _ & totals' & Hrun' & ->).
    fold sections in Hrun'. fold scores in Hrun'.
    rewrite Hrun in Hrun'. injection Hrun' as <-.
    now apply overall_of_range.
Qed.

End Overall.

Lemma overall_score_in_range_witness :
  exists totals,
    weighted_loop 2
      (compute_section_scores (effective_answer_points scenario2_questionnaire)
         scenario2_responses (q_sections scenario2_questionnaire))
      (q_sections scenario2_questionnaire) (0%Q, 0%Q) = Ok totals
    /\ (0 <= overall_of totals)%Q /\ (overall_of totals <= 100)%Q.
Proof.
  destruct (overall_score_in_range scenario2_questionnaire scenario2_responses
              "DPDP" "retail") as (_ & H & _).
  - intros table H. discriminate.
  - repeat constructor; unfold nonnegative_weight; simpl; discriminate.
  - exact H.
Defined.

(** ** A session without responses, a questionnaire without sections *)

(** Without a ['responses'] entry in the session the result is the zero
    result; and when loading the rule set raises, so that resolution
    yields the empty questionnaire, scoring any response map returns
    normally with overall score 0.0, level "Non-Compliant" and empty
    tables. *)
Theorem calculate_compliance_score_degenerate (fs : FileSystem)
    (st : SessionState) (regulation industry : string) :
  (ss_responses st = None ->
     calculate_compliance_score fs st (Some regulation) (Some industry)
     = Ok (zero_result, []))
  /\ (forall responses e,
        ss_responses st = Some responses ->
        get_questionnaire_body fs st regulation industry = Raise e ->
        exists lg,
          calculate_compliance_score fs st (Some regulation) (Some industry)
          = Ok (mkScoreResult 0%Q "Non-Compliant" [] [] [] []
                  (Some regulation) (Some industry), lg)).
Proof.
  split.
  - intros H. unfold calculate_compliance_score. now rewrite H.
  - intros responses e Hresp Hbody.
    unfold calculate_compliance_score, get_questionnaire.
    rewrite Hresp, Hbody. eexists. reflexivity.
Qed.

Lemma calculate_compliance_score_degenerate_witness :
  exists lg,
    calculate_compliance_score empty_dpdp_store fresh_session
      (Some "DPDP") (Some "Retail")
    = Ok (mkScoreResult 0%Q "Non-Compliant" [] [] [] []
            (Some "DPDP") (Some "Retail"), lg).
Proof.
  destruct (calculate_compliance_score_degenerate empty_dpdp_store
              fresh_session "DPDP" "Retail") as [_ H].
  apply (H ∅ OSError); reflexivity.
Defined.

(** ** High-risk areas and improvement priorities *)

From Stdlib Require Import Sorted.

Section Priorities.

Local Open Scope Q_scope.

Lemma in_keys_set {V} (d : Dict.t V) (k x : string) (v : V) :
  In x (Dict.keys (Dict.set d k v)) -> x = k \/ In x (Dict.keys d).
Proof.
  unfold Dict.keys. induction d as [|[k' v'] d IH]; simpl.
  - intros [<-|[]]. now left.
  - destruct (String.eqb k' k); simpl; intros [<-|H]; auto.
    destruct (IH H); auto.
Qed.

Lemma keys_set_nodup {V} (d : Dict.t V) (k : string) (v : V) :
  List.NoDup (Dict.keys d) -> List.NoDup (Dict.keys (Dict.set d k v)).
Proof.
  unfold Dict.keys. induction d as [|[k' v'] d IH]; simpl; intros Hnd.
  - constructor; [intros []|constructor].
  - apply List.NoDup_cons_iff in Hnd. destruct Hnd as [Hnot Hnd].
    destruct (String.eqb k' k) eqn:E; simpl.
    + constructor; assumption.
    + constructor; [|now apply IH].
      intros Hin. apply (in_keys_set d k k' v) in Hin.
      destruct Hin as [->|Hin]; [|contradiction].
      now rewrite String.eqb_refl in E.
Qed.

Lemma get_of_nodup_entry {V} (d : Dict.t V) (k : string) (v : V) :
  List.NoDup (Dict.keys d) -> In (k, v) d -> Dict.get d k = Some v.
Proof.
  unfold Dict.keys. induction d as [|[k' v'] d IH]; simpl; intros Hnd Hin;
    [contradiction|].
  apply List.NoDup_cons_iff in Hnd. destruct Hnd as [Hnot Hnd].
  destruct Hin as [E|Hin].
  - injection E as -> ->. now rewrite String.eqb_refl.
  - destruct (String.eqb k' k) eqn:E; [|now apply IH].
    apply String.eqb_eq in E. subst k'. exfalso. apply Hnot.
    apply in_map_iff. exists (k, v). auto.
Qed.

Lemma entry_of_get {V} (d : Dict.t V) (k : string) (v : V) :
  Dict.get d k = Some v -> In (k, v) d.
Proof.
  induction d as [|[k' v'] d IH]; simpl; [discriminate|].
  destruct (String.eqb k' k) eqn:E; [|auto].
  apply String.eqb_eq in E. subst k'. intros H. injection H as ->. now left.
Qed.

Lemma section_scores_loop_nodup (answer_points : AnswerPoints)
    (responses : gmap string (option string)) (sections : list Section) :
  forall s_idx scores lg,
    List.NoDup (Dict.keys scores) ->
    List.NoDup
      (Dict.keys (fst (section_scores_loop answer_points responses s_idx
                         sections scores lg))).
Proof.
  induction sections as [|s ss IH]; intros s_idx scores lg Hnd;
    cbn [section_scores_loop]; [exact Hnd|].
  destruct (score_section answer_points responses s_idx s) as [score lg'].
  apply IH. now apply keys_set_nodup.
Qed.

Variable scores : Dict.t (option Q).
Hypothesis Hkeys : List.NoDup (Dict.keys scores).

Lemma sections_below_spec (limit : Q) (name : string) :
  In name (sections_below limit scores)
  <-> exists v, get_score scores name = Some v /\ v < limit.
Proof.
  unfold sections_below. rewrite in_map_iff. split.
  - intros ([k o] & Hk & Hin). cbn in Hk. subst k.
    apply filter_In in Hin. destruct Hin as [Hin Hv]. cbn in Hv.
    destruct o as [v|]; [|discriminate].
    exists v. split; [|now apply Qlt_bool_iff].
    unfold get_score. now rewrite (get_of_nodup_entry _ _ _ Hkeys Hin).
  - intros (v & Hget & Hlt). unfold get_score in Hget.
    destruct (Dict.get scores name) as [o|] eqn:Hd; [|discriminate].
    subst o. exists (name, Some v). split; [reflexivity|].
    apply filter_In. split; [now apply entry_of_get|].
    cbn. now apply Qlt_bool_iff.
Qed.

(** [a] may stand before [b] in a list sorted by score. *)
Definition score_le (a b : string) : Prop :=
  match get_score scores a, get_score scores b with
  | Some sa, Some sb => sa <= sb
  | _, _ => False
  end.

Lemma insert_by_score_perm (x : string) (l : list string) :
  Permutation (insert_by_score scores x l) (x :: l).
Proof.
  induction l as [|y l IH]; cbn [insert_by_score]; [reflexivity|].
  destruct (get_score scores x) as [sx|];
    [destruct (get_score scores y) as [sy|];
       [destruct (Qle_bool sx sy); [reflexivity|]|]|];
    (etransitivity; [apply perm_skip, IH|apply perm_swap]).
Qed.

Lemma sort_by_score_perm (l : list string) :
  Permutation (sort_by_score scores l) l.
Proof.
  unfold sort_by_score. induction l as [|x l IH]; cbn [fold_right]; [reflexivity|].
  etransitivity; [apply insert_by_score_perm|]. now apply perm_skip.
Qed.

Lemma insert_by_score_hd (x y : string) (l : list string) :
  score_le y x -> HdRel score_le y l ->
  HdRel score_le y (insert_by_score scores x l).
Proof.
  intros Hyx Hhd. destruct l as [|z l]; cbn [insert_by_score].
  - now constructor.
  - inversion Hhd; subst.
    destruct (get_score scores x) as [sx|];
      [destruct (get_score scores z) as [sz|];
         [destruct (Qle_bool sx sz)|]|]; now constructor.
Qed.

Lemma insert_by_score_sorted (x : string) (l : list string) :
  (forall y, In y (x :: l) -> get_score scores y <> None) ->
  Sorted score_le l -> Sorted score_le (insert_by_score scores x l).
Proof.
  intros Hsome Hsorted.
  induction Hsorted as [|y l Hs IH Hhd]; cbn [insert_by_score].
  - repeat constructor.
  - destruct (get_score scores x) as [sx|] eqn:Hx;
      [|exfalso; apply (Hsome x); [now left|exact Hx]].
    destruct (get_score scores y) as [sy|] eqn:Hy;
      [|exfalso; apply (Hsome y); [right; now left|exact Hy]].
    destruct (Qle_bool sx sy) eqn:Hle.
    + apply Qle_bool_iff in Hle. constructor; [now constructor|].
      constructor. unfold score_le. now rewrite Hx, Hy.
    + assert (Hyx : score_le y x).
      { unfold score_le. rewrite Hy, Hx. apply Qlt_le_weak.
        apply Qlt_bool_iff. unfold Qlt_bool. now rewrite Hle. }
      constructor.
      * apply IH. intros z [<-|Hz]; apply Hsome; [now left|right; now right].
      * now apply insert_by_score_hd.
Qed.

Lemma sort_by_score_sorted (l : list string) :
  (forall y, In y l -> get_score scores y <> None) ->
  Sorted score_le (sort_by_score scores l).
Proof.
  unfold sort_by_score. induction l as [|x l IH]; intros Hsome; cbn [fold_right].
  - constructor.
  - apply insert_by_score_sorted.
    + intros y [<-|Hy]; [apply Hsome; now left|].
      apply Hsome. right.
      eapply Permutation_in; [apply sort_by_score_perm|exact Hy].
    + apply IH. intros y Hy. apply Hsome. now right.
Qed.

Lemma priorities_of_table :
  let high := sections_below (6 # 10) scores in
  let priorities := sort_by_score scores (sections_below (75 # 100) scores) in
  (forall name, In name high
                <-> exists v, get_score scores name = Some v /\ v < 6 # 10)
  /\ (forall name, In name priorities
                   <-> exists v, get_score scores name = Some v /\ v < 75 # 100)
  /\ incl high priorities
  /\ Permutation priorities (sections_below (75 # 100) scores)
  /\ Sorted score_le priorities.
Proof.
  intros high priorities.
  assert (Hprio : forall name,
            In name priorities
            <-> exists v, get_score scores name = Some v /\ v < 75 # 100).
  { intros name. rewrite <- sections_below_spec. subst priorities. split.
    - apply Permutation_in, sort_by_score_perm.
    - apply Permutation_in. symmetry. apply sort_by_score_perm. }
  split; [intros name; apply sections_below_spec|].
  split; [exact Hprio|]. split; [|split].
  - intros name Hin. apply Hprio.
    apply sections_below_spec in Hin. destruct Hin as (v & Hv & Hlt).
    exists v. split; [exact Hv|lra].
  - apply sort_by_score_perm.
  - apply sort_by_score_sorted. intros y Hy.
    apply sections_below_spec in Hy. destruct Hy as (v & -> & _). discriminate.
Qed.

End Priorities.

(** In a returned result the high-risk areas are exactly the sections
    scored below 0.6 and the improvement priorities exactly those scored
    below 0.75, so every high-risk area is also a priority; the
    priorities are the table's sections below 0.75 rearranged in
    ascending order of score. *)
Theorem result_priorities_sorted (questionnaire : Questionnaire)
    (responses : gmap string (option string))
    (regulation_code industry_code : string) (result : ScoreResult)
    (lg : list LogRecord) :
  score_questionnaire questionnaire responses regulation_code industry_code
  = Ok (result, lg) ->
  let scores := section_scores result in
  (forall name, In name (high_risk_areas result)
                <-> exists v, get_score scores name = Some v /\ (v < 6 # 10)%Q)
  /\ (forall name, In name (improvement_priorities result)
                   <-> exists v, get_score scores name = Some v
                                 /\ (v < 75 # 100)%Q)
  /\ incl (high_risk_areas result) (improvement_priorities result)
  /\ Permutation (improvement_priorities result)
       (sections_below (75 # 100) scores)
  /\ Sorted (score_le scores) (improvement_priorities result).
Proof.
  intros H.
  destruct (score_questionnaire_fields _ _ _ _ _ _ H)
    as (Hs & Hh & Hp & _).
  cbn zeta. rewrite Hh, Hp, Hs.
  apply priorities_of_table.
  unfold compute_section_scores.
  apply section_scores_loop_nodup. constructor.
Qed.

Definition mixed_questionnaire : Questionnaire :=
  mkQuestionnaire
    [ mkSection "Notice" (WNum (1 # 2)) None (plain_questions 3);
      mkSection "Consent" (WNum (1 # 4)) None (plain_questions 2);
      mkSection "Security" (WNum (1 # 4)) None (plain_questions 2) ]
    None.

Definition mixed_responses : gmap string (option string) :=
  <["s0_q0" := Some "Yes"]>
    (<["s0_q1" := Some "Yes"]>
       (<["s0_q2" := Some "No"]>
       (<["s1_q0" := Some "No"]>
          (<["s1_q1" := Some "In progress"]>
             (<["s2_q0" := Some "Yes"]> (<["s2_q1" := Some "Yes"]> ∅)))))).

Lemma result_priorities_sorted_witness :
  exists result lg,
    score_questionnaire mixed_questionnaire mixed_responses "DPDP" "retail"
    = Ok (result, lg)
    /\ high_risk_areas result = ["Consent"]
    /\ improvement_priorities result = ["Consent"; "Notice"]
    /\ incl (high_risk_areas result) (improvement_priorities result).
Proof.
  destruct (score_questionnaire mixed_questionnaire mixed_responses
              "DPDP" "retail") as [[result lg]|e] eqn:E;
    [|vm_compute in E; discriminate].
  exists result, lg. split; [reflexivity|].
  pose proof (result_priorities_sorted _ _ _ _ _ _ E) as (_ & _ & Hincl & _).
  vm_compute in E. injection E as <- _.
  split; [reflexivity|]. split; [reflexivity|]. exact Hincl.
Defined.

(** ** Normal forms of the selectors *)

Module PyStrFacts.

Lemma upper_char_idem (c : ascii) :
  PyStr.upper_char (PyStr.upper_char c) = PyStr.upper_char c.
Proof. destruct c as [[] [] [] [] [] [] [] []]; reflexivity. Qed.

Lemma lower_char_idem (c : ascii) :
  PyStr.lower_char (PyStr.lower_char c) = PyStr.lower_char c.
Proof. destruct c as [[] [] [] [] [] [] [] []]; reflexivity. Qed.

Lemma upper_lower_char (c : ascii) :
  PyStr.upper_char (PyStr.lower_char c) = PyStr.upper_char c.
Proof. destruct c as [[] [] [] [] [] [] [] []]; reflexivity. Qed.

Lemma lower_upper_char (c : ascii) :
  PyStr.lower_char (PyStr.upper_char c) = PyStr.lower_char c.
Proof. destruct c as [[] [] [] [] [] [] [] []]; reflexivity. Qed.

Lemma is_space_upper_char (c : ascii) :
  PyStr.is_space (PyStr.upper_char c) = PyStr.is_space c.
Proof. destruct c as [[] [] [] [] [] [] [] []]; reflexivity. Qed.

Lemma is_space_lower_char (c : ascii) :
  PyStr.is_space (PyStr.lower_char c) = PyStr.is_space c.
Proof. destruct c as [[] [] [] [] [] [] [] []]; reflexivity. Qed.

Lemma map_chars_compose (f g h : ascii -> ascii) (s : string) :
  (forall c, f (g c) = h c) ->
  PyStr.map_chars f (PyStr.map_chars g s) = PyStr.map_chars h s.
Proof.
  intros H. induction s as [|c s IH]; simpl; [reflexivity|].
  now rewrite H, IH.
Qed.

Section SpacePreserving.

Variable f : ascii -> ascii.
Hypothesis Hspace : forall c, PyStr.is_space (f c) = PyStr.is_space c.

Lemma lstrip_map_chars (s : string) :
  PyStr.lstrip (PyStr.map_chars f s) = PyStr.map_chars f (PyStr.lstrip s).
Proof.
  induction s as [|c s IH]; simpl; [reflexivity|].
  rewrite Hspace. destruct (PyStr.is_space c); [exact IH|reflexivity].
Qed.

Lemma rstrip_map_chars (s : string) :
  PyStr.rstrip (PyStr.map_chars f s) = PyStr.map_chars f (PyStr.rstrip s).
Proof.
  induction s as [|c s IH]; simpl; [reflexivity|].
  rewrite IH, Hspace. destruct (PyStr.rstrip s); simpl; [|reflexivity].
  destruct (PyStr.is_space c); reflexivity.
Qed.

Lemma strip_map_chars (s : string) :
  PyStr.strip (PyStr.map_chars f s) = PyStr.map_chars f (PyStr.strip s).
Proof.
  unfold PyStr.strip. now rewrite lstrip_map_chars, rstrip_map_chars.
Qed.

End SpacePreserving.

(** A string that does not begin with white space. *)
Definition starts_clean (s : string) : Prop :=
  match s with
  | EmptyString => True
  | String c _ => PyStr.is_space c = false
  end.

Lemma lstrip_starts_clean (s : string) : starts_clean (PyStr.lstrip s).
Proof.
  induction s as [|c s IH]; simpl; [exact I|].
  destruct (PyStr.is_space c) eqn:E; [exact IH|exact E].
Qed.

Lemma lstrip_of_clean (s : string) : starts_clean s -> PyStr.lstrip s = s.
Proof.
  destruct s as [|c s]; simpl; [reflexivity|]. now intros ->.
Qed.

Lemma rstrip_keeps_clean (s : string) :
  starts_clean s -> starts_clean (PyStr.rstrip s).
Proof.
  destruct s as [|c s]; simpl; [exact id|]. intros Hc.
  destruct (PyStr.rstrip s); [rewrite Hc|]; exact Hc.
Qed.

Lemma rstrip_idem (s : string) :
  PyStr.rstrip (PyStr.rstrip s) = PyStr.rstrip s.
Proof.
  induction s as [|c s IH]; [reflexivity|].
  cbn [PyStr.rstrip]. destruct (PyStr.rstrip s) as [|d r] eqn:E.
  - destruct (PyStr.is_space c) eqn:Hc; [reflexivity|].
    cbn. now rewrite Hc.
  - cbn [PyStr.rstrip]. cbn [PyStr.rstrip] in IH. now rewrite IH.
Qed.

Lemma strip_idem (s : string) : PyStr.strip (PyStr.strip s) = PyStr.strip s.
Proof.
  unfold PyStr.strip.
  rewrite (lstrip_of_clean (PyStr.rstrip (PyStr.lstrip s)))
    by apply rstrip_keeps_clean, lstrip_starts_clean.
  apply rstrip_idem.
Qed.

Lemma upper_strip_idem (s : string) :
  PyStr.upper (PyStr.strip (PyStr.upper (PyStr.strip s)))
  = PyStr.upper (PyStr.strip s).
Proof.
  unfold PyStr.upper.
  rewrite (strip_map_chars _ is_space_upper_char), strip_idem.
  apply map_chars_compose, upper_char_idem.
Qed.

Lemma lower_strip_idem (s : string) :
  PyStr.lower (PyStr.strip (PyStr.lower (PyStr.strip s)))
  = PyStr.lower (PyStr.strip s).
Proof.
  unfold PyStr.lower.
  rewrite (strip_map_chars _ is_space_lower_char), strip_idem.
  apply map_chars_compose, lower_char_idem.
Qed.

Lemma upper_strip_lower (s : string) :
  PyStr.upper (PyStr.strip (PyStr.lower s)) = PyStr.upper (PyStr.strip s).
Proof.
  unfold PyStr.upper, PyStr.lower.
  rewrite (strip_map_chars _ is_space_lower_char).
  apply map_chars_compose, upper_lower_char.
Qed.

Lemma lower_strip_upper (s : string) :
  PyStr.lower (PyStr.strip (PyStr.upper s)) = PyStr.lower (PyStr.strip s).
Proof.
  unfold PyStr.upper, PyStr.lower.
  rewrite (strip_map_chars _ is_space_upper_char).
  apply map_chars_compose, lower_upper_char.
Qed.

End PyStrFacts.

(** Resolution sees its arguments only through their normal forms (the
    regulation trimmed and upper-cased, the industry trimmed and
    lower-cased): passing the normal forms, or the arguments in another
    letter case, gives the same questionnaire. *)
Theorem get_questionnaire_normal_form (fs : FileSystem) (st : SessionState)
    (regulation industry : string) :
  get_questionnaire fs st (PyStr.upper (PyStr.strip regulation))
    (PyStr.lower (PyStr.strip industry))
  = get_questionnaire fs st regulation industry
  /\ get_questionnaire fs st (PyStr.lower regulation) (PyStr.upper industry)
     = get_questionnaire fs st regulation industry.
Proof.
  unfold get_questionnaire, get_questionnaire_body. split.
  - now rewrite PyStrFacts.upper_strip_idem, PyStrFacts.lower_strip_idem.
  - now rewrite PyStrFacts.upper_strip_lower, PyStrFacts.lower_strip_upper.
Qed.

(** ** Weight repair: fixed points *)

Section RepairFixedPoints.

Local Open Scope Q_scope.

Definition all_weights_valid (questionnaire : Questionnaire) : Prop :=
  Forall (fun s => weight_is_valid (sec_weight s) = true)
         (q_sections questionnaire).

Lemma default_invalid_weight_valid_id (n : nat) (sections : list Section) :
  Forall (fun s => weight_is_valid (sec_weight s) = true) sections ->
  map (default_invalid_weight n) sections = sections.
Proof.
  intros H. induction H as [|s ss Hs Hall IH]; simpl; [reflexivity|].
  unfold default_invalid_weight at 1. now rewrite Hs, IH.
Qed.

Lemma fix_questionnaire_weights_unchanged (questionnaire : Questionnaire) :
  q_sections questionnaire <> [] ->
  all_weights_valid questionnaire ->
  99 # 100 <= py_sum (weights_of questionnaire) ->
  py_sum (weights_of questionnaire) <= 101 # 100 ->
  fix_questionnaire_weights questionnaire = Some questionnaire.
Proof.
  intros Hne Hvalid Hlo Hhi.
  destruct questionnaire as [sections table]. cbn [q_sections] in *.
  unfold all_weights_valid, weights_of in *. cbn [q_sections] in *.
  unfold fix_questionnaire_weights. cbn [q_sections q_answer_points].
  destruct sections as [|s ss]; [congruence|].
  rewrite (default_invalid_weight_valid_id _ _ Hvalid).
  apply Qle_bool_iff in Hlo, Hhi. now rewrite Hlo, Hhi.
Qed.

Lemma Qle_lteq_eq_lo (a x : Q) : x == 1 -> a <= 1 -> a <= x.
Proof. intros -> H. exact H. Qed.

Lemma Qle_lteq_eq_hi (b x : Q) : x == 1 -> 1 <= b -> x <= b.
Proof. intros -> H. exact H. Qed.

Lemma normalized_weights_valid (sections : list Section) (W : Q) :
  0 < W ->
  Forall (fun s => 0 < weight_value s) sections ->
  Forall (fun s => weight_is_valid (sec_weight s) = true)
         (map (fun section => set_weight section (weight_value section / W))
              sections).
Proof.
  intros HW Hall. apply List.Forall_map.
  eapply List.Forall_impl; [|exact Hall].
  intros s Hs. cbn [weight_is_valid sec_weight set_weight].
  apply Qlt_bool_iff.
  apply Qlt_shift_div_l; [exact HW|]. now rewrite Qmult_0_l.
Qed.

Lemma repaired_questionnaire_shape (questionnaire fixed : Questionnaire) :
  fix_questionnaire_weights questionnaire = Some fixed ->
  q_sections fixed <> [] /\ all_weights_valid fixed
  /\ 99 # 100 <= py_sum (weights_of fixed)
  /\ py_sum (weights_of fixed) <= 101 # 100.
Proof.
  intros Hfix.
  unfold fix_questionnaire_weights in Hfix.
  destruct (q_sections questionnaire) as [|s0 ss] eqn:Hsecs; [discriminate|].
  set (n := length (s0 :: ss)) in *.
  set (sections1 := map (default_invalid_weight n) (s0 :: ss)) in *.
  set (W := py_sum (map weight_value sections1)) in *.
  assert (Hn : (0 < n)%nat) by (subst n; simpl; lia).
  assert (Hpos : Forall (fun s => 0 < weight_value s) sections1).
  { subst sections1. apply List.Forall_map, List.Forall_forall.
    intros s _. now apply repaired_weight_positive. }
  assert (Hvalid1 : Forall (fun s => weight_is_valid (sec_weight s) = true)
                      sections1).
  { subst sections1. apply List.Forall_map, List.Forall_forall.
    intros s _. unfold default_invalid_weight.
    destruct (weight_is_valid (sec_weight s)) eqn:E; [exact E|].
    cbn. apply Qlt_bool_iff.
    apply Qlt_shift_div_l; [now apply Qnat_positive|]. lra. }
  assert (HW : 0 < W).
  { subst W. rewrite py_sum_Qsum. apply Qsum_positive.
    - subst sections1. discriminate.
    - now apply List.Forall_map. }
  destruct (Qle_bool (99 # 100) W && Qle_bool W (101 # 100)) eqn:Hband.
  - injection Hfix as <-. cbn [q_sections].
    apply andb_true_iff in Hband. destruct Hband as [H1 H2].
    apply Qle_bool_iff in H1, H2.
    split; [subst sections1; discriminate|]. split; [exact Hvalid1|].
    unfold weights_of. cbn [q_sections]. fold W. split; assumption.
  - injection Hfix as <-.
    assert (Hsum : py_sum
                     (weights_of
                        (mkQuestionnaire
                           (map (fun section =>
                                   set_weight section (weight_value section / W))
                                sections1)
                           (q_answer_points questionnaire))) == 1).
    { unfold weights_of. cbn [q_sections]. rewrite map_map. cbn [weight_value sec_weight set_weight].
      change (map (fun x : Section => weight_value x / W) sections1)
        with (map (fun x : Section => (fun w => w / W) (weight_value x)) sections1).
      rewrite <- (map_map weight_value (fun w => w / W)).
      rewrite py_sum_Qsum, Qsum_scaled by lra.
      rewrite <- py_sum_Qsum. fold W. field. lra. }
    pose proof Hsum as Hlo. pose proof Hsum as Hhi.
    apply (Qle_lteq_eq_lo (99 # 100)) in Hlo; [|discriminate].
    apply (Qle_lteq_eq_hi (101 # 100)) in Hhi; [|discriminate].
    split; [subst sections1; cbn; discriminate|].
    split; [exact (normalized_weights_valid sections1 W HW Hpos)|].
    split; [exact Hlo|exact Hhi].
Qed.

(** A questionnaire whose weights are all positive numbers with a total
    in [0.99, 1.01] is returned by the repair as it is; and whatever
    the repair returns is such a questionnaire, so repairing a second
    time changes nothing. *)
Theorem fix_questionnaire_weights_idempotent (questionnaire fixed : Questionnaire) :
  fix_questionnaire_weights questionnaire = Some fixed ->
  all_weights_valid fixed
  /\ 99 # 100 <= py_sum (weights_of fixed)
  /\ py_sum (weights_of fixed) <= 101 # 100
  /\ fix_questionnaire_weights fixed = Some fixed.
Proof.
  intros Hfix.
  destruct (repaired_questionnaire_shape _ _ Hfix) as (Hne & Hvalid & Hlo & Hhi).
  split; [exact Hvalid|]. split; [exact Hlo|]. split; [exact Hhi|].
  now apply fix_questionnaire_weights_unchanged.
Qed.

Lemma fix_questionnaire_weights_idempotent_witness :
  exists fixed,
    fix_questionnaire_weights skewed_questionnaire = Some fixed
    /\ fix_questionnaire_weights fixed = Some fixed.
Proof.
  destruct (fix_questionnaire_weights skewed_questionnaire) as [fixed|] eqn:E;
    [|vm_compute in E; discriminate].
  exists fixed. split; [reflexivity|].
  apply (fix_questionnaire_weights_idempotent skewed_questionnaire fixed E).
Defined.

Lemma Qsum_const {A} (c : Q) (l : list A) :
  Qsum (map (fun _ => c) l) == Qnat (length l) * c.
Proof.
  induction l as [|a l IH]; simpl.
  - unfold Qnat. simpl. ring.
  - rewrite IH. change (Qnat (S (length l))) with (Qnat (S (length l))).
    rewrite Qnat_succ. ring.
Qed.

Lemma fallback_passes_weight_repair_aux (regulation_code industry_code : string) :
  let fallback :=
    minimal_questionnaire (fallback_section_names regulation_code industry_code) in
  all_weights_valid fallback
  /\ py_sum (weights_of fallback) == 1
  /\ fix_questionnaire_weights fallback = Some fallback.
Proof.
  intros fallback.
  set (names := fallback_section_names regulation_code industry_code) in *.
  assert (Hlen : (0 < length names)%nat).
  { subst names. destruct (fallback_section_count regulation_code industry_code)
      as [-> | ->]; lia. }
  pose proof (Qnat_positive _ Hlen) as Hn.
  assert (Hvalid : all_weights_valid fallback).
  { unfold all_weights_valid. subst fallback. unfold minimal_questionnaire.
    cbn [q_sections]. apply List.Forall_map, List.Forall_forall.
    intros name _. cbn. apply Qlt_bool_iff.
    apply Qlt_shift_div_l; [exact Hn|]. lra. }
  assert (Hsum : py_sum (weights_of fallback) == 1).
  { subst fallback. unfold weights_of, minimal_questionnaire. cbn [q_sections].
    rewrite map_map. cbn [weight_value sec_weight].
    rewrite py_sum_Qsum, Qsum_const. field. lra. }
  split; [exact Hvalid|]. split; [exact Hsum|].
  apply fix_questionnaire_weights_unchanged; auto.
  - subst fallback. unfold minimal_questionnaire. cbn [q_sections].
    destruct names; [simpl in Hlen; lia|discriminate].
  - rewrite Hsum. discriminate.
  - rewrite Hsum. discriminate.
Qed.

(** The synthesized fallback questionnaire passes the weight repair
    unchanged for every regulation and industry: its weights are valid
    and sum to 1.0. *)
Theorem fallback_passes_weight_repair (regulation_code industry_code : string) :
  let fallback :=
    minimal_questionnaire (fallback_section_names regulation_code industry_code) in
  all_weights_valid fallback
  /\ py_sum (weights_of fallback) == 1
  /\ fix_questionnaire_weights fallback = Some fallback.
Proof. apply fallback_passes_weight_repair_aux. Qed.

End RepairFixedPoints.

Lemma get_compliance_level_Qeq (x y : Q) :
  (x == y)%Q -> get_compliance_level x = get_compliance_level y.
Proof.
  intros H. unfold get_compliance_level.
  generalize (sorted_desc COMPLIANCE_LEVELS). intros l.
  induction l as [|[threshold level] l IH]; cbn [first_level]; [reflexivity|].
  assert (Hb : Qle_bool threshold x = Qle_bool threshold y).
  { destruct (Qle_bool threshold x) eqn:Hx; symmetry.
    - apply Qle_bool_iff. apply Qle_bool_iff in Hx. now rewrite <- H.
    - apply not_true_is_false. intros Hy. apply Qle_bool_iff in Hy.
      rewrite <- H in Hy. apply Qle_bool_iff in Hy. congruence. }
  rewrite Hb, IH. reflexivity.
Qed.

(** A stored document with one missing weight. *)
Definition absent_weight_questionnaire : Questionnaire :=
  mkQuestionnaire
    [ mkSection "Notice" (WNum 3) None (plain_questions 2);
      mkSection "Consent" WAbsent None (plain_questions 2) ]
    None.

(** ** utils.py: get_regulation_and_industry_for_loader *)

(** The three session entries the mapping reads; a missing entry reads
    as the empty string. *)
Record Selection : Type := mkSelection {
  selected_country : string;
  selected_industry : string;
  selected_regulation : string
}.

Definition industry_file_map : Dict.t string :=
  [ ("Oil and Gas", "Oil_and_Gas");
    ("Banking and finance", "Banking and finance");
    ("E-commerce", "E-commerce");
    ("General", "npc") ].

Definition regulation_map : Dict.t string :=
  [ ("India", "DPDP");
    ("Qatar", "PDPPL");
    ("ndp_qatar", "PDPPL");
    ("Australia", "OAIC") ].

(** The industry after the defaulting step. *)
Definition normalized_industry (sel : Selection) : string :=
  if negb (PyStr.truthy (selected_industry sel)) then
    if String.eqb (selected_country sel) "Qatar" then "Oil and Gas"
    else if String.eqb (selected_country sel) "India" then "Banking and finance"
    else "Oil and Gas"
  else if String.eqb (selected_industry sel) "general" then "General"
  else selected_industry sel.

Definition get_regulation_and_industry_for_loader (sel : Selection)
    : string * string :=
  let selected_industry := normalized_industry sel in
  let regulation :=
    if String.eqb (selected_country sel) "Qatar" then
      if String.eqb selected_industry "General" then "NPC" else "PDPPL"
    else
      match Dict.get regulation_map (selected_country sel) with
      | Some r => r
      | None => selected_regulation sel
      end in
  let industry :=
    match Dict.get industry_file_map selected_industry with
    | Some f => f
    | None => selected_industry
    end in
  (regulation, industry).

Lemma normalized_industry_truthy (sel : Selection) :
  PyStr.truthy (normalized_industry sel) = true.
Proof.
  unfold normalized_industry.
  destruct (PyStr.truthy (selected_industry sel)) eqn:E; cbn [negb].
  - destruct (String.eqb (selected_industry sel) "general"); [reflexivity|exact E].
  - destruct (String.eqb (selected_country sel) "Qatar"); [reflexivity|].
    destruct (String.eqb (selected_country sel) "India"); reflexivity.
Qed.

(** The mapping never yields an empty industry; its regulation for a
    listed country does not depend on the stored regulation; for Qatar
    the regulation is NPC exactly for the industry "General" (or
    "general"), whose file name is then "npc", and PDPPL otherwise; and
    resolving the pair obtained for Qatar and "General" yields the
    content of npc.json when the NPC collection holds it. *)
Theorem loader_selection_properties (sel : Selection) :
  snd (get_regulation_and_industry_for_loader sel) <> ""
  /\ (selected_country sel = "India" ->
      fst (get_regulation_and_industry_for_loader sel) = "DPDP")
  /\ (selected_country sel = "Australia" ->
      fst (get_regulation_and_industry_for_loader sel) = "OAIC")
  /\ (selected_country sel = "Qatar" ->
      (selected_industry sel = "General" \/ selected_industry sel = "general" ->
         get_regulation_and_industry_for_loader sel = ("NPC", "npc"))
      /\ (selected_industry sel <> "General" ->
          selected_industry sel <> "general" ->
          fst (get_regulation_and_industry_for_loader sel) = "PDPPL"))
  /\ (forall fs st,
        selected_country sel = "Qatar" ->
        selected_industry sel = "General" \/ selected_industry sel = "general" ->
        dir_exists fs "NPC" = true ->
        file_exists fs "NPC" "npc.json" = true ->
        get_questionnaire fs st
          (fst (get_regulation_and_industry_for_loader sel))
          (snd (get_regulation_and_industry_for_loader sel))
        = match read_json fs "NPC" "npc.json" with
          | Ok questionnaire => questionnaire
          | Raise _ => empty_questionnaire
          end).
Proof.
  assert (Hnpc : selected_country sel = "Qatar" ->
                 selected_industry sel = "General"
                 \/ selected_industry sel = "general" ->
                 get_regulation_and_industry_for_loader sel = ("NPC", "npc")).
  { intros Hc Hi. unfold get_regulation_and_industry_for_loader.
    assert (Hn : normalized_industry sel = "General").
    { unfold normalized_industry. destruct Hi as [-> | ->]; reflexivity. }
    rewrite Hn, Hc. reflexivity. }
  split; [|split; [|split; [|split]]].
  - unfold get_regulation_and_industry_for_loader. cbn [snd].
    pose proof (normalized_industry_truthy sel) as Ht.
    unfold industry_file_map. cbn [Dict.get].
    repeat match goal with
           | |- context [String.eqb ?a ?b] => destruct (String.eqb a b)
           end; try discriminate.
    intros E. rewrite E in Ht. discriminate.
  - intros Hc. unfold get_regulation_and_industry_for_loader.
    rewrite Hc. reflexivity.
  - intros Hc. unfold get_regulation_and_industry_for_loader.
    rewrite Hc. reflexivity.
  - intros Hc. split; [now apply Hnpc|].
    intros H1 H2. unfold get_regulation_and_industry_for_loader.
    rewrite Hc. cbn [fst String.eqb Ascii.eqb Bool.eqb].
    assert (Hn : String.eqb (normalized_industry sel) "General" = false).
    { unfold normalized_industry.
      destruct (PyStr.truthy (selected_industry sel)); cbn [negb].
      - destruct (String.eqb (selected_industry sel) "general") eqn:E.
        + apply String.eqb_eq in E. contradiction.
        + now apply String.eqb_neq.
      - rewrite Hc. reflexivity. }
    now rewrite Hn.
  - intros fs st Hc Hi Hdir Hfile. rewrite (Hnpc Hc Hi). cbn [fst snd].
    unfold get_questionnaire, get_questionnaire_body.
    change (PyStr.upper (PyStr.strip "NPC")) with "NPC".
    rewrite Hdir. cbn [negb]. unfold resolve_file.
    cbn [String.eqb Ascii.eqb Bool.eqb]. rewrite Hfile. reflexivity.
Qed.

Lemma loader_selection_properties_witness :
  get_regulation_and_industry_for_loader (mkSelection "Qatar" "general" "")
  = ("NPC", "npc").
Proof.
  destruct (loader_selection_properties (mkSelection "Qatar" "general" ""))
    as (_ & _ & _ & H & _).
  destruct (H eq_refl) as [Hnpc _]. apply Hnpc. now right.
Defined.

(** ** Which file resolution reads *)

Lemma map_chars_append (f : ascii -> ascii) (a b : string) :
  PyStr.map_chars f (a +:+ b) = PyStr.map_chars f a +:+ PyStr.map_chars f b.
Proof.
  induction a as [|c a IH]; simpl; [reflexivity|]. now rewrite IH.
Qed.

Lemma endswith_append (a p : string) : PyStr.endswith (a +:+ p) p = true.
Proof.
  induction a as [|c a IH].
  - change ("" +:+ p) with p.
    destruct p; cbn [PyStr.endswith]; now rewrite String.eqb_refl.
  - change (String c a +:+ p) with (String c (a +:+ p)).
    cbn [PyStr.endswith]. rewrite IH. apply orb_true_r.
Qed.

Lemma filter_filter_implied {A} (P Q : A -> bool) (l : list A) :
  (forall x, Q x = true -> P x = true) ->
  List.filter Q (List.filter P l) = List.filter Q l.
Proof.
  intros H. induction l as [|x l IH]; simpl; [reflexivity|].
  destruct (P x) eqn:HP; simpl.
  - now rewrite IH.
  - destruct (Q x) eqn:HQ; [|exact IH].
    apply H in HQ. congruence.
Qed.

Lemma filter_head_find {A} (Q : A -> bool) (l : list A) (d : A) :
  match List.filter Q l with x :: _ => x | [] => d end
  = match List.find Q l with Some x => x | None => d end.
Proof.
  induction l as [|x l IH]; simpl; [reflexivity|].
  destruct (Q x); [reflexivity|exact IH].
Qed.

Section WhichFile.

Variable fs : FileSystem.
Variable st : SessionState.

(** The document read from a file of a regulation directory, the empty
    questionnaire standing for a failed read. *)
Definition load_or_empty (regulation found_file : string) : Questionnaire :=
  match read_json fs regulation found_file with
  | Ok questionnaire => questionnaire
  | Raise _ => empty_questionnaire
  end.

(** For PDPPL the requested industry is looked up exactly first, then
    among the directory entries without regard to case, the first
    matching entry winning; without a match Oil_and_Gas.json is read. If
    the directory cannot be listed the result is the empty
    questionnaire. *)
Theorem get_questionnaire_pdppl (regulation industry : string) :
  PyStr.upper (PyStr.strip regulation) = "PDPPL" ->
  dir_exists fs "PDPPL" = true ->
  let ind := PyStr.lower (PyStr.strip industry) in
  (file_exists fs "PDPPL" (ind +:+ ".json") = true ->
     get_questionnaire fs st regulation industry
     = load_or_empty "PDPPL" (ind +:+ ".json"))
  /\ (file_exists fs "PDPPL" (ind +:+ ".json") = false ->
      forall names, listdir fs "PDPPL" = Ok names ->
        get_questionnaire fs st regulation industry
        = load_or_empty "PDPPL"
            match List.find
                    (fun f => String.eqb (PyStr.lower f)
                                (PyStr.lower (ind +:+ ".json")))
                    names with
            | Some f => f
            | None => "Oil_and_Gas.json"
            end)
  /\ (file_exists fs "PDPPL" (ind +:+ ".json") = false ->
      forall e, listdir fs "PDPPL" = Raise e ->
        get_questionnaire fs st regulation industry = empty_questionnaire).
Proof.
  intros Hreg Hdir ind.
  unfold get_questionnaire, get_questionnaire_body, load_or_empty.
  rewrite Hreg, Hdir. cbn [negb]. fold ind.
  unfold resolve_file. cbn [String.eqb Ascii.eqb Bool.eqb].
  split; [|split].
  - intros ->. reflexivity.
  - intros -> names ->. cbn [mbind pyresult_bind].
    rewrite filter_filter_implied.
    + rewrite <- (filter_head_find _ names "Oil_and_Gas.json").
      destruct (List.filter _ names); reflexivity.
    + intros f Hf. apply String.eqb_eq in Hf. rewrite Hf.
      unfold PyStr.lower. rewrite map_chars_append.
      apply endswith_append.
  - intros -> e ->. reflexivity.
Qed.

(** For every other regulation than PDPPL and NPC the file read is the
    lower-cased industry name when such a file exists, and else
    General.json (OAIC) or "Banking and finance.json". *)
Theorem get_questionnaire_default_file (regulation industry : string) :
  let reg := PyStr.upper (PyStr.strip regulation) in
  let ind := PyStr.lower (PyStr.strip industry) in
  reg <> "PDPPL" -> reg <> "NPC" ->
  dir_exists fs reg = true ->
  get_questionnaire fs st regulation industry
  = load_or_empty reg
      (if file_exists fs reg (ind +:+ ".json") then ind +:+ ".json"
       else if String.eqb reg "OAIC" then "General.json"
       else "Banking and finance.json").
Proof.
  intros reg ind H1 H2 Hdir.
  unfold get_questionnaire, get_questionnaire_body, load_or_empty.
  fold reg. fold ind. rewrite Hdir. cbn [negb]. unfold resolve_file.
  apply String.eqb_neq in H1, H2. rewrite H1, H2.
  destruct (String.eqb reg "OAIC");
    destruct (file_exists fs reg (ind +:+ ".json")); reflexivity.
Qed.

End WhichFile.

(** A PDPPL collection on a case-sensitive store. *)
Definition pdppl_store : FileSystem :=
  mkFileSystem (fun d => String.eqb d "PDPPL")
               (fun d f => String.eqb d "PDPPL"
                           && (String.eqb f "Oil_and_Gas.json"
                               || String.eqb f "Banking.json"))
               (fun _ => Ok ["Banking.json"; "Oil_and_Gas.json"])
               (fun d f =>
                  if String.eqb d "PDPPL" && String.eqb f "Banking.json"
                  then Ok npc_document else Raise OSError).

Lemma get_questionnaire_pdppl_witness :
  get_questionnaire pdppl_store fresh_session "pdppl" " Banking "
  = npc_document.
Proof.
  destruct (get_questionnaire_pdppl pdppl_store fresh_session "pdppl" " Banking ")
    as (_ & H & _); [reflexivity|reflexivity|].
  apply (H eq_refl ["Banking.json"; "Oil_and_Gas.json"] eq_refl).
Defined.

Lemma get_questionnaire_default_file_witness :
  get_questionnaire empty_dpdp_store fresh_session "DPDP" "Retail"
  = load_or_empty empty_dpdp_store "DPDP" "Banking and finance.json".
Proof.
  apply (get_questionnaire_default_file empty_dpdp_store fresh_session
           "DPDP" "Retail"); [discriminate|discriminate|reflexivity].
Defined.

(** ** questionnaire_loader.py: validate_questionnaire_structure and
       load_questionnaire *)

(** A record question must carry ["id"], ["text"] and ["options"]; the
    last two are always present in [QRecord]. A plain string is valid. *)
Definition question_has_required_keys (question : Question) : bool :=
  match question with
  | QPlain _ => true
  | QRecord (Some _) _ _ _ => true
  | QRecord None _ _ _ => false
  end.

(** Every [Section] carries ["name"] and ["questions"], so the
    required-key test of a section is the presence of ["weight"]. The
    final test on the weight total only logs: both of its branches
    return [True]. *)
Definition validate_questionnaire_structure (questionnaire : Questionnaire)
    : bool :=
  match q_sections questionnaire with
  | [] => false
  | sections =>
      forallb (fun section =>
                 weight_is_valid (sec_weight section)
                 && forallb question_has_required_keys (sec_questions section))
              sections
  end.

Definition is_alnum (c : ascii) : bool :=
  PyStr.is_upper c || PyStr.is_lower c
  || ((48 <=? nat_of_ascii c)%nat && (nat_of_ascii c <=? 57)%nat).

(** [''.join(c for c in s if c.isalnum())] *)
Fixpoint keep_alnum (s : string) : string :=
  match s with
  | EmptyString => EmptyString
  | String c s' => if is_alnum c then String c (keep_alnum s') else keep_alnum s'
  end.

(** What [load_questionnaire] returns: a document, the empty dict [{}],
    or nothing at all (the function falls off its end). *)
Inductive LoadResult : Type :=
| LoadedDocument (questionnaire : Questionnaire)
| EmptyDict
| ReturnedNone.

(** The sanitised names contain no path separator, so the path check
    before the [try] block cannot fail. *)
Definition load_questionnaire (fs : FileSystem) (regulation industry : string)
    : LoadResult :=
  let regulation := keep_alnum regulation in
  let industry := keep_alnum industry in
  if negb (file_exists fs regulation (industry +:+ ".json")) then EmptyDict
  else
    match read_json fs regulation (industry +:+ ".json") with
    | Raise _ => EmptyDict
    | Ok questionnaire =>
        if validate_questionnaire_structure questionnaire
        then LoadedDocument questionnaire
        else
          match fix_questionnaire_weights questionnaire with
          | Some fixed_questionnaire => LoadedDocument fixed_questionnaire
          | None => ReturnedNone
          end
    end.

Lemma keep_alnum_idem (s : string) : keep_alnum (keep_alnum s) = keep_alnum s.
Proof.
  induction s as [|c s IH]; simpl; [reflexivity|].
  destruct (is_alnum c) eqn:E; simpl; [now rewrite E, IH|exact IH].
Qed.

Lemma validate_all_weights_valid (questionnaire : Questionnaire) :
  validate_questionnaire_structure questionnaire = true ->
  q_sections questionnaire <> [] /\ all_weights_valid questionnaire.
Proof.
  unfold validate_questionnaire_structure, all_weights_valid.
  destruct (q_sections questionnaire) as [|s ss]; [discriminate|].
  intros H. split; [discriminate|].
  rewrite forallb_forall in H. apply List.Forall_forall.
  intros x Hx. specialize (H x Hx). now apply andb_true_iff in H.
Qed.

(** A document returned by [load_questionnaire] has at least one section
    and only positive numeric weights, whether it passed validation or
    was repaired; nothing is returned ([None]) exactly for a readable
    document without sections; and the selectors count only through
    their alphanumeric characters. *)
Theorem load_questionnaire_weights_valid (fs : FileSystem)
    (regulation industry : string) :
  (forall questionnaire,
     load_questionnaire fs regulation industry = LoadedDocument questionnaire ->
     q_sections questionnaire <> [] /\ all_weights_valid questionnaire)
  /\ (load_questionnaire fs regulation industry = ReturnedNone <->
      exists questionnaire,
        file_exists fs (keep_alnum regulation) (keep_alnum industry +:+ ".json")
        = true
        /\ read_json fs (keep_alnum regulation) (keep_alnum industry +:+ ".json")
           = Ok questionnaire
        /\ q_sections questionnaire = [])
  /\ load_questionnaire fs (keep_alnum regulation) (keep_alnum industry)
     = load_questionnaire fs regulation industry.
Proof.
  split; [|split].
  - intros q. unfold load_questionnaire.
    destruct (file_exists _ _ _); cbn [negb]; [|discriminate].
    destruct (read_json _ _ _) as [doc|]; [|discriminate].
    destruct (validate_questionnaire_structure doc) eqn:Hv.
    + intros H. injection H as <-. now apply validate_all_weights_valid.
    + destruct (fix_questionnaire_weights doc) as [fixed|] eqn:Hfix;
        [|discriminate].
      intros H. injection H as <-.
      destruct (repaired_questionnaire_shape doc fixed Hfix)
        as (Hne & Hvalid & _). split; assumption.
  - unfold load_questionnaire.
    destruct (file_exists _ _ _); cbn [negb];
      [|split; [discriminate|intros (q & H & _); discriminate]].
    destruct (read_json _ _ _) as [doc|];
      [|split; [discriminate|intros (q & _ & H & _); discriminate]].
    destruct (validate_questionnaire_structure doc) eqn:Hv.
    + split; [discriminate|].
      intros (q & _ & H & Hq). injection H as <-.
      unfold validate_questionnaire_structure in Hv. rewrite Hq in Hv.
      discriminate.
    + unfold fix_questionnaire_weights.
      destruct (q_sections doc) as [|s ss] eqn:Hs.
      * split; [intros _; exists doc; auto|reflexivity].
      * destruct (_ && _);
          (split; [discriminate|intros (q & _ & H & Hq)]);
          injection H as <-; congruence.
  - unfold load_questionnaire. now rewrite !keep_alnum_idem.
Qed.

(** A store holding one document with a missing weight. *)
Definition unweighted_store : FileSystem :=
  mkFileSystem (fun d => String.eqb d "DPDP")
               (fun d f => String.eqb d "DPDP" && String.eqb f "Retail.json")
               (fun _ => Ok ["Retail.json"])
               (fun d f =>
                  if String.eqb d "DPDP" && String.eqb f "Retail.json"
                  then Ok absent_weight_questionnaire else Raise OSError).

Lemma load_questionnaire_weights_valid_witness :
  exists questionnaire,
    load_questionnaire unweighted_store "DPDP" "Re-tail"
    = LoadedDocument questionnaire
    /\ all_weights_valid questionnaire.
Proof.
  destruct (load_questionnaire unweighted_store "DPDP" "Re-tail")
    as [questionnaire| |] eqn:E; try (vm_compute in E; discriminate).
  exists questionnaire. split; [reflexivity|].
  destruct (load_questionnaire_weights_valid unweighted_store "DPDP" "Re-tail")
    as (H & _).
  apply (H questionnaire E).
Defined.

(** The synthesized fallback questionnaire does not pass validation (its
    sample questions carry no ["id"]), yet a stored copy of it is loaded
    as it is: the repair that follows a failed validation leaves it
    unchanged. *)
Theorem fallback_fails_validation (regulation_code industry_code : string) :
  let fallback :=
    minimal_questionnaire (fallback_section_names regulation_code industry_code) in
  validate_questionnaire_structure fallback = false
  /\ forall fs regulation industry,
       file_exists fs (keep_alnum regulation) (keep_alnum industry +:+ ".json")
       = true ->
       read_json fs (keep_alnum regulation) (keep_alnum industry +:+ ".json")
       = Ok fallback ->
       load_questionnaire fs regulation industry = LoadedDocument fallback.
Proof.
  intros fallback.
  assert (Hv : validate_questionnaire_structure fallback = false).
  { subst fallback. unfold validate_questionnaire_structure, minimal_questionnaire.
    cbn [q_sections].
    destruct (fallback_section_names regulation_code industry_code)
      as [|name names]; [reflexivity|].
    cbn [map forallb sec_weight sec_questions question_has_required_keys].
    now rewrite andb_false_r. }
  split; [exact Hv|].
  intros fs regulation industry Hfile Hread.
  unfold load_questionnaire. rewrite Hfile, Hread. cbn [negb]. rewrite Hv.
  subst fallback.
  destruct (fallback_passes_weight_repair_aux regulation_code industry_code)
    as (_ & _ & ->).
  reflexivity.
Qed.

Definition fallback_store : FileSystem :=
  mkFileSystem (fun _ => true) (fun _ _ => true) (fun _ => Ok [])
               (fun _ _ =>
                  Ok (minimal_questionnaire (fallback_section_names "DPDP" "retail"))).

Lemma fallback_fails_validation_witness :
  load_questionnaire fallback_store "DPDP" "retail"
  = LoadedDocument (minimal_questionnaire (fallback_section_names "DPDP" "retail")).
Proof.
  destruct (fallback_fails_validation "DPDP" "retail") as [_ H].
  apply H; reflexivity.
Defined.

(** ** helpers.py: get_progress_percentage and
       get_section_progress_percentage *)

(** [min(a, b)]: [b] only when it is strictly smaller. *)
Definition py_min (a b : Q) : Q := if Qlt_bool b a then b else a.

Definition stored (responses : gmap string (option string)) (key : string)
    : bool :=
  match responses !! key with Some _ => true | None => false end.

Definition get_progress_percentage (fs : FileSystem) (st : SessionState)
    : pyresult Q :=
  let '(regulation, industry) := ss_loader_selection st in
  let sections := q_sections (get_questionnaire fs st regulation industry) in
  let total_questions :=
    list_sum (map (fun section => length (sec_questions section)) sections) in
  match ss_responses st with
  | None => Raise AttributeError
  | Some responses =>
      let answered_questions := size responses in
      if (total_questions =? 0)%nat then Ok 0%Q
      else Ok (py_min 100 (Qnat answered_questions / Qnat total_questions * 100))%Q
  end.

(** [current_section] is the non-negative section counter of the
    session. With no question in the section the loop over the
    questions does not run and the responses are not read. *)
Definition get_section_progress_percentage (fs : FileSystem)
    (st : SessionState) (current_section : nat) : pyresult Q :=
  let '(regulation, industry) := ss_loader_selection st in
  let sections := q_sections (get_questionnaire fs st regulation industry) in
  match sections !! current_section with
  | None => Ok 100%Q
  | Some section =>
      let total_questions := length (sec_questions section) in
      match total_questions with
      | O => Ok 0%Q
      | S _ =>
          match ss_responses st with
          | None => Raise AttributeError
          | Some responses =>
              let answered_questions :=
                length (List.filter
                          (fun q_idx =>
                             stored responses (response_key current_section q_idx))
                          (seq 0 total_questions)) in
              Ok (py_min (Qnat answered_questions / Qnat total_questions * 100)
                         100)%Q
          end
      end
  end.

Section Progress.

Local Open Scope Q_scope.

Lemma Qnat_inj (n m : nat) : Qnat n == Qnat m -> n = m.
Proof. unfold Qnat, Qeq. simpl. lia. Qed.

Lemma ratio_percent_bounds (c t : nat) :
  (0 < t)%nat ->
  0 <= Qnat c / Qnat t * 100
  /\ ((c <= t)%nat -> Qnat c / Qnat t * 100 <= 100)
  /\ (Qnat c / Qnat t * 100 == 100 <-> c = t).
Proof.
  intros Ht. pose proof (Qnat_positive t Ht) as Hpos.
  pose proof (Qnat_nonneg c) as Hc.
  assert (H0 : 0 <= Qnat c / Qnat t).
  { apply Qle_shift_div_l; [exact Hpos|]. lra. }
  split; [lra|]. split.
  - intros Hle. apply Qnat_le in Hle.
    assert (Qnat c / Qnat t <= 1) by (apply Qle_shift_div_r; [exact Hpos|lra]).
    lra.
  - split.
    + intros H. apply Qnat_inj.
      assert (Hq : Qnat c / Qnat t == 1) by lra.
      assert (Hc' : Qnat c == Qnat c / Qnat t * Qnat t) by (field; lra).
      rewrite Hc', Hq. ring.
    + intros ->. field. lra.
Qed.

Lemma py_min_spec (a b : Q) :
  py_min a b <= a /\ py_min a b <= b /\ (py_min a b = a \/ py_min a b = b).
Proof.
  unfold py_min. destruct (Qlt_bool b a) eqn:E.
  - apply Qlt_bool_iff in E. repeat split; auto; lra.
  - apply Qlt_bool_false_iff in E. repeat split; auto; lra.
Qed.

Lemma py_min_below (x : Q) : x <= 100 -> py_min x 100 = x.
Proof.
  intros H. unfold py_min. apply Qlt_bool_false_iff in H. now rewrite H.
Qed.

Lemma stored_all (responses : gmap string (option string)) (s_idx total : nat) :
  length (List.filter (fun q_idx => stored responses (response_key s_idx q_idx))
                      (seq 0 total)) = total
  <-> forall j, (j < total)%nat -> responses !! response_key s_idx j <> None.
Proof.
  pose proof (filter_length_all
                (fun q_idx => stored responses (response_key s_idx q_idx))
                (seq 0 total)) as Hall.
  rewrite length_seq in Hall. rewrite Hall, forallb_forall. split.
  - intros H j Hj. specialize (H j). unfold stored in H.
    destruct (responses !! response_key s_idx j); [discriminate|].
    assert (false = true); [|discriminate].
    apply H. apply in_seq. lia.
  - intros H j Hj. apply in_seq in Hj. unfold stored.
    destruct (responses !! response_key s_idx j) eqn:E; [reflexivity|].
    exfalso. apply (H j); [lia|exact E].
Qed.

(** With responses in the session both progress figures are returned and
    lie in [0, 100]. The progress of a section with questions is 100
    exactly when every question has a stored response; a stored [None]
    counts, so a section can be at 100 while the scorer leaves it
    unscored. *)
Theorem progress_percentages (fs : FileSystem) (st : SessionState)
    (current_section : nat) (responses : gmap string (option string)) :
  ss_responses st = Some responses ->
  let sections :=
    q_sections (get_questionnaire fs st (fst (ss_loader_selection st))
                  (snd (ss_loader_selection st))) in
  (exists p, get_progress_percentage fs st = Ok p /\ 0 <= p /\ p <= 100)
  /\ (exists p, get_section_progress_percentage fs st current_section = Ok p
                /\ 0 <= p /\ p <= 100)
  /\ (forall section,
        sections !! current_section = Some section ->
        sec_questions section <> [] ->
        exists p,
          get_section_progress_percentage fs st current_section = Ok p
          /\ (p == 100 <->
              forall j, (j < length (sec_questions section))%nat ->
                responses !! response_key current_section j <> None))
  /\ (forall section answer_points,
        sections !! current_section = Some section ->
        sec_questions section <> [] ->
        (forall j, (j < length (sec_questions section))%nat ->
           responses !! response_key current_section j = Some None) ->
        (exists p,
           get_section_progress_percentage fs st current_section = Ok p
           /\ p == 100)
        /\ fst (score_section answer_points responses current_section section)
           = None).
Proof.
  intros Hresp sections.
  unfold get_progress_percentage, get_section_progress_percentage.
  destruct (ss_loader_selection st) as [regulation industry] eqn:Hsel.
  cbn [fst snd] in sections. fold sections. rewrite Hresp.
  assert (Hsection : forall section,
            sec_questions section <> [] ->
            let total := length (sec_questions section) in
            let answered :=
              length (List.filter
                        (fun q_idx =>
                           stored responses (response_key current_section q_idx))
                        (seq 0 total)) in
            (0 < total)%nat /\ (answered <= total)%nat
            /\ match total with
               | O => Ok 0
               | S _ => Ok (py_min (Qnat answered / Qnat total * 100) 100)
               end = Ok (Qnat answered / Qnat total * 100)).
  { intros section Hq total answered.
    assert (Ht : (0 < total)%nat).
    { subst total. destruct (sec_questions section); [congruence|simpl; lia]. }
    assert (Ha : (answered <= total)%nat).
    { subst answered.
      pose proof (filter_length_le
                    (fun q_idx =>
                       stored responses (response_key current_section q_idx))
                    (seq 0 total)) as Hle.
      now rewrite length_seq in Hle. }
    split; [exact Ht|]. split; [exact Ha|].
    destruct total as [|t] eqn:E; [lia|].
    rewrite py_min_below; [reflexivity|].
    now apply ratio_percent_bounds. }
  split; [|split; [|split]].
  - destruct (_ =? 0)%nat eqn:E.
    + exists 0. repeat split; discriminate.
    + apply Nat.eqb_neq in E. eexists. split; [reflexivity|].
      destruct (py_min_spec 100
                  (Qnat (size responses)
                   / Qnat (list_sum
                             (map (fun section => length (sec_questions section))
                                  sections)) * 100)) as (Ha & _ & [Hp | Hp]).
      * rewrite Hp. split; discriminate.
      * split; [rewrite Hp; apply ratio_percent_bounds; lia|exact Ha].
  - destruct (sections !! current_section) as [section|] eqn:Hs.
    + assert (Hcases : sec_questions section = [] \/ sec_questions section <> []).
      { destruct (sec_questions section); [left|right]; congruence. }
      destruct Hcases as [Hq|Hq].
      * rewrite Hq. exists 0. repeat split; discriminate.
      * destruct (Hsection section Hq) as (Ht & Ha & Hrun).
        rewrite Hrun. eexists. split; [reflexivity|].
        destruct (ratio_percent_bounds
                    (length (List.filter
                               (fun q_idx =>
                                  stored responses
                                    (response_key current_section q_idx))
                               (seq 0 (length (sec_questions section)))))
                    (length (sec_questions section)) Ht) as (B0 & B1 & _).
        split; [exact B0|now apply B1].
    + exists 100. repeat split; discriminate.
  - intros section Hs Hq. rewrite Hs.
    destruct (Hsection section Hq) as (Ht & Ha & Hrun).
    rewrite Hrun. eexists. split; [reflexivity|].
    destruct (ratio_percent_bounds
                (length (List.filter
                           (fun q_idx =>
                              stored responses (response_key current_section q_idx))
                           (seq 0 (length (sec_questions section)))))
                (length (sec_questions section)) Ht) as (_ & _ & Hiff).
    rewrite Hiff. apply stored_all.
  - intros section answer_points Hs Hq Hnone. rewrite Hs. split.
    + destruct (Hsection section Hq) as (Ht & Ha & Hrun).
      rewrite Hrun.
      assert (Hall : length (List.filter
                               (fun q_idx =>
                                  stored responses
                                    (response_key current_section q_idx))
                               (seq 0 (length (sec_questions section))))
                     = length (sec_questions section)).
      { apply stored_all. intros j Hj. rewrite (Hnone j Hj). discriminate. }
      rewrite Hall. eexists. split; [reflexivity|].
      now apply ratio_percent_bounds.
    + apply score_section_unanswered. intros j Hj. right. now apply Hnone.
Qed.

End Progress.

Lemma progress_percentages_witness :
  exists p,
    get_section_progress_percentage no_store fresh_session 0 = Ok p
    /\ (0 <= p)%Q /\ (p <= 100)%Q.
Proof.
  destruct (progress_percentages no_store fresh_session 0 ∅ eq_refl)
    as (_ & H & _).
  exact H.
Defined.

(** ** recommendation_engine.py: organize_recommendations_by_priority *)

Record PriorityItem : Type := mkPriorityItem {
  item_section : string;
  item_score : Q;                      (* score * 100 *)
  item_recommendations : list string
}.

(** The dict with the three keys ['high'], ['medium'] and ['low']. *)
Record Organized : Type := mkOrganized {
  org_high : list PriorityItem;
  org_medium : list PriorityItem;
  org_low : list PriorityItem
}.

(** [organized[priority].append(item)]; the priority is one of the three
    keys. *)
Definition append_item (organized : Organized) (priority : string)
    (item : PriorityItem) : Organized :=
  if String.eqb priority "high" then
    mkOrganized (org_high organized ++ [item]) (org_medium organized)
                (org_low organized)
  else if String.eqb priority "medium" then
    mkOrganized (org_high organized) (org_medium organized ++ [item])
                (org_low organized)
  else
    mkOrganized (org_high organized) (org_medium organized)
                (org_low organized ++ [item]).

Fixpoint organize_loop (recommendations : Dict.t (list string))
    (entries : Dict.t (option Q)) (organized : Organized) : Organized :=
  match entries with
  | [] => organized
  | (section, score) :: rest =>
      organize_loop recommendations rest
        match score with
        | None => organized
        | Some score =>
            let priority := get_recommendation_priority score in
            match Dict.get recommendations section with
            | None | Some [] => organized
            | Some recs =>
                append_item organized priority
                  (mkPriorityItem section (score * 100)%Q recs)
            end
        end
  end.

Definition organize_recommendations_by_priority (results : ScoreResult)
    : Organized :=
  organize_loop (recommendations results) (section_scores results)
    (mkOrganized [] [] []).

Section Organize.

Local Open Scope Q_scope.

(** The table holds a non-empty list for the name. *)
Definition has_recommendations (recs : Dict.t (list string)) (name : string)
    : Prop :=
  exists l, Dict.get recs name = Some l /\ l <> [].

Lemma has_recommendations_set (recs : Dict.t (list string))
    (name k : string) (l : list string) :
  l <> [] -> has_recommendations recs name ->
  has_recommendations (Dict.set recs k l) name.
Proof.
  intros Hl (l0 & Hget & Hne). unfold has_recommendations.
  destruct (String.eqb k name) eqn:E.
  - apply String.eqb_eq in E. subst k. exists l.
    now rewrite DictFacts.get_set_eq.
  - apply String.eqb_neq in E. exists l0.
    now rewrite DictFacts.get_set_ne.
Qed.

Lemma generic_recommendations_nonempty (name : string) (v : Q) :
  v < 75 # 100 -> generic_recommendations name v <> [].
Proof.
  intros Hv. unfold generic_recommendations.
  destruct (Qlt_bool v (6 # 10)); [discriminate|].
  apply Qlt_bool_iff in Hv. rewrite Hv. discriminate.
Qed.

Lemma recommendations_loop_covers (responses : gmap string (option string))
    (scores : Dict.t (option Q)) (sections : list Section) :
  forall s_idx recs out,
    recommendations_loop responses scores s_idx sections recs = Ok out ->
    forall name,
      has_recommendations recs name
      \/ (In name (map sec_name sections)
          /\ exists v, get_score scores name = Some v /\ v < 75 # 100) ->
      has_recommendations out name.
Proof.
  induction sections as [|s ss IH]; intros s_idx recs out Hrun name Hname;
    cbn [recommendations_loop] in Hrun.
  - injection Hrun as <-. destruct Hname as [H|[[] _]]. exact H.
  - destruct (get_score scores (sec_name s)) as [score|] eqn:Hscore.
    + destruct (question_recommendations responses s_idx 0 (sec_questions s) [])
        as [specific|e]; cbn [mbind pyresult_bind] in Hrun; [|discriminate].
      set (section_recommendations :=
             match specific with
             | [] => generic_recommendations (sec_name s) score
             | _ => specific
             end) in *.
      apply (IH _ _ _ Hrun).
      destruct Hname as [H|[[Hhere|Hin] (v & Hv & Hlt)]].
      * left. destruct section_recommendations eqn:E; [exact H|].
        apply has_recommendations_set; [discriminate|exact H].
      * left. subst name. rewrite Hscore in Hv. injection Hv as ->.
        assert (Hne : section_recommendations <> []).
        { subst section_recommendations.
          destruct specific; [now apply generic_recommendations_nonempty|discriminate]. }
        destruct section_recommendations as [|r rs] eqn:E; [congruence|].
        exists (r :: rs). split; [apply DictFacts.get_set_eq|discriminate].
      * right. split; [exact Hin|eauto].
    + apply (IH _ _ _ Hrun).
      destruct Hname as [H|[[Hhere|Hin] (v & Hv & Hlt)]].
      * now left.
      * subst name. congruence.
      * right. split; [exact Hin|eauto].
Qed.

Lemma section_scores_loop_keys (answer_points : AnswerPoints)
    (responses : gmap string (option string)) (sections : list Section) :
  forall s_idx scores lg name,
    In name (Dict.keys (fst (section_scores_loop answer_points responses s_idx
                               sections scores lg))) ->
    In name (Dict.keys scores) \/ In name (map sec_name sections).
Proof.
  induction sections as [|s ss IH]; intros s_idx scores lg name Hin;
    cbn [section_scores_loop] in Hin; [now left|].
  destruct (score_section answer_points responses s_idx s) as [score lg'].
  apply IH in Hin. destruct Hin as [Hin|Hin]; [|right; now right].
  apply in_keys_set in Hin. destruct Hin as [->|Hin]; [right; now left|now left].
Qed.

Lemma organize_loop_high (recs : Dict.t (list string))
    (entries : Dict.t (option Q)) :
  (forall name v, In (name, Some v) entries -> v < 6 # 10 ->
                  has_recommendations recs name) ->
  forall organized,
    map item_section (org_high (organize_loop recs entries organized))
    = map item_section (org_high organized) ++ sections_below (6 # 10) entries.
Proof.
  induction entries as [|[name score] rest IH]; intros Hrecs organized;
    cbn [organize_loop].
  - cbn. now rewrite app_nil_r.
  - assert (Hrest : forall name' v, In (name', Some v) rest -> v < 6 # 10 ->
                                    has_recommendations recs name').
    { intros name' v Hin. apply Hrecs. now right. }
    rewrite (IH Hrest). unfold sections_below. cbn [List.filter map snd fst].
    destruct score as [v|]; [|reflexivity].
    destruct (Qlt_bool v (6 # 10)) eqn:Hlt.
    + destruct (Hrecs name v (or_introl eq_refl)) as (l & Hget & Hne);
        [now apply Qlt_bool_iff|].
      rewrite Hget. destruct l as [|r rs]; [congruence|].
      unfold append_item, get_recommendation_priority. rewrite Hlt.
      cbn [String.eqb Ascii.eqb Bool.eqb org_high map].
      rewrite map_app, <- app_assoc. reflexivity.
    + assert (Hkeep : forall item,
                org_high (append_item organized (get_recommendation_priority v)
                            item) = org_high organized).
      { intros item. unfold append_item, get_recommendation_priority.
        rewrite Hlt. destruct (Qlt_bool v (75 # 100)); reflexivity. }
      destruct (Dict.get recs name) as [[|r rs]|]; try reflexivity.
      now rewrite Hkeep.
Qed.

End Organize.

(** Composition with the scorer: for a returned result, the sections of
    the 'high' bucket are exactly its high-risk areas, in the same
    order; each of them has recommendations. *)
Theorem organize_high_is_high_risk (questionnaire : Questionnaire)
    (responses : gmap string (option string))
    (regulation_code industry_code : string) (result : ScoreResult)
    (lg : list LogRecord) :
  score_questionnaire questionnaire responses regulation_code industry_code
  = Ok (result, lg) ->
  map item_section (org_high (organize_recommendations_by_priority result))
  = high_risk_areas result
  /\ forall name, In name (high_risk_areas result) ->
                  has_recommendations (recommendations result) name.
Proof.
  intros Hrun.
  destruct (score_questionnaire_fields _ _ _ _ _ _ Hrun) as (Hs & Hh & _).
  assert (Hrecs : forall name v,
            In (name, Some v) (section_scores result) -> (v < 75 # 100)%Q ->
            has_recommendations (recommendations result) name).
  { intros name v Hin Hlt.
    assert (Hkeys : List.NoDup (Dict.keys (section_scores result))).
    { rewrite Hs. unfold compute_section_scores.
      apply section_scores_loop_nodup. constructor. }
    assert (Hget : get_score (section_scores result) name = Some v).
    { unfold get_score. now rewrite (get_of_nodup_entry _ _ _ Hkeys Hin). }
    assert (Hname : In name (map sec_name (q_sections questionnaire))).
    { assert (Hk : In name (Dict.keys (section_scores result))).
      { unfold Dict.keys. apply in_map_iff. exists (name, Some v). auto. }
      rewrite Hs in Hk. unfold compute_section_scores in Hk.
      apply section_scores_loop_keys in Hk. destruct Hk as [[]|Hk]. exact Hk. }
    revert Hrun. unfold score_questionnaire.
    rewrite Hs in Hget. unfold compute_section_scores in Hget.
    destruct (section_scores_loop _ _ _ _ _ _) as [sc lg0]. cbn [fst] in Hget.
    destruct (weighted_loop _ _ _ _); cbn [mbind pyresult_bind]; [|discriminate].
    destruct (recommendations_loop _ _ _ _ _) as [out|] eqn:Hloop;
      cbn [mbind pyresult_bind]; [|discriminate].
    intros H. injection H as <- _. cbn [recommendations].
    apply (recommendations_loop_covers _ _ _ _ _ _ Hloop).
    right. split; [exact Hname|eauto]. }
  split.
  - unfold organize_recommendations_by_priority.
    rewrite organize_loop_high; [cbn [org_high map app]; now rewrite Hh, Hs|].
    intros name v Hin Hlt. apply (Hrecs name v Hin). lra.
  - intros name Hin. rewrite Hh, <- Hs in Hin.
    unfold sections_below in Hin. apply in_map_iff in Hin.
    destruct Hin as ([k o] & Hk & Hin). cbn in Hk. subst k.
    apply filter_In in Hin. destruct Hin as [Hin Hv]. cbn in Hv.
    destruct o as [v|]; [|discriminate].
    apply Qlt_bool_iff in Hv. apply (Hrecs name v Hin). lra.
Qed.

Lemma organize_high_is_high_risk_witness :
  exists result lg,
    score_questionnaire mixed_questionnaire mixed_responses "DPDP" "retail"
    = Ok (result, lg)
    /\ map item_section (org_high (organize_recommendations_by_priority result))
       = high_risk_areas result.
Proof.
  destruct (score_questionnaire mixed_questionnaire mixed_responses
              "DPDP" "retail") as [[result lg]|e] eqn:E;
    [|vm_compute in E; discriminate].
  exists result, lg. split; [reflexivity|].
  apply (organize_high_is_high_risk _ _ _ _ _ _ E).
Defined.

(** ** Response keys *)

From Stdlib Require Import DecimalNat.

Fixpoint has_char (c : ascii) (s : string) : bool :=
  match s with
  | EmptyString => false
  | String d s' => Ascii.eqb c d || has_char c s'
  end.

Lemma string_of_uint_no_underscore (d : Decimal.uint) :
  has_char "_" (NilEmpty.string_of_uint d) = false.
Proof. induction d; simpl; auto. Qed.

Lemma of_nat_inj (n m : nat) : PyStr.of_nat n = PyStr.of_nat m -> n = m.
Proof.
  unfold PyStr.of_nat. intros H.
  apply Unsigned.to_uint_inj.
  pose proof (NilEmpty.usu (Nat.to_uint n)) as Hn.
  pose proof (NilEmpty.usu (Nat.to_uint m)) as Hm.
  rewrite H in Hn. rewrite Hn in Hm. now injection Hm.
Qed.

Lemma split_at_underscore (x x' y y' : string) :
  has_char "_" x = false -> has_char "_" x' = false ->
  x +:+ String "_" y = x' +:+ String "_" y' ->
  x = x' /\ y = y'.
Proof.
  revert x'. induction x as [|c x IH]; intros [|c' x'] Hx Hx' H; cbn in H.
  - injection H as ->. auto.
  - injection H as <- _. cbn in Hx'. discriminate.
  - injection H as -> _. cbn in Hx. discriminate.
  - injection H as -> H. cbn in Hx, Hx'.
    apply orb_false_iff in Hx, Hx'.
    destruct (IH x' (proj2 Hx) (proj2 Hx') H) as [-> ->]. auto.
Qed.

(** Two questions share a response key only if they are the same
    question of the same section. *)
Theorem response_key_injective (s_idx q_idx s_idx' q_idx' : nat) :
  response_key s_idx q_idx = response_key s_idx' q_idx'
  <-> s_idx = s_idx' /\ q_idx = q_idx'.
Proof.
  split; [|intros [-> ->]; reflexivity].
  unfold response_key. intros H. cbn in H. injection H as H.
  apply split_at_underscore in H;
    try (unfold PyStr.of_nat; apply string_of_uint_no_underscore).
  destruct H as [Hs Hq]. injection Hq as Hq.
  split; now apply of_nat_inj.
Qed.

(** ** The section-score table has one entry per section *)

Lemma keys_set_absent {V} (d : Dict.t V) (k : string) (v : V) :
  ~ In k (Dict.keys d) -> Dict.keys (Dict.set d k v) = Dict.keys d ++ [k].
Proof.
  unfold Dict.keys. induction d as [|[k' v'] d IH]; simpl; intros Hnot;
    [reflexivity|].
  destruct (String.eqb k' k) eqn:E.
  - apply String.eqb_eq in E. exfalso. apply Hnot. now left.
  - simpl. f_equal. apply IH. intros Hin. apply Hnot. now right.
Qed.

Lemma keys_set_incl {V} (d : Dict.t V) (k x : string) (v : V) :
  x = k \/ In x (Dict.keys d) -> In x (Dict.keys (Dict.set d k v)).
Proof.
  unfold Dict.keys. induction d as [|[k' v'] d IH]; simpl.
  - intros [->|[]]. now left.
  - destruct (String.eqb k' k) eqn:E; simpl.
    + apply String.eqb_eq in E. subst k'. intros [->|[H|H]]; auto.
    + intros [H|[H|H]]; auto.
Qed.

Lemma section_scores_loop_keys_nodup (answer_points : AnswerPoints)
    (responses : gmap string (option string)) (sections : list Section) :
  forall s_idx scores lg,
    List.NoDup (map sec_name sections) ->
    (forall name, In name (map sec_name sections) ->
                  ~ In name (Dict.keys scores)) ->
    Dict.keys (fst (section_scores_loop answer_points responses s_idx sections
                      scores lg))
    = Dict.keys scores ++ map sec_name sections.
Proof.
  induction sections as [|s ss IH]; intros s_idx scores lg Hnd Hfresh;
    cbn [section_scores_loop map].
  - now rewrite app_nil_r.
  - apply List.NoDup_cons_iff in Hnd. destruct Hnd as [Hnot Hnd].
    destruct (score_section answer_points responses s_idx s) as [score lg'].
    assert (Hk : Dict.keys (Dict.set scores (sec_name s) score)
                 = Dict.keys scores ++ [sec_name s]).
    { apply keys_set_absent. apply Hfresh. now left. }
    rewrite IH, Hk; [now rewrite <- app_assoc|exact Hnd|].
    intros name Hin. rewrite Hk. intros Hc. apply in_app_or in Hc.
    destruct Hc as [Hc|[<-|[]]]; [|contradiction].
    apply (Hfresh name); [now right|exact Hc].
Qed.

Lemma section_scores_loop_has_key (answer_points : AnswerPoints)
    (responses : gmap string (option string)) (sections : list Section) :
  forall s_idx scores lg name,
    In name (Dict.keys scores) \/ In name (map sec_name sections) ->
    In name (Dict.keys (fst (section_scores_loop answer_points responses s_idx
                               sections scores lg))).
Proof.
  induction sections as [|s ss IH]; intros s_idx scores lg name Hin;
    cbn [section_scores_loop].
  - destruct Hin as [H|[]]. exact H.
  - destruct (score_section answer_points responses s_idx s) as [score lg'].
    apply IH. destruct Hin as [H|[H|H]].
    + left. apply keys_set_incl. now right.
    + left. apply keys_set_incl. now left.
    + now right.
Qed.

(** Every section of the questionnaire has an entry in the score table,
    answered or not, and the table has no other key; when the section
    names are distinct the keys are the section names in questionnaire
    order. *)
Theorem section_scores_cover_sections (answer_points : AnswerPoints)
    (responses : gmap string (option string)) (sections : list Section) :
  let scores := compute_section_scores answer_points responses sections in
  (forall name, In name (Dict.keys scores) <-> In name (map sec_name sections))
  /\ List.NoDup (Dict.keys scores)
  /\ (List.NoDup (map sec_name sections) ->
      Dict.keys scores = map sec_name sections).
Proof.
  intros scores. subst scores. unfold compute_section_scores.
  split; [|split].
  - intros name. split.
    + intros H. apply section_scores_loop_keys in H. destruct H as [[]|H].
      exact H.
    + intros H. apply section_scores_loop_has_key. now right.
  - apply section_scores_loop_nodup. constructor.
  - intros Hnd. rewrite section_scores_loop_keys_nodup; [reflexivity|exact Hnd|].
    intros name _ [].
Qed.

(** ** Recommendations are never empty and never repeated *)

Section RecommendationLists.

Lemma nodup_snoc {A} (l : list A) (x : A) :
  List.NoDup l -> ~ In x l -> List.NoDup (l ++ [x]).
Proof.
  intros Hl Hx. eapply Permutation_NoDup.
  - apply Permutation_cons_append.
  - now constructor.
Qed.

Lemma append_new_nodup (l : list string) (x : string) :
  List.NoDup l -> List.NoDup (append_new l x).
Proof.
  intros Hl. unfold append_new.
  destruct (existsb (String.eqb x) l) eqn:E; [exact Hl|].
  apply nodup_snoc; [exact Hl|].
  intros Hin. assert (existsb (String.eqb x) l = true); [|congruence].
  apply existsb_exists. exists x. split; [exact Hin|apply String.eqb_refl].
Qed.

Lemma partial_recommendations_nodup (recs : Dict.t string) (response : string) :
  forall l, List.NoDup l ->
            List.NoDup (partial_recommendations recs response l).
Proof.
  induction recs as [|[k v] recs IH]; intros l Hl; cbn [partial_recommendations];
    [exact Hl|].
  apply IH. destruct (_ || _); [now apply append_new_nodup|exact Hl].
Qed.

Lemma question_recommendations_nodup (responses : gmap string (option string))
    (s_idx : nat) (questions : list Question) :
  forall q_idx l out,
    List.NoDup l ->
    question_recommendations responses s_idx q_idx questions l = Ok out ->
    List.NoDup out.
Proof.
  induction questions as [|q qs IH]; intros q_idx l out Hl Hrun;
    cbn [question_recommendations] in Hrun.
  - now injection Hrun as <-.
  - destruct (responses !! response_key s_idx q_idx) as [[r|]|];
      destruct q as [text|id text options [table|]];
      cbn [mbind pyresult_bind] in Hrun;
      try (eapply IH; [|exact Hrun]; exact Hl).
    + destruct (Dict.get table r); cbn [mbind pyresult_bind] in Hrun;
        (eapply IH; [|exact Hrun]);
        [now apply append_new_nodup|now apply partial_recommendations_nodup].
    + destruct table; cbn [mbind pyresult_bind] in Hrun; [|discriminate].
      eapply IH; [|exact Hrun]. exact Hl.
Qed.

Lemma generic_recommendations_nodup (name : string) (score : Q) :
  List.NoDup (generic_recommendations name score).
Proof.
  unfold generic_recommendations.
  destruct (Qlt_bool score (6 # 10)); [|destruct (Qlt_bool score (75 # 100))];
    repeat constructor; cbn; intuition discriminate.
Qed.

(** Every list of the table is non-empty and free of duplicates. *)
Definition lists_well_formed (recs : Dict.t (list string)) : Prop :=
  Forall (fun entry => snd entry <> [] /\ List.NoDup (snd entry)) recs.

Lemma lists_well_formed_set (recs : Dict.t (list string)) (k : string)
    (l : list string) :
  lists_well_formed recs -> l <> [] -> List.NoDup l ->
  lists_well_formed (Dict.set recs k l).
Proof.
  unfold lists_well_formed. intros H Hne Hnd.
  induction H as [|[k' l'] rest Hkv Hall IH]; simpl.
  - constructor; [split; assumption|constructor].
  - destruct (String.eqb k' k); constructor; auto.
Qed.

Lemma lists_well_formed_get (recs : Dict.t (list string)) (k : string)
    (l : list string) :
  lists_well_formed recs -> Dict.get recs k = Some l ->
  l <> [] /\ List.NoDup l.
Proof.
  unfold lists_well_formed. intros H.
  induction H as [|[k' l'] rest Hkv Hall IH]; simpl; [discriminate|].
  destruct (String.eqb k' k); [|exact IH].
  intros E. injection E as <-. exact Hkv.
Qed.

Lemma recommendations_loop_well_formed
    (responses : gmap string (option string)) (scores : Dict.t (option Q))
    (sections : list Section) :
  forall s_idx recs out,
    lists_well_formed recs ->
    recommendations_loop responses scores s_idx sections recs = Ok out ->
    lists_well_formed out.
Proof.
  induction sections as [|s ss IH]; intros s_idx recs out Hwf Hrun;
    cbn [recommendations_loop] in Hrun.
  - now injection Hrun as <-.
  - destruct (get_score scores (sec_name s)) as [score|];
      [|eapply IH; eauto].
    destruct (question_recommendations responses s_idx 0 (sec_questions s) [])
      as [specific|e] eqn:Hq; cbn [mbind pyresult_bind] in Hrun; [|discriminate].
    assert (Hspec : List.NoDup specific).
    { eapply question_recommendations_nodup; [|exact Hq]. constructor. }
    eapply IH; [|exact Hrun].
    destruct specific as [|r rs].
    + destruct (generic_recommendations (sec_name s) score) as [|g gs] eqn:Hg;
        [exact Hwf|].
      apply lists_well_formed_set; [exact Hwf|discriminate|].
      rewrite <- Hg. apply generic_recommendations_nodup.
    + apply lists_well_formed_set; [exact Hwf|discriminate|exact Hspec].
Qed.

End RecommendationLists.

(** In a returned result every recommendation list is non-empty and
    holds no string twice. *)
Theorem recommendations_distinct (questionnaire : Questionnaire)
    (responses : gmap string (option string))
    (regulation_code industry_code : string) (result : ScoreResult)
    (lg : list LogRecord) (name : string) (l : list string) :
  score_questionnaire questionnaire responses regulation_code industry_code
  = Ok (result, lg) ->
  Dict.get (recommendations result) name = Some l ->
  l <> [] /\ List.NoDup l.
Proof.
  unfold score_questionnaire.
  destruct (section_scores_loop _ _ _ _ _ _) as [sc lg0].
  destruct (weighted_loop _ _ _ _); cbn [mbind pyresult_bind]; [|discriminate].
  destruct (recommendations_loop _ _ _ _ _) as [out|] eqn:Hloop;
    cbn [mbind pyresult_bind]; [|discriminate].
  intros H. injection H as <- _. cbn [recommendations].
  apply lists_well_formed_get.
  eapply recommendations_loop_well_formed; [|exact Hloop]. constructor.
Qed.

Lemma recommendations_distinct_witness :
  ["Improve consent practices with comprehensive controls";
   "Develop formal policies for consent"] <> []
  /\ List.NoDup
       ["Improve consent practices with comprehensive controls";
        "Develop formal policies for consent"].
Proof.
  destruct (score_questionnaire mixed_questionnaire mixed_responses
              "DPDP" "retail") as [[result lg]|e] eqn:E;
    [|vm_compute in E; discriminate].
  apply (recommendations_distinct _ _ _ _ result lg "Consent" _ E).
  vm_compute in E. injection E as <- _. reflexivity.
Defined.

(** ** Full compliance *)

Section FullCompliance.

Local Open Scope Q_scope.

Lemma sections_below_nil (limit : Q) (scores : Dict.t (option Q)) :
  (forall name v, In (name, Some v) scores -> limit <= v) ->
  sections_below limit scores = [].
Proof.
  unfold sections_below. induction scores as [|[name o] rest IH]; intros H;
    cbn [List.filter map snd]; [reflexivity|].
  assert (Hrest : forall name' v, In (name', Some v) rest -> limit <= v).
  { intros name' v Hin. apply (H name' v). now right. }
  destruct o as [v|]; [|now apply IH].
  assert (Hv : Qlt_bool v limit = false).
  { apply Qlt_bool_false_iff. apply (H name v). now left. }
  rewrite Hv. now apply IH.
Qed.

(** When every section is either left unanswered or answered throughout
    with responses worth 1.0 (distinct names, weights positive or
    missing) and at least one section is answered, scoring returns with
    the level "Highly Compliant", no high-risk area and no improvement
    priority; the overall score is 100. *)
Theorem full_compliance_result (questionnaire : Questionnaire)
    (responses : gmap string (option string))
    (regulation_code industry_code : string) :
  let sections := q_sections questionnaire in
  let answer_points := effective_answer_points questionnaire in
  List.NoDup (map sec_name sections) ->
  (forall i s, sections !! i = Some s ->
     usable_weight s
     /\ (unanswered responses i s
         \/ answered_all_ones answer_points responses i s)) ->
  (exists i s, sections !! i = Some s
               /\ answered_all_ones answer_points responses i s) ->
  exists result lg,
    score_questionnaire questionnaire responses regulation_code industry_code
    = Ok (result, lg)
    /\ overall_score result == 100
    /\ compliance_level result = "Highly Compliant"
    /\ high_risk_areas result = []
    /\ improvement_priorities result = [].
Proof.
  intros sections answer_points Hnd Hall (i0 & s0 & Hi0 & Hans0).
  set (scores := compute_section_scores answer_points responses sections).
  assert (Hscore : forall i s, sections !! i = Some s ->
            (unanswered responses i s /\ get_score scores (sec_name s) = None)
            \/ (answered_all_ones answer_points responses i s
                /\ exists v, get_score scores (sec_name s) = Some v /\ v == 1)).
  { intros i s Hi. subst scores.
    rewrite (compute_section_scores_get _ _ _ _ _ Hnd Hi).
    destruct (Hall i s Hi) as [_ [Hun|Hans]].
    - left. split; [exact Hun|]. now apply score_section_unanswered.
    - right. split; [exact Hans|]. now apply score_section_all_ones. }
  assert (Hn : (0 < length sections)%nat).
  { apply lookup_lt_Some in Hi0. lia. }
  destruct (weighted_loop_all_ones (length sections) scores sections Hn)
    with (acc := (0, 0)) as (totals & Hrun & Heq & _ & Hstrict).
  { intros s Hin. apply list_elem_of_In, list_elem_of_lookup_1 in Hin.
    destruct Hin as [i Hi]. split; [apply (Hall i s Hi)|].
    intros v Hv. destruct (Hscore i s Hi) as [[_ Hnone]|[_ (v' & Hv' & Hone)]];
      congruence. }
  { reflexivity. }
  { apply Qle_refl. }
  assert (Hpos : 0 < snd totals).
  { apply Hstrict. exists s0. split.
    - apply list_elem_of_In. eapply list_elem_of_lookup_2. exact Hi0.
    - destruct (Hscore i0 s0 Hi0) as [[Hun _]|[_ (v & Hv & _)]]; [|congruence].
      exfalso. destruct Hans0 as [Hne Hq].
      destruct (sec_questions s0) as [|q qs] eqn:E; [congruence|].
      destruct (Hq 0%nat) as (r & p & Hr & _); [simpl; lia|].
      destruct (Hun 0%nat) as [H0|H0]; [rewrite E; simpl; lia| |]; congruence. }
  destruct (recommendations_loop_ok responses scores sections 0 [])
    as (recs & Hrecs).
  { intros i s Hi Hsc j Hj. cbn [Nat.add].
    destruct (Hscore i s Hi) as [[_ Hnone]|[[_ Hq] _]]; [congruence|].
    destruct (Hq j Hj) as (r & p & Hr & _). eauto. }
  assert (Hentries : forall name v, In (name, Some v) scores -> v == 1).
  { intros name v Hin.
    assert (Hkeys : List.NoDup (Dict.keys scores)).
    { subst scores. unfold compute_section_scores.
      apply section_scores_loop_nodup. constructor. }
    assert (Hget : get_score scores name = Some v).
    { unfold get_score. now rewrite (get_of_nodup_entry _ _ _ Hkeys Hin). }
    assert (Hname : In name (map sec_name sections)).
    { assert (Hk : In name (Dict.keys scores)).
      { unfold Dict.keys. apply in_map_iff. exists (name, Some v). auto. }
      subst scores. unfold compute_section_scores in Hk.
      apply section_scores_loop_keys in Hk. destruct Hk as [[]|Hk]. exact Hk. }
    apply in_map_iff in Hname. destruct Hname as (s & <- & Hin').
    apply list_elem_of_In, list_elem_of_lookup_1 in Hin'.
    destruct Hin' as [i Hi].
    destruct (Hscore i s Hi) as [[_ Hnone]|[_ (v' & Hv' & Hone)]]; congruence. }
  assert (Hov : overall_of totals == 100) by now apply overall_of_equal_totals.
  assert (Hrun' := Hrun). assert (Hrecs' := Hrecs).
  unfold score_questionnaire. fold sections. fold answer_points.
  subst scores. unfold compute_section_scores in *.
  destruct (section_scores_loop _ _ _ _ _ _) as [sc lg0].
  cbn [fst] in *. rewrite Hrun'. cbn [mbind pyresult_bind].
  rewrite Hrecs'. cbn [mbind pyresult_bind].
  do 2 eexists. split; [reflexivity|].
  cbn [overall_score compliance_level high_risk_areas improvement_priorities].
  split; [exact Hov|]. split; [|split].
  - rewrite (get_compliance_level_Qeq _ 1); [reflexivity|].
    rewrite Hov. reflexivity.
  - apply sections_below_nil. intros name v Hin.
    rewrite (Hentries name v Hin). discriminate.
  - rewrite sections_below_nil; [reflexivity|]. intros name v Hin.
    rewrite (Hentries name v Hin). discriminate.
Qed.

End FullCompliance.

Lemma full_compliance_result_witness :
  exists result lg,
    score_questionnaire scenario2_questionnaire scenario2_responses
      "DPDP" "retail" = Ok (result, lg)
    /\ (overall_score result == 100)%Q
    /\ compliance_level result = "Highly Compliant"
    /\ high_risk_areas result = []
    /\ improvement_priorities result = [].
Proof.
  apply (full_compliance_result scenario2_questionnaire scenario2_responses
           "DPDP" "retail").
  - repeat constructor; simpl; intuition discriminate.
  - intros i s Hi. destruct i as [|[|i]]; cbn in Hi; [| |discriminate];
      injection Hi as <-; (split; [reflexivity|]).
    + left. intros j Hj. left.
      destruct j as [|[|j]]; [reflexivity|reflexivity|simpl in Hj; lia].
    + right. split; [discriminate|]. intros j Hj.
      exists "Yes", 1%Q.
      destruct j as [|[|j]]; [repeat split..|simpl in Hj; lia].
  - exists 1%nat. eexists. split; [reflexivity|].
    split; [discriminate|]. intros j Hj. exists "Yes", 1%Q.
    destruct j as [|[|j]]; [repeat split..|simpl in Hj; lia].
Defined.

(** ** The two section scorers on fully answered sections *)

Section ScorersAgree.

Variable answer_points : AnswerPoints.
Variable responses : gmap string (option string).

(** Every question of the section has a non-empty response that is a key
    of the table with a numeric value. *)
Definition answered_with_scored_keys (s_idx : nat) (questions : list Question)
    (q_idx : nat) : Prop :=
  forall j, (j < length questions)%nat ->
    exists r p,
      responses !! response_key s_idx (q_idx + j) = Some (Some r)
      /\ PyStr.truthy r = true
      /\ Dict.get answer_points r = Some (Some p).

Lemma loops_agree (section_name : string) (s_idx : nat)
    (questions : list Question) :
  forall q_idx acc acc',
    total_score acc = total_points acc' ->
    answered_with_scored_keys s_idx questions q_idx ->
    let a := section_score_loop section_name s_idx responses answer_points
               q_idx questions acc in
    let b := inline_loop answer_points responses s_idx q_idx questions acc' in
    total_score a = total_points b
    /\ applicable_questions a
       = (applicable_questions acc + length questions)%nat
    /\ length (section_responses b)
       = (length (section_responses acc') + length questions)%nat.
Proof.
  induction questions as [|q qs IH]; intros q_idx acc acc' Htot Hans.
  - cbn. repeat split; auto.
  - destruct (Hans 0%nat) as (r & p & Hr & Ht & Hp); [simpl; lia|].
    rewrite Nat.add_0_r in Hr.
    cbn [section_score_loop inline_loop]. rewrite Hr, Ht.
    unfold resolve_point, score_response. rewrite Hp.
    edestruct (IH (S q_idx)) as (A & B & C); [| |split; [exact A|split]].
    + cbn [total_score total_points]. now rewrite Htot.
    + intros j Hj. replace (S q_idx + j)%nat with (q_idx + S j)%nat by lia.
      apply Hans. simpl. lia.
    + rewrite B. cbn [applicable_questions length]. lia.
    + rewrite C. cbn [section_responses length]. rewrite length_app.
      cbn [length]. lia.
Qed.

(** On a section with at least one question, every question answered
    with a non-empty response that is a key of the table with a numeric
    value, [calculate_section_score] and the raw score of the section
    loop of [calculate_compliance_score] are the same number. *)
Theorem scorers_agree_when_fully_answered (section : Section) :
  let s_idx := match sec_index section with Some i => i | None => 0%nat end in
  sec_questions section <> [] ->
  answered_with_scored_keys s_idx (sec_questions section) 0 ->
  calculate_section_score section responses answer_points
  = inline_raw_score
      (inline_loop answer_points responses s_idx 0 (sec_questions section)
         (mkInlineAcc 0%Q [] []))
      (length (sec_questions section)).
Proof.
  intros s_idx Hne Hans.
  destruct (loops_agree (sec_name section) s_idx (sec_questions section) 0
              (mkSectionAcc 0%Q 0 []) (mkInlineAcc 0%Q [] []) eq_refl Hans)
    as (A & B & C).
  cbn [applicable_questions section_responses length Nat.add] in B, C.
  unfold calculate_section_score, calculate_section_score_log, inline_raw_score.
  fold s_idx.
  destruct (sec_questions section) as [|q qs] eqn:Hq; [congruence|].
  rewrite B. cbn [length] in *. cbn [fst]. rewrite A.
  destruct (section_responses _) as [|r rs]; [discriminate|].
  reflexivity.
Qed.

End ScorersAgree.

Definition all_yes_responses : gmap string (option string) :=
  <["s0_q0" := Some "Yes"]> (<["s0_q1" := Some "No"]> ∅).

Lemma scorers_agree_when_fully_answered_witness :
  calculate_section_score two_question_section all_yes_responses yes_no_table
  = inline_raw_score
      (inline_loop yes_no_table all_yes_responses 0 0
         (sec_questions two_question_section) (mkInlineAcc 0%Q [] []))
      2.
Proof.
  apply (scorers_agree_when_fully_answered yes_no_table all_yes_responses
           two_question_section).
  - discriminate.
  - intros j Hj. destruct j as [|[|j]]; [| |simpl in Hj; lia].
    + exists "Yes", 1%Q. repeat split.
    + exists "No", 0%Q. repeat split.
Defined.

From Stdlib Require Import Qpower.

(** * Floating-point arithmetic: weight repair and weighted average

    The tolerance band and the normalisation of
    [fix_questionnaire_weights] depend on how the total and the
    quotients are rounded, and so does the overall score next to a
    threshold. The model of this part keeps every rounding of the code:
    the literals [0.99] and [1.01], the quotients [1.0 / section_count]
    and [weight / total_weight], the partial sums of [sum(...)], the
    products and [+=] of the weighted loop. The arithmetic is a
    parameter; [binary64] below is round-to-nearest, ties to even, on 53
    significant bits, without bound on the exponent (no overflow, no
    underflow). *)

Module Float.

Local Open Scope Q_scope.

(** ** Rounding to 53 significant bits *)

(** The nearest integer, ties to the even one. *)
Definition round_half_even (y : Q) : Z :=
  let a := Qnum y in
  let b := Z.pos (Qden y) in
  let q := (a / b)%Z in
  let r := (a mod b)%Z in
  match (2 * r ?= b)%Z with
  | Lt => q
  | Gt => (q + 1)%Z
  | Eq => if Z.even q then q else (q + 1)%Z
  end.

(** The exponent [e] of the unit in the last place of a positive [x]:
    [2^52 <= x / 2^e < 2^53]. *)
Definition ulp_exponent (x : Q) : Z :=
  let k := (Z.log2 (Qnum x) - Z.log2 (Z.pos (Qden x)))%Z in
  if Qlt_bool x (2 ^ k) then (k - 53)%Z else (k - 52)%Z.

Definition round_positive (x : Q) : Q :=
  let e := ulp_exponent x in
  inject_Z (round_half_even (x / 2 ^ e)) * 2 ^ e.

(** The float nearest to [x]. *)
Definition round53 (x : Q) : Q :=
  match Qnum x with
  | Z0 => 0
  | Zpos _ => round_positive x
  | Zneg _ => - round_positive (- x)
  end.

(** [2^-53]: the relative error of one rounding. *)
Definition unit_roundoff : Q := 1 # 9007199254740992.

Lemma round_half_even_error (y : Q) :
  Qabs (inject_Z (round_half_even y) - y) <= 1 # 2.
Proof.
  destruct y as [a b]. unfold round_half_even. cbn [Qnum Qden].
  pose proof (Z.div_mod a (Z.pos b) ltac:(lia)) as Hdiv.
  pose proof (Z.mod_pos_bound a (Z.pos b) ltac:(lia)) as Hmod.
  set (q := (a / Z.pos b)%Z) in *. set (r := (a mod Z.pos b)%Z) in *.
  assert (Hcases : forall m : Z,
            (2 * (m * Z.pos b - a) <= Z.pos b)%Z ->
            (- Z.pos b <= 2 * (m * Z.pos b - a))%Z ->
            Qabs (inject_Z m - (a # b)) <= 1 # 2).
  { intros m H1 H2. apply Qabs_Qle_condition.
    split; unfold Qle, Qminus, Qplus, Qopp, inject_Z; cbn; nia. }
  destruct (Z.compare_spec (2 * r) (Z.pos b)) as [C|C|C].
  - destruct (Z.even q); apply Hcases; nia.
  - apply Hcases; nia.
  - apply Hcases; nia.
Qed.

Lemma pow2_positive (e : Z) : 0 < 2 ^ e.
Proof. apply Qpower_0_lt. reflexivity. Qed.

Lemma pow2_succ (e : Z) : 2 ^ (e + 1) == 2 * 2 ^ e.
Proof. rewrite Qpower_plus by discriminate. rewrite Qpower_1_r. ring. Qed.

Lemma pow2_of_Z (n : Z) : (0 <= n)%Z -> inject_Z (2 ^ n) == 2 ^ n.
Proof. intros H. now rewrite Zpower_Qpower. Qed.

(** A positive rational lies within a factor 2 of the power of two given
    by the bit lengths of its numerator and denominator. *)
Lemma log2_bounds (n d : positive) :
  let k := (Z.log2 (Z.pos n) - Z.log2 (Z.pos d))%Z in
  2 ^ (k - 1) <= Z.pos n # d /\ Z.pos n # d < 2 ^ (k + 1).
Proof.
  intros k. subst k.
  destruct (Z.log2_spec (Z.pos n) ltac:(lia)) as [Hn1 Hn2].
  destruct (Z.log2_spec (Z.pos d) ltac:(lia)) as [Hd1 Hd2].
  pose proof (Z.log2_nonneg (Z.pos n)) as Ha.
  pose proof (Z.log2_nonneg (Z.pos d)) as Hb.
  set (a := Z.log2 (Z.pos n)) in *. set (b := Z.log2 (Z.pos d)) in *.
  assert (HA : inject_Z (2 ^ a) == 2 ^ a) by now apply pow2_of_Z.
  assert (HB : inject_Z (2 ^ b) == 2 ^ b) by now apply pow2_of_Z.
  assert (HA' : 2 ^ (a + 1) == 2 * 2 ^ a) by apply pow2_succ.
  assert (HB' : 2 ^ (b + 1) == 2 * 2 ^ b) by apply pow2_succ.
  rewrite Z.pow_succ_r in Hn2, Hd2 by assumption.
  assert (Hn1q : 2 ^ a <= inject_Z (Z.pos n)).
  { rewrite <- HA. now rewrite <- Zle_Qle. }
  assert (Hn2q : inject_Z (Z.pos n) < 2 * 2 ^ a).
  { rewrite <- HA. change 2 with (inject_Z 2) at 1. rewrite <- inject_Z_mult.
    now rewrite <- Zlt_Qlt. }
  assert (Hd1q : 2 ^ b <= inject_Z (Z.pos d)).
  { rewrite <- HB. now rewrite <- Zle_Qle. }
  assert (Hd2q : inject_Z (Z.pos d) < 2 * 2 ^ b).
  { rewrite <- HB. change 2 with (inject_Z 2) at 1. rewrite <- inject_Z_mult.
    now rewrite <- Zlt_Qlt. }
  pose proof (pow2_positive a) as Pa. pose proof (pow2_positive b) as Pb.
  assert (Hd0 : 0 < inject_Z (Z.pos d)) by lra.
  rewrite (Qmake_Qdiv (Z.pos n) d).
  replace (a - b - 1)%Z with (a - (b + 1))%Z by lia.
  replace (a - b + 1)%Z with ((a + 1) - b)%Z by lia.
  rewrite !Qpower_minus by discriminate. rewrite HA', HB'.
  set (A := 2 ^ a) in *. set (B := 2 ^ b) in *.
  set (N := inject_Z (Z.pos n)) in *. set (D := inject_Z (Z.pos d)) in *.
  split.
  - apply Qle_shift_div_l; [exact Hd0|].
    assert (E : A / (2 * B) * D == (A * D) / (2 * B)) by (field; lra).
    rewrite E. apply Qle_shift_div_r; [lra|]. nra.
  - apply Qlt_shift_div_r; [exact Hd0|].
    assert (E : 2 * A / B * D == (2 * A * D) / B) by (field; lra).
    rewrite E. apply Qlt_shift_div_l; [lra|]. nra.
Qed.

(** The scaled value has 53 bits before the point. *)
Lemma ulp_exponent_spec (x : Q) :
  0 < x ->
  2 ^ 52 <= x / 2 ^ ulp_exponent x /\ x / 2 ^ ulp_exponent x < 2 ^ 53.
Proof.
  intros Hx. destruct x as [n d].
  assert (Hn : (0 < n)%Z) by (unfold Qlt in Hx; simpl in Hx; lia).
  destruct n as [|n|n]; try lia.
  destruct (log2_bounds n d) as [Hlo Hhi].
  unfold ulp_exponent. cbn [Qnum Qden].
  set (k := (Z.log2 (Z.pos n) - Z.log2 (Z.pos d))%Z) in *.
  set (x := Z.pos n # d) in *.
  destruct (Qlt_bool x (2 ^ k)) eqn:C.
  - apply Qlt_bool_iff in C.
    pose proof (pow2_positive (k - 53)) as P.
    assert (E1 : 2 ^ (k - 1) == 2 ^ 52 * 2 ^ (k - 53)).
    { rewrite <- Qpower_plus by discriminate. now replace (52 + (k - 53))%Z with (k - 1)%Z by lia. }
    assert (E2 : 2 ^ k == 2 ^ 53 * 2 ^ (k - 53)).
    { rewrite <- Qpower_plus by discriminate. now replace (53 + (k - 53))%Z with k by lia. }
    split.
    + apply Qle_shift_div_l; [exact P|]. now rewrite <- E1.
    + apply Qlt_shift_div_r; [exact P|]. now rewrite <- E2.
  - apply Qlt_bool_false_iff in C.
    pose proof (pow2_positive (k - 52)) as P.
    assert (E1 : 2 ^ k == 2 ^ 52 * 2 ^ (k - 52)).
    { rewrite <- Qpower_plus by discriminate. now replace (52 + (k - 52))%Z with k by lia. }
    assert (E2 : 2 ^ (k + 1) == 2 ^ 53 * 2 ^ (k - 52)).
    { rewrite <- Qpower_plus by discriminate. now replace (53 + (k - 52))%Z with (k + 1)%Z by lia. }
    split.
    + apply Qle_shift_div_l; [exact P|]. now rewrite <- E1.
    + apply Qlt_shift_div_r; [exact P|]. now rewrite <- E2.
Qed.

(** One rounding moves a number by at most half a unit in the last
    place, which is at most [2^-53] of the number. *)
Lemma round53_error (x : Q) :
  0 <= x -> Qabs (round53 x - x) <= unit_roundoff * x.
Proof.
  intros Hx0.
  destruct x as [[|n|n] d]; [vm_compute; discriminate| |
    unfold Qle in Hx0; simpl in Hx0; lia].
  set (x := Z.pos n # d) in *.
  assert (Hx : 0 < x) by reflexivity.
  change (round53 x) with (round_positive x). unfold round_positive.
  destruct (ulp_exponent_spec x Hx) as [Hlo _].
  pose proof (pow2_positive (ulp_exponent x)) as P.
  set (p := 2 ^ ulp_exponent x) in *. set (y := x / p) in *.
  pose proof (round_half_even_error y) as Herr.
  set (m := inject_Z (round_half_even y)) in *.
  assert (Hxy : x == y * p) by (subst y; field; lra).
  apply Qabs_Qle_condition in Herr. destruct Herr as [H1 H2].
  assert (H52 : 2 ^ 52 == 4503599627370496) by reflexivity.
  rewrite H52 in Hlo.
  apply Qabs_Qle_condition. unfold unit_roundoff.
  split.
  - rewrite Hxy at 2. rewrite Hxy at 1. nra.
  - rewrite Hxy at 2. rewrite Hxy at 1. nra.
Qed.

(** ** The arithmetic of the repair *)

(** [rnd] rounds a literal or the exact result of one operation; [fsum]
    is the built-in [sum] on a list of floats. The summation is a
    parameter of its own because CPython changed it: up to 3.11 [sum]
    adds from the left and rounds every partial sum ([sum_left] below),
    from 3.12 it compensates the partial sums. *)
Record Arithmetic : Type := mkArithmetic {
  rnd : Q -> Q;
  fsum : list Q -> Q
}.

(** [sum(xs)] adding from the left, each partial sum rounded. *)
Definition sum_left (round : Q -> Q) (xs : list Q) : Q :=
  fold_left (fun acc x => round (acc + x)) xs 0.

Definition binary64 : Arithmetic := mkArithmetic round53 (sum_left round53).

(** Rational arithmetic: nothing is rounded. *)
Definition exact : Arithmetic := mkArithmetic (fun x => x) py_sum.

(** The standard model of floating-point arithmetic: one rounding has
    relative error at most [2^-53], and the sum of up to [2^20]
    positive numbers has relative error at most [2^-32]. *)
Record standard_model (A : Arithmetic) : Prop := mkStandardModel {
  rnd_error :
    forall x, 0 <= x -> Qabs (rnd A x - x) <= unit_roundoff * x;
  fsum_error :
    forall xs, Forall (fun x => 0 < x) xs ->
      (Z.of_nat (length xs) <= 1048576)%Z ->
      Qabs (fsum A xs - Qsum xs) <= (1 # 4294967296) * Qsum xs
}.

(** The first loop: an invalid weight becomes [1.0 / section_count]. *)
Definition default_invalid_weight (A : Arithmetic) (section_count : nat)
    (section : Section) : Section :=
  if weight_is_valid (sec_weight section) then section
  else set_weight section (rnd A (1 / Qnat section_count)).

(** Lines 117-148. A zero total makes the division raise
    [ZeroDivisionError], which the handler turns into [None]. *)
Definition fix_questionnaire_weights (A : Arithmetic)
    (questionnaire : Questionnaire) : option Questionnaire :=
  match q_sections questionnaire with
  | [] => None
  | sections =>
      let section_count := length sections in
      let sections := map (default_invalid_weight A section_count) sections in
      let total_weight := fsum A (map weight_value sections) in
      if Qle_bool (rnd A (99 # 100)) total_weight
         && Qle_bool total_weight (rnd A (101 # 100))
      then Some (mkQuestionnaire sections (q_answer_points questionnaire))
      else if Qeq_bool total_weight 0 then None
      else
        Some (mkQuestionnaire
                (map (fun section =>
                        set_weight section
                          (rnd A (weight_value section / total_weight)))
                     sections)
                (q_answer_points questionnaire))
  end.

(** ** Error bounds *)

Lemma rnd_bounds (A : Arithmetic) (x : Q) :
  standard_model A -> 0 <= x ->
  (1 - unit_roundoff) * x <= rnd A x /\ rnd A x <= (1 + unit_roundoff) * x.
Proof.
  intros HA Hx. pose proof (rnd_error A HA x Hx) as H.
  apply Qabs_Qle_condition in H. destruct H as [H1 H2]. split; lra.
Qed.

Lemma rnd_positive (A : Arithmetic) (x : Q) :
  standard_model A -> 0 < x -> 0 < rnd A x.
Proof.
  intros HA Hx. destruct (rnd_bounds A x HA ltac:(lra)) as [H _].
  unfold unit_roundoff in H. lra.
Qed.

Lemma Qsum_nonneg (xs : list Q) : Forall (fun x => 0 < x) xs -> 0 <= Qsum xs.
Proof.
  induction 1 as [|x xs Hx _ IH]; simpl; lra.
Qed.

(** The left-to-right sum: each of the [n] additions adds at most
    [2 * 2^-53] to the relative error. *)
Lemma sum_left_from (round : Q -> Q) :
  (forall x, 0 <= x -> Qabs (round x - x) <= unit_roundoff * x) ->
  forall xs t acc S,
    Forall (fun x => 0 < x) xs ->
    0 <= S -> 0 <= t ->
    t + 2 * unit_roundoff * Qnat (length xs) <= 1 ->
    Qabs (acc - S) <= t * S ->
    Qabs (fold_left (fun acc x => round (acc + x)) xs acc - (S + Qsum xs))
    <= (t + 2 * unit_roundoff * Qnat (length xs)) * (S + Qsum xs).
Proof.
  intros Hround. induction xs as [|x xs IH]; intros t acc S Hpos HS Ht Hn Hacc.
  - cbn [fold_left Qsum length]. apply Qabs_Qle_condition in Hacc.
    apply Qabs_Qle_condition. unfold Qnat, unit_roundoff.
    change (inject_Z (Z.of_nat 0)) with 0. destruct Hacc. split; nra.
  - inversion Hpos as [|? ? Hx Hxs]; subst.
    cbn [fold_left Qsum length] in *. rewrite Qnat_succ in Hn.
    pose proof (Qnat_nonneg (length xs)) as Hlen.
    unfold unit_roundoff in *.
    apply Qabs_Qle_condition in Hacc. destruct Hacc as [Ha1 Ha2].
    assert (Ht1 : t <= 1) by lra.
    assert (HtS : 0 <= t * S) by nra.
    assert (Htx : 0 <= t * x) by nra.
    assert (Hax : 0 < acc + x) by nra.
    pose proof (Hround (acc + x) ltac:(lra)) as Hr.
    apply Qabs_Qle_condition in Hr. destruct Hr as [Hr1 Hr2].
    specialize (IH (t + 2 * (1 # 9007199254740992)) (round (acc + x)) (S + x)
                  Hxs ltac:(lra) ltac:(lra) ltac:(lra)).
    assert (Hstep : Qabs (round (acc + x) - (S + x))
                    <= (t + 2 * (1 # 9007199254740992)) * (S + x)).
    { apply Qabs_Qle_condition. split; nra. }
    specialize (IH Hstep). rewrite Qnat_succ.
    apply Qabs_Qle_condition in IH. destruct IH as [I1 I2].
    apply Qabs_Qle_condition. split; lra.
Qed.

Lemma sum_left_error (round : Q -> Q) (xs : list Q) :
  (forall x, 0 <= x -> Qabs (round x - x) <= unit_roundoff * x) ->
  Forall (fun x => 0 < x) xs ->
  (Z.of_nat (length xs) <= 1048576)%Z ->
  Qabs (sum_left round xs - Qsum xs) <= (1 # 4294967296) * Qsum xs.
Proof.
  intros Hround Hpos Hlen.
  assert (Hq : Qnat (length xs) <= 1048576).
  { unfold Qnat. change 1048576 with (inject_Z 1048576). now rewrite <- Zle_Qle. }
  pose proof (Qnat_nonneg (length xs)) as Hq0.
  pose proof (Qsum_nonneg xs Hpos) as Hs.
  pose proof (sum_left_from round Hround xs 0 0 0 Hpos ltac:(lra) ltac:(lra)) as H.
  unfold unit_roundoff in H.
  specialize (H ltac:(lra)).
  assert (H0 : Qabs (0 - 0) <= 0 * 0) by (vm_compute; discriminate).
  specialize (H H0). unfold sum_left.
  apply Qabs_Qle_condition in H. destruct H as [H1 H2].
  apply Qabs_Qle_condition. split; nra.
Qed.

Lemma binary64_standard_model : standard_model binary64.
Proof.
  split.
  - exact round53_error.
  - intros xs. apply sum_left_error. exact round53_error.
Qed.

Lemma exact_standard_model : standard_model exact.
Proof.
  split.
  - intros x Hx. cbn [rnd exact].
    unfold unit_roundoff. apply Qabs_Qle_condition. split; lra.
  - intros xs Hpos _. cbn [fsum exact].
    pose proof (Qsum_nonneg xs Hpos). rewrite py_sum_Qsum.
    apply Qabs_Qle_condition. split; lra.
Qed.

Section Repair.

Variable A : Arithmetic.
Hypothesis HA : standard_model A.

Lemma rounded_weight_positive (n : nat) (s : Section) :
  (0 < n)%nat -> 0 < weight_value (default_invalid_weight A n s).
Proof.
  intros Hn. unfold default_invalid_weight, weight_is_valid.
  assert (Hd : 0 < rnd A (1 / Qnat n)).
  { apply rnd_positive; [exact HA|].
    apply Qlt_shift_div_l; [now apply Qnat_positive|]. lra. }
  destruct (sec_weight s) as [| |w] eqn:E; simpl; auto.
  destruct (Qlt_bool 0 w) eqn:Hw; simpl; auto.
  unfold weight_value. rewrite E. now apply Qlt_bool_iff.
Qed.

(** The total seen by the band test is within [2^-32] of the exact
    total, and positive. *)
Lemma total_bounds (xs : list Q) :
  xs <> [] -> Forall (fun x => 0 < x) xs ->
  (Z.of_nat (length xs) <= 1048576)%Z ->
  0 < fsum A xs
  /\ (1 - (1 # 4294967296)) * Qsum xs <= fsum A xs
  /\ fsum A xs <= (1 + (1 # 4294967296)) * Qsum xs.
Proof.
  intros Hne Hpos Hlen.
  pose proof (Qsum_positive xs Hne Hpos) as Hs.
  pose proof (fsum_error A HA xs Hpos Hlen) as H.
  apply Qabs_Qle_condition in H. destruct H as [H1 H2].
  repeat split; lra.
Qed.

(** Dividing by the total: every quotient is rounded once. *)
Lemma normalized_sum (W : Q) (xs : list Q) :
  0 < W -> Forall (fun x => 0 < x) xs ->
  (1 - unit_roundoff) * (Qsum xs / W)
  <= Qsum (map (fun x => rnd A (x / W)) xs)
  /\ Qsum (map (fun x => rnd A (x / W)) xs)
     <= (1 + unit_roundoff) * (Qsum xs / W).
Proof.
  intros HW. induction 1 as [|x xs Hx _ IH]; cbn [map Qsum].
  - assert (E : 0 / W == 0) by (field; lra). rewrite E.
    unfold unit_roundoff. split; lra.
  - assert (E : (x + Qsum xs) / W == x / W + Qsum xs / W) by (field; lra).
    rewrite E.
    assert (Hq : 0 < x / W) by (apply Qlt_shift_div_l; lra).
    destruct (rnd_bounds A (x / W) HA ltac:(lra)) as [H1 H2].
    destruct IH as [I1 I2]. split; lra.
Qed.

Lemma normalized_positive (W : Q) (xs : list Q) :
  0 < W -> Forall (fun x => 0 < x) xs ->
  Forall (fun x => 0 < x) (map (fun x => rnd A (x / W)) xs).
Proof.
  intros HW Hpos. apply List.Forall_map.
  eapply List.Forall_impl; [|exact Hpos]. cbn. intros x Hx.
  apply rnd_positive; [exact HA|]. apply Qlt_shift_div_l; lra.
Qed.

(** After the division the exact total and the total that [sum] would
    report both lie within [1e-6] of 1. *)
Lemma normalized_total (xs : list Q) :
  xs <> [] -> Forall (fun x => 0 < x) xs ->
  (Z.of_nat (length xs) <= 1048576)%Z ->
  let W := fsum A xs in
  let ys := map (fun x => rnd A (x / W)) xs in
  Qabs (Qsum ys - 1) <= 1 # 1000000
  /\ Qabs (fsum A ys - 1) <= 1 # 1000000.
Proof.
  intros Hne Hpos Hlen W ys.
  destruct (total_bounds xs Hne Hpos Hlen) as (HW & Hlo & Hhi). fold W in HW, Hlo, Hhi.
  pose proof (Qsum_positive xs Hne Hpos) as Hs.
  destruct (normalized_sum W xs HW Hpos) as [N1 N2]. fold ys in N1, N2.
  set (r := Qsum xs / W) in *.
  assert (Hr : Qsum xs == r * W) by (subst r; field; lra).
  assert (Hr0 : 0 < r) by (subst r; apply Qlt_shift_div_l; lra).
  assert (R1 : (1 - (1 # 4294967296)) * r <= 1).
  { rewrite Hr in Hlo. nra. }
  assert (R2 : 1 <= (1 + (1 # 4294967296)) * r).
  { rewrite Hr in Hhi. nra. }
  unfold unit_roundoff in N1, N2.
  assert (Hys : Forall (fun x => 0 < x) ys) by now apply normalized_positive.
  assert (Hlen' : (Z.of_nat (length ys) <= 1048576)%Z).
  { subst ys. now rewrite length_map. }
  pose proof (fsum_error A HA ys Hys Hlen') as F.
  apply Qabs_Qle_condition in F. destruct F as [F1 F2].
  split; apply Qabs_Qle_condition; split; lra.
Qed.

(** Two quotients by the same total keep their ratio up to the two
    roundings. *)
Lemma normalized_ratio (W wi wj : Q) :
  0 < W -> 0 < wi -> 0 < wj ->
  Qabs (rnd A (wi / W) * wj - rnd A (wj / W) * wi)
  <= (1 # 2251799813685248) * (rnd A (wi / W) * wj).
Proof.
  intros HW Hi Hj.
  set (a := wi / W). set (b := wj / W).
  assert (Ha : 0 < a) by (subst a; apply Qlt_shift_div_l; lra).
  assert (Hb : 0 < b) by (subst b; apply Qlt_shift_div_l; lra).
  assert (Ei : wi == a * W) by (subst a; field; lra).
  assert (Ej : wj == b * W) by (subst b; field; lra).
  destruct (rnd_bounds A a HA ltac:(lra)) as [A1 A2].
  destruct (rnd_bounds A b HA ltac:(lra)) as [B1 B2].
  unfold unit_roundoff in *.
  set (a' := rnd A a) in *. set (b' := rnd A b) in *.
  assert (Hab : 0 < a * b) by nra.
  assert (K1 : - ((1 # 2251799813685248) * (a' * b)) <= a' * b - b' * a) by nra.
  assert (K2 : a' * b - b' * a <= (1 # 2251799813685248) * (a' * b)) by nra.
  rewrite Ei, Ej.
  apply Qabs_Qle_condition. split; nra.
Qed.

End Repair.

(** ** Fixed points of the repair *)

Section FixedPoints.

Variable A : Arithmetic.
Hypothesis HA : standard_model A.

(** The floats [0.99] and [1.01] leave room for [1e-6] around 1. *)
Lemma band_around_one :
  rnd A (99 # 100) <= 1 - (1 # 1000000)
  /\ 1 + (1 # 1000000) <= rnd A (101 # 100).
Proof.
  destruct (rnd_bounds A (99 # 100) HA ltac:(lra)) as [_ H1].
  destruct (rnd_bounds A (101 # 100) HA ltac:(lra)) as [H2 _].
  unfold unit_roundoff in *. split; lra.
Qed.

Lemma rounded_default_valid_id (n : nat) (sections : list Section) :
  Forall (fun s => weight_is_valid (sec_weight s) = true) sections ->
  map (default_invalid_weight A n) sections = sections.
Proof.
  intros H. induction H as [|s ss Hs Hall IH]; simpl; [reflexivity|].
  unfold default_invalid_weight at 1. now rewrite Hs, IH.
Qed.

Lemma rounded_repair_unchanged (questionnaire : Questionnaire) :
  q_sections questionnaire <> [] ->
  all_weights_valid questionnaire ->
  rnd A (99 # 100) <= fsum A (weights_of questionnaire) ->
  fsum A (weights_of questionnaire) <= rnd A (101 # 100) ->
  fix_questionnaire_weights A questionnaire = Some questionnaire.
Proof.
  intros Hne Hvalid Hlo Hhi.
  destruct questionnaire as [sections table]. cbn [q_sections] in *.
  unfold all_weights_valid, weights_of in *. cbn [q_sections] in *.
  unfold fix_questionnaire_weights. cbn [q_sections q_answer_points].
  destruct sections as [|s ss]; [congruence|].
  rewrite (rounded_default_valid_id _ _ Hvalid).
  apply Qle_bool_iff in Hlo, Hhi. now rewrite Hlo, Hhi.
Qed.

Lemma rounded_repair_shape (questionnaire fixed : Questionnaire) :
  (Z.of_nat (length (q_sections questionnaire)) <= 1048576)%Z ->
  fix_questionnaire_weights A questionnaire = Some fixed ->
  q_sections fixed <> [] /\ all_weights_valid fixed
  /\ rnd A (99 # 100) <= fsum A (weights_of fixed)
  /\ fsum A (weights_of fixed) <= rnd A (101 # 100).
Proof.
  intros Hlen Hfix.
  unfold fix_questionnaire_weights in Hfix.
  destruct (q_sections questionnaire) as [|s0 ss] eqn:Hsecs; [discriminate|].
  set (n := length (s0 :: ss)) in *.
  set (sections1 := map (default_invalid_weight A n) (s0 :: ss)) in *.
  set (W := fsum A (map weight_value sections1)) in *.
  assert (Hn : (0 < n)%nat) by (subst n; simpl; lia).
  assert (Hpos : Forall (fun w => 0 < w) (map weight_value sections1)).
  { subst sections1. rewrite map_map. apply List.Forall_map, List.Forall_forall.
    intros s _. now apply rounded_weight_positive. }
  assert (Hvalid1 : Forall (fun s => weight_is_valid (sec_weight s) = true)
                      sections1).
  { subst sections1. apply List.Forall_map, List.Forall_forall.
    intros s _. unfold default_invalid_weight.
    destruct (weight_is_valid (sec_weight s)) eqn:E; [exact E|].
    cbn. apply Qlt_bool_iff. apply rnd_positive; [exact HA|].
    apply Qlt_shift_div_l; [now apply Qnat_positive|]. lra. }
  assert (Hne1 : map weight_value sections1 <> []) by (subst sections1; discriminate).
  assert (Hlen1 : (Z.of_nat (length (map weight_value sections1)) <= 1048576)%Z).
  { subst sections1. now rewrite !length_map. }
  destruct (total_bounds A HA _ Hne1 Hpos Hlen1) as (HW & _). fold W in HW.
  destruct (Qle_bool (rnd A (99 # 100)) W && Qle_bool W (rnd A (101 # 100)))
    eqn:Hband.
  - injection Hfix as <-. cbn [q_sections].
    apply andb_true_iff in Hband. destruct Hband as [H1 H2].
    apply Qle_bool_iff in H1, H2.
    split; [subst sections1; discriminate|]. split; [exact Hvalid1|].
    unfold weights_of. cbn [q_sections]. fold W. split; assumption.
  - destruct (Qeq_bool W 0) eqn:Hz; [discriminate|].
    injection Hfix as Hfix.
    set (g := fun section : Section =>
                set_weight section (rnd A (weight_value section / W))) in *.
    assert (Hsecs' : q_sections fixed = map g sections1) by now rewrite <- Hfix.
    destruct (normalized_total A HA _ Hne1 Hpos Hlen1) as [_ T].
    fold W in T.
    assert (Hw : weights_of fixed
                 = map (fun w => rnd A (w / W)) (map weight_value sections1)).
    { unfold weights_of. rewrite Hsecs', !map_map. apply map_ext. reflexivity. }
    rewrite Hw. destruct band_around_one as [B1 B2].
    apply Qabs_Qle_condition in T. destruct T as [T1 T2].
    split; [rewrite Hsecs'; subst sections1; discriminate|].
    split; [|split; lra].
    unfold all_weights_valid. rewrite Hsecs'.
    apply List.Forall_map.
    rewrite List.Forall_map in Hpos.
    eapply List.Forall_impl; [|exact Hpos].
    intros s Hs. subst g. cbn [weight_is_valid sec_weight set_weight].
    apply Qlt_bool_iff. apply rnd_positive; [exact HA|].
    apply Qlt_shift_div_l; [exact HW|]. now rewrite Qmult_0_l.
Qed.

End FixedPoints.

(** ** The weighted average of assessment.py in floating point *)

(** The weighted loop (lines 635-646) with its roundings: the default
    weight [1.0 / len(sections)], the product
    [section_score * section_weight] and the two [+=]. *)
Fixpoint weighted_loop (A : Arithmetic) (section_count : nat)
    (section_scores : Dict.t (option Q)) (sections : list Section)
    (acc : Q * Q) : pyresult (Q * Q) :=
  match sections with
  | [] => Ok acc
  | section :: rest =>
      match get_score section_scores (sec_name section) with
      | Some section_score =>
          section_weight ←
            match sec_weight section with
            | WNum w => Ok w
            | WAbsent => Ok (rnd A (1 / Qnat section_count))
            | WOther => Raise TypeError
            end;
          weighted_loop A section_count section_scores rest
            (rnd A (fst acc + rnd A (section_score * section_weight)),
             rnd A (snd acc + section_weight))
      | None => weighted_loop A section_count section_scores rest acc
      end
  end.

(** [(total_weighted_score / total_weight) * 100] *)
Definition overall_of (A : Arithmetic) (totals : Q * Q) : Q :=
  if Qlt_bool 0 (snd totals)
  then rnd A (rnd A (fst totals / snd totals) * 100)
  else 0.

(** [x'] is [x] up to the relative error [t]. *)
Definition close (t x' x : Q) : Prop := Qabs (x' - x) <= t * x.

Lemma close_bounds (t x' x : Q) :
  close t x' x <-> (1 - t) * x <= x' /\ x' <= (1 + t) * x.
Proof.
  unfold close. split.
  - intros H. apply Qabs_Qle_condition in H. destruct H. split; lra.
  - intros [H1 H2]. apply Qabs_Qle_condition. split; lra.
Qed.

(** One accumulation [acc += term]: the error grows by [2 * 2^-53]. *)
Lemma accumulate_close (A : Arithmetic) (t acc' acc term' term : Q) :
  standard_model A ->
  3 * unit_roundoff <= t -> t <= 1 ->
  0 <= acc -> 0 <= term ->
  close t acc' acc ->
  close (3 * unit_roundoff) term' term ->
  close (t + 2 * unit_roundoff) (rnd A (acc' + term')) (acc + term).
Proof.
  intros HA Ht3 Ht1 Hacc Hterm Ha Hb.
  apply close_bounds in Ha, Hb. destruct Ha as [A1 A2], Hb as [B1 B2].
  unfold unit_roundoff in *.
  assert (HtA : 0 <= t * acc) by nra.
  assert (HtT : 0 <= t * term) by nra.
  assert (Hsum : 0 <= acc' + term') by nra.
  destruct (rnd_bounds A (acc' + term') HA Hsum) as [R1 R2].
  unfold unit_roundoff in *.
  apply close_bounds. split; nra.
Qed.

End Float.

(** With nothing rounded the model is the rational model above. *)
Lemma exact_is_rational_model (questionnaire : Questionnaire) :
  Float.fix_questionnaire_weights Float.exact questionnaire
  = fix_questionnaire_weights questionnaire.
Proof.
  unfold Float.fix_questionnaire_weights, fix_questionnaire_weights.
  destruct (q_sections questionnaire) as [|s0 ss] eqn:Hsecs; [reflexivity|].
  cbn [Float.rnd Float.fsum Float.exact].
  change (map (Float.default_invalid_weight Float.exact (length (s0 :: ss)))
            (s0 :: ss))
    with (map (default_invalid_weight (length (s0 :: ss))) (s0 :: ss)).
  set (sections := map (default_invalid_weight (length (s0 :: ss))) (s0 :: ss)).
  destruct (_ && _); [reflexivity|].
  assert (Hpos : (0 < py_sum (map weight_value sections))%Q).
  { rewrite py_sum_Qsum. apply Qsum_positive; [discriminate|].
    subst sections. rewrite map_map. apply List.Forall_map, List.Forall_forall.
    intros s _. apply repaired_weight_positive. simpl. lia. }
  assert (Hz : Qeq_bool (py_sum (map weight_value sections)) 0 = false).
  { apply not_true_is_false. intros H. apply Qeq_bool_iff in H. lra. }
  now rewrite Hz.
Qed.

Section RoundedRepair.

Local Open Scope Q_scope.

(** The weights [0.5] and [0.5078125] of [near_one_questionnaire] are
    floats and so is their total [1.0078125]: it is not 1.0 but lies
    inside the tolerance band, and the weights are returned as they
    are, in binary64 as in rational arithmetic. *)
Lemma fix_questionnaire_weights_keeps_near_one :
  Forall (fun s => weight_is_valid (sec_weight s) = true)
    (q_sections near_one_questionnaire)
  /\ Float.fsum Float.binary64 (weights_of near_one_questionnaire)
     == 129 # 128
  /\ Float.fix_questionnaire_weights Float.binary64 near_one_questionnaire
     = Some near_one_questionnaire
  /\ ~ Qabs (Float.fsum Float.binary64 (weights_of near_one_questionnaire) - 1)
       <= 1 # 1000000
  /\ ~ Qabs (Qsum (weights_of near_one_questionnaire) - 1) <= 1 # 1000000.
Proof.
  split; [repeat constructor|].
  split; [reflexivity|].
  split; [vm_compute; reflexivity|].
  split; intros H; vm_compute in H; apply H; reflexivity.
Qed.

(** C3 (amended). Let every missing, non-numeric or non-positive weight
    first be replaced by the float [1.0 / n], and let W be the total of
    the weights so repaired as [sum] reports it (for a questionnaire
    whose weights are all positive these are the original weights). In
    every arithmetic of the standard model, binary64 included, for a
    questionnaire of at least one and at most 2^20 sections: if W lies
    outside the band of the floats [0.99] and [1.01], the repair returns
    the questionnaire with every weight divided by W and rounded; the
    weights then sum to 1.0 within 1e-6, exactly and as [sum] reports
    it, and the ratio of any two weights is unchanged up to a relative
    error of 2^-51. If W lies inside the band, the repaired weights are
    returned as they are. *)
Theorem fix_questionnaire_weights_normalizes (A : Float.Arithmetic)
    (questionnaire : Questionnaire) :
  Float.standard_model A ->
  let n := length (q_sections questionnaire) in
  let repaired :=
    map (fun s => weight_value (Float.default_invalid_weight A n s))
        (q_sections questionnaire) in
  let W := Float.fsum A repaired in
  q_sections questionnaire <> [] ->
  (Z.of_nat n <= 1048576)%Z ->
  (Forall (fun s => weight_is_valid (sec_weight s) = true)
          (q_sections questionnaire) ->
     repaired = weights_of questionnaire)
  /\ (forall s, In s (q_sections questionnaire) ->
        weight_is_valid (sec_weight s) = false ->
        weight_value (Float.default_invalid_weight A n s)
        = Float.rnd A (1 / Qnat n))
  /\ (~ (Float.rnd A (99 # 100) <= W /\ W <= Float.rnd A (101 # 100)) ->
      exists fixed,
        Float.fix_questionnaire_weights A questionnaire = Some fixed
        /\ weights_of fixed = map (fun w => Float.rnd A (w / W)) repaired
        /\ Qabs (Qsum (weights_of fixed) - 1) <= 1 # 1000000
        /\ Qabs (Float.fsum A (weights_of fixed) - 1) <= 1 # 1000000
        /\ (forall i j wi wj wi' wj',
              repaired !! i = Some wi -> repaired !! j = Some wj ->
              weights_of fixed !! i = Some wi' ->
              weights_of fixed !! j = Some wj' ->
              Qabs (wi' * wj - wj' * wi)
              <= (1 # 2251799813685248) * (wi' * wj)))
  /\ (Float.rnd A (99 # 100) <= W /\ W <= Float.rnd A (101 # 100) ->
      exists fixed,
        Float.fix_questionnaire_weights A questionnaire = Some fixed
        /\ weights_of fixed = repaired).
Proof.
  intros HA n repaired W Hne Hlen.
  assert (Hn : (0 < n)%nat).
  { subst n. destruct (q_sections questionnaire); [congruence|simpl; lia]. }
  assert (Hrne : repaired <> []).
  { subst repaired. destruct (q_sections questionnaire); [congruence|discriminate]. }
  assert (Hpos : Forall (fun w => 0 < w) repaired).
  { subst repaired. apply List.Forall_map, List.Forall_forall.
    intros s _. now apply Float.rounded_weight_positive. }
  assert (Hrlen : (Z.of_nat (length repaired) <= 1048576)%Z).
  { subst repaired. now rewrite length_map. }
  destruct (Float.total_bounds A HA repaired Hrne Hpos Hrlen) as (HW & _).
  fold W in HW.
  split; [|split; [|split]].
  - intros Hvalid. subst repaired. unfold weights_of.
    apply map_ext_in. intros s Hs. unfold Float.default_invalid_weight.
    rewrite List.Forall_forall in Hvalid. now rewrite (Hvalid s Hs).
  - intros s _ Hs. unfold Float.default_invalid_weight. rewrite Hs. reflexivity.
  - intros Hout.
    assert (Htest : Qle_bool (Float.rnd A (99 # 100)) W
                    && Qle_bool W (Float.rnd A (101 # 100)) = false).
    { apply not_true_is_false. intros H. apply andb_true_iff in H.
      destruct H as [H1 H2]. apply Qle_bool_iff in H1, H2. tauto. }
    assert (Hz : Qeq_bool W 0 = false).
    { apply not_true_is_false. intros H. apply Qeq_bool_iff in H. lra. }
    unfold Float.fix_questionnaire_weights.
    destruct (q_sections questionnaire) as [|s0 ss] eqn:Hsecs; [congruence|].
    fold n. rewrite map_map. fold repaired. fold W. rewrite Htest, Hz.
    eexists. split; [reflexivity|].
    assert (Hw : weights_of
                   (mkQuestionnaire
                      (map (fun section =>
                              set_weight section
                                (Float.rnd A (weight_value section / W)))
                           (map (Float.default_invalid_weight A n) (s0 :: ss)))
                      (q_answer_points questionnaire))
                 = map (fun w => Float.rnd A (w / W)) repaired).
    { unfold weights_of. cbn [q_sections]. subst repaired.
      rewrite !map_map. apply map_ext. reflexivity. }
    rewrite Hw. split; [reflexivity|].
    destruct (Float.normalized_total A HA repaired Hrne Hpos Hrlen) as [T1 T2].
    fold W in T1, T2.
    split; [exact T1|]. split; [exact T2|].
    intros i j wi wj wi' wj' Hi Hj Hi' Hj'.
    rewrite list_lookup_fmap in Hi', Hj'.
    unfold lookup in Hi, Hj. fold (@lookup nat Q (list Q) _) in Hi, Hj.
    rewrite Hi in Hi'. rewrite Hj in Hj'. simpl in Hi', Hj'.
    injection Hi' as <-. injection Hj' as <-.
    rewrite List.Forall_forall in Hpos.
    apply Float.normalized_ratio; [exact HA|exact HW| |].
    + apply Hpos. apply list_elem_of_In. eapply list_elem_of_lookup_2. exact Hi.
    + apply Hpos. apply list_elem_of_In. eapply list_elem_of_lookup_2. exact Hj.
  - intros [H1 H2].
    assert (Htest : Qle_bool (Float.rnd A (99 # 100)) W
                    && Qle_bool W (Float.rnd A (101 # 100)) = true).
    { apply andb_true_iff. split; now apply Qle_bool_iff. }
    unfold Float.fix_questionnaire_weights.
    destruct (q_sections questionnaire) as [|s0 ss] eqn:Hsecs; [congruence|].
    fold n. rewrite map_map. fold repaired. fold W. rewrite Htest.
    eexists. split; [reflexivity|].
    unfold weights_of. cbn [q_sections]. subst repaired.
    now rewrite map_map.
Qed.

(** The floats [0.06], [0.57] and [0.36]: their binary64 total is
    [0.9899999999999999], just below the float [0.99]. *)
Definition below_band_questionnaire : Questionnaire :=
  mkQuestionnaire
    [ mkSection "Notice" (WNum (Float.round53 (6 # 100))) None
        (plain_questions 1);
      mkSection "Consent" (WNum (Float.round53 (57 # 100))) None
        (plain_questions 1);
      mkSection "Security" (WNum (Float.round53 (36 # 100))) None
        (plain_questions 1) ]
    None.

Lemma fix_questionnaire_weights_normalizes_witness :
  Float.fsum Float.binary64 (weights_of below_band_questionnaire)
  < Float.round53 (99 # 100)
  /\ exists fixed,
       Float.fix_questionnaire_weights Float.binary64 below_band_questionnaire
       = Some fixed
       /\ Qabs (Qsum (weights_of fixed) - 1) <= 1 # 1000000
       /\ Qabs (Float.fsum Float.binary64 (weights_of fixed) - 1)
          <= 1 # 1000000.
Proof.
  split; [reflexivity|].
  destruct (fix_questionnaire_weights_normalizes Float.binary64
              below_band_questionnaire Float.binary64_standard_model)
    as (_ & _ & Hout & _).
  - discriminate.
  - simpl. lia.
  - destruct Hout as (fixed & Hfix & _ & Hsum & Hfsum & _).
    + intros [H _]. vm_compute in H. apply H. reflexivity.
    + exists fixed. repeat split; assumption.
Defined.

End RoundedRepair.

(** In floating-point arithmetic too the repair reaches a fixed point at
    once: on a questionnaire of at most 2^20 sections, whatever it
    returns has only positive numeric weights and a float total inside
    the band, and repairing it again returns it unchanged. *)
Theorem rounded_repair_idempotent (A : Float.Arithmetic)
    (questionnaire fixed : Questionnaire) :
  Float.standard_model A ->
  (Z.of_nat (length (q_sections questionnaire)) <= 1048576)%Z ->
  Float.fix_questionnaire_weights A questionnaire = Some fixed ->
  all_weights_valid fixed
  /\ (Float.rnd A (99 # 100) <= Float.fsum A (weights_of fixed))%Q
  /\ (Float.fsum A (weights_of fixed) <= Float.rnd A (101 # 100))%Q
  /\ Float.fix_questionnaire_weights A fixed = Some fixed.
Proof.
  intros HA Hlen Hfix.
  destruct (Float.rounded_repair_shape A HA _ _ Hlen Hfix)
    as (Hne & Hvalid & Hlo & Hhi).
  split; [exact Hvalid|]. split; [exact Hlo|]. split; [exact Hhi|].
  now apply Float.rounded_repair_unchanged.
Qed.

Lemma rounded_repair_idempotent_witness :
  exists fixed,
    Float.fix_questionnaire_weights Float.binary64 below_band_questionnaire
    = Some fixed
    /\ Float.fix_questionnaire_weights Float.binary64 fixed = Some fixed.
Proof.
  destruct (Float.fix_questionnaire_weights Float.binary64
              below_band_questionnaire) as [fixed|] eqn:E;
    [|vm_compute in E; discriminate].
  exists fixed. split; [reflexivity|].
  apply (rounded_repair_idempotent Float.binary64 below_band_questionnaire fixed
           Float.binary64_standard_model).
  - simpl. lia.
  - exact E.
Defined.

(** ** Rational and floating-point weighted average *)

Section WeightedAverage.

Local Open Scope Q_scope.

Variable A : Float.Arithmetic.
Hypothesis HA : Float.standard_model A.

Lemma loops_close (n : nat) (scores : Dict.t (option Q)) :
  (0 < n)%nat ->
  (forall name v, get_score scores name = Some v -> 0 <= v) ->
  forall sections t acc acc',
    Forall usable_weight sections ->
    3 * Float.unit_roundoff <= t ->
    t + 2 * Float.unit_roundoff * Qnat (length sections) <= 1 ->
    0 <= fst acc -> 0 <= snd acc ->
    Float.close t (fst acc') (fst acc) -> Float.close t (snd acc') (snd acc) ->
    exists totals totals',
      weighted_loop n scores sections acc = Ok totals
      /\ Float.weighted_loop A n scores sections acc' = Ok totals'
      /\ 0 <= fst totals /\ 0 <= snd totals
      /\ Float.close (t + 2 * Float.unit_roundoff * Qnat (length sections))
           (fst totals') (fst totals)
      /\ Float.close (t + 2 * Float.unit_roundoff * Qnat (length sections))
           (snd totals') (snd totals).
Proof.
  intros Hn Hscores.
  induction sections as [|s rest IH]; intros t acc acc' Husable Ht3 Ht1 Ha Hb Ca Cb.
  - exists acc, acc'. cbn [weighted_loop Float.weighted_loop length].
    repeat split; auto.
    + apply Float.close_bounds in Ca. apply Float.close_bounds. unfold Qnat, Float.unit_roundoff in *.
      change (inject_Z (Z.of_nat 0)) with 0. destruct Ca. split; nra.
    + apply Float.close_bounds in Cb. apply Float.close_bounds. unfold Qnat, Float.unit_roundoff in *.
      change (inject_Z (Z.of_nat 0)) with 0. destruct Cb. split; nra.
  - inversion Husable as [|? ? Hs Hrest]; subst.
    cbn [length] in *. rewrite Qnat_succ in Ht1.
    pose proof (Qnat_nonneg (length rest)) as Hlen.
    cbn [weighted_loop Float.weighted_loop].
    destruct (get_score scores (sec_name s)) as [v|] eqn:Hv.
    + pose proof (Hscores _ _ Hv) as Hv0.
      assert (Hw : exists w w',
                 match sec_weight s with
                 | WNum w => Ok w
                 | WAbsent => Ok (1 / Qnat n)
                 | WOther => Raise TypeError
                 end = Ok w
                 /\ match sec_weight s with
                    | WNum w => Ok w
                    | WAbsent => Ok (Float.rnd A (1 / Qnat n))
                    | WOther => Raise TypeError
                    end = Ok w'
                 /\ 0 < w /\ Float.close Float.unit_roundoff w' w).
      { unfold usable_weight in Hs.
        destruct (sec_weight s) as [| |w]; [| contradiction |].
        - assert (Hd : 0 < 1 / Qnat n).
          { apply Qlt_shift_div_l; [now apply Qnat_positive|]. lra. }
          exists (1 / Qnat n), (Float.rnd A (1 / Qnat n)).
          repeat split; auto. apply (Float.rnd_error A HA). lra.
        - exists w, w. repeat split; auto.
          apply Float.close_bounds. unfold Float.unit_roundoff. split; lra. }
      destruct Hw as (w & w' & -> & -> & Hw0 & Cw).
      cbn [mbind pyresult_bind].
      assert (Cw' := Cw). apply Float.close_bounds in Cw'. destruct Cw' as [W1 W2].
      unfold Float.unit_roundoff in W1, W2.
      assert (Hw'0 : 0 <= w') by lra.
      assert (Hp0 : 0 <= v * w') by nra.
      destruct (Float.rnd_bounds A (v * w') HA Hp0) as [P1 P2].
      unfold Float.unit_roundoff in P1, P2.
      assert (Hvw : 0 <= v * w) by nra.
      assert (Cp : Float.close (3 * Float.unit_roundoff) (Float.rnd A (v * w')) (v * w)).
      { apply Float.close_bounds. unfold Float.unit_roundoff. split; nra. }
      assert (Cw3 : Float.close (3 * Float.unit_roundoff) w' w).
      { apply Float.close_bounds. unfold Float.unit_roundoff. split; lra. }
      assert (Ht1' : t <= 1) by (unfold Float.unit_roundoff in *; lra).
      destruct (IH (t + 2 * Float.unit_roundoff)
                  (fst acc + v * w, snd acc + w)
                  (Float.rnd A (fst acc' + Float.rnd A (v * w')), Float.rnd A (snd acc' + w')))
        as (totals & totals' & E1 & E2 & T1 & T2 & C1 & C2); auto.
      * unfold Float.unit_roundoff in *. lra.
      * unfold Float.unit_roundoff in *. lra.
      * cbn [fst]. lra.
      * cbn [snd]. lra.
      * cbn [fst]. apply Float.accumulate_close; auto.
      * cbn [snd]. apply Float.accumulate_close; auto. lra.
      * exists totals, totals'. rewrite E1, E2. repeat split; auto.
        -- apply Float.close_bounds in C1. apply Float.close_bounds. rewrite Qnat_succ.
           unfold Float.unit_roundoff in *. destruct C1. split; lra.
        -- apply Float.close_bounds in C2. apply Float.close_bounds. rewrite Qnat_succ.
           unfold Float.unit_roundoff in *. destruct C2. split; lra.
    + destruct (IH t acc acc') as (totals & totals' & E1 & E2 & T1 & T2 & C1 & C2);
        auto.
      * unfold Float.unit_roundoff in *. lra.
      * exists totals, totals'. rewrite E1, E2. repeat split; auto.
        -- apply Float.close_bounds in C1. apply Float.close_bounds. rewrite Qnat_succ.
           unfold Float.unit_roundoff in *.
           assert (0 <= Qnat (length rest) * fst totals) by nra.
           destruct C1. split; nra.
        -- apply Float.close_bounds in C2. apply Float.close_bounds. rewrite Qnat_succ.
           unfold Float.unit_roundoff in *.
           assert (0 <= Qnat (length rest) * snd totals) by nra.
           destruct C2. split; nra.
Qed.

(** The quotient and the percentage add two more roundings. *)
Lemma overall_close (T : Q) (totals totals' : Q * Q) :
  0 <= T -> T <= 1 # 1073741824 ->
  0 <= fst totals -> 0 <= snd totals ->
  Float.close T (fst totals') (fst totals) ->
  Float.close T (snd totals') (snd totals) ->
  Float.close (3 * T + 3 * Float.unit_roundoff) (Float.overall_of A totals')
    (overall_of totals).
Proof.
  destruct totals as [a b], totals' as [a' b']. cbn [fst snd].
  intros HT0 HT Ha Hb Ca Cb.
  apply Float.close_bounds in Ca, Cb. destruct Ca as [A1 A2], Cb as [B1 B2].
  unfold Float.overall_of, overall_of. cbn [fst snd].
  assert (HTb : 0 <= T * b) by nra.
  assert (HTa : 0 <= T * a) by nra.
  destruct (Qlt_bool 0 b) eqn:Eb.
  - apply Qlt_bool_iff in Eb.
    assert (Hb' : 0 < b') by nra.
    assert (Eb' : Qlt_bool 0 b' = true) by now apply Qlt_bool_iff.
    rewrite Eb'.
    set (r := a / b). set (r' := a' / b').
    assert (Hr : a == r * b) by (subst r; field; lra).
    assert (Hr' : a' == r' * b') by (subst r'; field; lra).
    assert (Hr0 : 0 <= r) by (subst r; apply Qle_shift_div_l; lra).
    assert (Hr'0 : 0 <= r').
    { subst r'. apply Qle_shift_div_l; [lra|]. nra. }
    assert (R1 : (1 - 3 * T) * r <= r').
    { apply Qmult_le_r with (z := b'); [exact Hb'|]. rewrite <- Hr'.
      rewrite Hr in A1.
      assert (0 <= T * r) by nra. assert (0 <= r * b) by nra.
      assert (0 <= T * (r * b)) by nra.
      assert (0 <= T * (T * (r * b))) by nra.
      nra. }
    assert (R2 : r' <= (1 + 3 * T) * r).
    { assert (S1 : r' * (1 - T) <= (1 + T) * r).
      { apply Qmult_le_r with (z := b); [exact Eb|].
        rewrite Hr in A2.
        assert (0 <= r' * (b' - (1 - T) * b))
          by (apply Qmult_le_0_compat; lra).
        rewrite Hr' in A2. nra. }
      assert (HT1 : 0 < 1 - T) by lra.
      apply Qmult_le_r with (z := 1 - T); [exact HT1|].
      assert (0 <= r * (T * (1 - 3 * T))).
      { apply Qmult_le_0_compat; [exact Hr0|].
        apply Qmult_le_0_compat; lra. }
      nra. }
    destruct (Float.rnd_bounds A r' HA Hr'0) as [Q1 Q2].
    set (q := Float.rnd A r') in *.
    assert (Hq0 : 0 <= q * 100) by (unfold Float.unit_roundoff in *; nra).
    destruct (Float.rnd_bounds A (q * 100) HA Hq0) as [O1 O2].
    unfold Float.unit_roundoff in *.
    assert (0 <= T * r) by nra.
    apply Float.close_bounds. split; nra.
  - apply Qlt_bool_false_iff in Eb.
    assert (Hb0 : b == 0) by lra.
    assert (Hb'0 : b' <= 0) by nra.
    assert (Eb' : Qlt_bool 0 b' = false) by now apply Qlt_bool_false_iff.
    rewrite Eb'. apply Float.close_bounds. unfold Float.unit_roundoff. split; nra.
Qed.

End WeightedAverage.

(** The weighted average in floating point. For at most 2^20 sections
    whose weights are positive numbers or missing, and section scores in
    [0, 1], the weighted loop returns in rounded as in rational
    arithmetic, and the two overall scores differ by at most 2^-30 of
    the rational one, hence by less than 1e-7 on the scale of 0 to 100;
    this holds in every arithmetic of the standard model, binary64
    included. *)
Theorem rounded_overall_score_close (A : Float.Arithmetic)
    (scores : Dict.t (option Q)) (sections : list Section) :
  Float.standard_model A ->
  (Z.of_nat (length sections) <= 1048576)%Z ->
  Forall usable_weight sections ->
  points_in_unit scores ->
  exists totals totals',
    weighted_loop (length sections) scores sections (0, 0)%Q = Ok totals
    /\ Float.weighted_loop A (length sections) scores sections (0, 0)%Q
       = Ok totals'
    /\ (Qabs (Float.overall_of A totals' - overall_of totals)
        <= (1 # 1073741824) * overall_of totals)%Q
    /\ (Qabs (Float.overall_of A totals' - overall_of totals)
        <= 1 # 10000000)%Q.
Proof.
  intros HA Hlen Husable Hunit.
  assert (Hscores : forall name v, get_score scores name = Some v -> (0 <= v)%Q).
  { intros name v Hv. unfold get_score in Hv.
    destruct (Dict.get scores name) as [[p|]|] eqn:E; try discriminate.
    injection Hv as <-. now apply (points_in_unit_get scores name p Hunit). }
  assert (Hnonneg : Forall nonnegative_weight sections).
  { eapply List.Forall_impl; [|exact Husable].
    intros s. unfold usable_weight, nonnegative_weight.
    destruct (sec_weight s); auto. intros H. now apply Qlt_le_weak. }
  destruct (weighted_loop_bounds (length sections) scores sections Hunit Hnonneg
              (0, 0)%Q) as (bounded & Ebounded & B0 & B1);
    [cbn; apply Qle_refl|cbn; apply Qle_refl|].
  destruct (overall_of_range bounded B0 B1) as [O0 O1].
  destruct sections as [|s0 ss] eqn:Hsecs.
  - exists (0, 0)%Q, (0, 0)%Q. repeat split; vm_compute; discriminate.
  - rewrite <- Hsecs in *.
    assert (Hn : (0 < length sections)%nat) by (rewrite Hsecs; simpl; lia).
    assert (Hq : (Qnat (length sections) <= 1048576)%Q).
    { unfold Qnat. change 1048576%Q with (inject_Z 1048576).
      now rewrite <- Zle_Qle. }
    pose proof (Qnat_nonneg (length sections)) as Hq0.
    destruct (loops_close A HA (length sections) scores Hn Hscores sections
                (3 * Float.unit_roundoff)%Q (0, 0)%Q (0, 0)%Q)
      as (totals & totals' & E1 & E2 & T1 & T2 & C1 & C2); auto.
    + apply Qle_refl.
    + unfold Float.unit_roundoff. lra.
    + cbn. apply Qle_refl.
    + cbn. apply Qle_refl.
    + unfold Float.close. vm_compute. discriminate.
    + unfold Float.close. vm_compute. discriminate.
    + assert (totals = bounded) by congruence. subst bounded.
      exists totals, totals'. split; [exact E1|]. split; [exact E2|].
      set (T := (3 * Float.unit_roundoff
                 + 2 * Float.unit_roundoff * Qnat (length sections))%Q) in *.
      assert (HT0 : (0 <= T)%Q) by (subst T; unfold Float.unit_roundoff; lra).
      assert (HT : (T <= 1 # 1073741824)%Q)
        by (subst T; unfold Float.unit_roundoff; lra).
      pose proof (overall_close A HA T totals totals' HT0 HT T1 T2 C1 C2) as C.
      apply Float.close_bounds in C. destruct C as [L1 L2].
      assert (HTO : (0 <= T * overall_of totals)%Q)
        by now apply Qmult_le_0_compat.
      assert (HT' : (3 * T + 3 * Float.unit_roundoff <= 1 # 1073741824)%Q)
        by (subst T; unfold Float.unit_roundoff; lra).
      assert (HTO' : ((1 # 1073741824) * overall_of totals
                      - (3 * T + 3 * Float.unit_roundoff) * overall_of totals
                      >= 0)%Q) by nra.
      split; apply Qabs_Qle_condition; unfold Float.unit_roundoff in *;
        split; nra.
Qed.

(** Scores 1.0 and 0.2 under the weights 0.6 and 1.0. *)
Definition uneven_sections : list Section :=
  [ mkSection "Notice" (WNum (Float.round53 (6 # 10))) None (plain_questions 1);
    mkSection "Consent" (WNum 1) None (plain_questions 5) ].

Definition uneven_scores : Dict.t (option Q) :=
  [ ("Notice", Some 1%Q); ("Consent", Some (Float.round53 (2 # 10))) ].

Lemma rounded_overall_score_close_witness :
  exists totals totals',
    weighted_loop 2 uneven_scores uneven_sections (0, 0)%Q = Ok totals
    /\ Float.weighted_loop Float.binary64 2 uneven_scores uneven_sections
         (0, 0)%Q = Ok totals'
    /\ (Qabs (Float.overall_of Float.binary64 totals' - overall_of totals)
        <= 1 # 10000000)%Q.
Proof.
  destruct (rounded_overall_score_close Float.binary64 uneven_scores
              uneven_sections Float.binary64_standard_model)
    as (totals & totals' & E1 & E2 & _ & H).
  - simpl. lia.
  - repeat constructor.
  - repeat constructor; vm_compute; discriminate.
  - exists totals, totals'. repeat split; assumption.
Defined.

(** The difference is small but can cross a threshold of
    [get_compliance_level]: under the weights 0.6 and 1.0 binary64 gives
    the overall score 50.0, "Partially Compliant"; the repair turns the
    weights into 0.37499999999999994 and 0.625, under which binary64
    gives 49.99999999999999, "Non-Compliant". *)
Lemma rounded_repair_can_change_level :
  let before := mkQuestionnaire uneven_sections None in
  exists after totals totals',
    Float.fix_questionnaire_weights Float.binary64 before = Some after
    /\ Float.weighted_loop Float.binary64 2 uneven_scores (q_sections before)
         (0, 0)%Q = Ok totals
    /\ Float.weighted_loop Float.binary64 2 uneven_scores (q_sections after)
         (0, 0)%Q = Ok totals'
    /\ (Float.overall_of Float.binary64 totals == 50)%Q
    /\ (Float.overall_of Float.binary64 totals'
        == 7036874417766399 # 140737488355328)%Q
    /\ get_compliance_level
         (Float.round53 (Float.overall_of Float.binary64 totals / 100))
       = "Partially Compliant"
    /\ get_compliance_level
         (Float.round53 (Float.overall_of Float.binary64 totals' / 100))
       = "Non-Compliant".
Proof.
  cbv zeta. do 3 eexists.
  split; [lazy; reflexivity|].
  split; [lazy; reflexivity|]. split; [lazy; reflexivity|].
  repeat split; vm_compute; reflexivity.
Qed.
